(** * pb_update: the Picoblaze ROM updater's memory-layout engine

    A shallow embedding of [pb_update.py]: the [Bram], [MemRow] and
    [MemLayout] classes, the instance discovery [find_ram_instances] and the
    packing driver in [main], followed by the properties of the layout
    engine.

    The script is Python 2 ([raw_input]).  Python integers are unbounded,
    so they are [Z].  An attribute that may hold [None], an [int] or a
    [str] is a [val]; an operation that can raise returns a [result]. *)

From stdpp Require Import gmap strings list fin_maps sorting.
From Stdlib Require Import ZArith Ascii Lia DecimalString.

Open Scope Z_scope.

(** ** Python values, exceptions, results *)

Inductive val : Type :=
| VNone
| VInt (n : Z)
| VStr (s : string).

Inductive exn : Type :=
| TypeError
| ValueError
| KeyError
| IndexError
| EOFError
| SystemExit (code : Z).

Inductive result (A : Type) : Type :=
| Ok (a : A)
| Raise (e : exn).

Arguments Ok {A} a.
Arguments Raise {A} e.

#[global] Instance result_ret : MRet result := fun _ a => Ok a.
#[global] Instance result_bind : MBind result := fun _ _ f r =>
  match r with
  | Ok a => f a
  | Raise e => Raise e
  end.

#[global] Instance val_eq_dec : EqDecision val.
Proof. solve_decision. Defined.

(** The operand of an integer [+], [-]: anything but an [int] is a
    [TypeError] ([18 - None], [18 - '18'], [0 + '18']). *)
Definition int_of (v : val) : result Z :=
  match v with
  | VInt n => Ok n
  | _ => Raise TypeError
  end.

(** [s * n] on a string: [n] copies, none when [n <= 0]. *)
Definition str_repeat (s : string) (n : Z) : string :=
  String.concat EmptyString (replicate (Z.to_nat n) s).

(** [a * b]. *)
Definition py_mul (a b : val) : result val :=
  match a, b with
  | VInt x, VInt y => Ok (VInt (x * y))
  | VInt x, VStr s => Ok (VStr (str_repeat s x))
  | VStr s, VInt x => Ok (VStr (str_repeat s x))
  | _, _ => Raise TypeError
  end.

(** [v <= n] for an integer [n], with Python 2's ordering of mixed types:
    [None] is below every number, every number is below every string. *)
Definition py_le_int (v : val) (n : Z) : bool :=
  match v with
  | VNone => true
  | VInt x => x <=? n
  | VStr _ => false
  end.

(** Truth value of an attribute: [None], [0] and [''] are false. *)
Definition truthy (v : val) : bool :=
  match v with
  | VNone => false
  | VInt n => negb (n =? 0)
  | VStr s => negb (String.eqb s EmptyString)
  end.

(** [sum(...)] of attribute values: [0 + v1 + v2 + ...], left to right. *)
Fixpoint py_sum_from (acc : Z) (vs : list val) : result Z :=
  match vs with
  | [] => Ok acc
  | v :: vs' => n ← int_of v; py_sum_from (acc + n) vs'
  end.

Definition py_sum (vs : list val) : result Z := py_sum_from 0 vs.

(** [for x in xs: acc = f(acc, x)] where [f] may raise. *)
Fixpoint foldlM {A B : Type} (f : A -> B -> result A) (a : A) (l : list B)
  : result A :=
  match l with
  | [] => Ok a
  | x :: l' => a' ← f a x; foldlM f a' l'
  end.

(** [[f(x) for x in xs]] where [f] may raise. *)
Fixpoint mapM_result {A B : Type} (f : A -> result B) (l : list A)
  : result (list B) :=
  match l with
  | [] => Ok []
  | x :: l' => y ← f x; ys ← mapM_result f l'; Ok (y :: ys)
  end.

(** ** Text: [str(int)], ['{:08X}'], [join], [split] *)

Definition str_of_Z (n : Z) : string := NilZero.string_of_int (Z.to_int n).

Definition str_of_val (v : val) : string :=
  match v with
  | VNone => "None"
  | VInt n => str_of_Z n
  | VStr s => s
  end.

Definition hex_digit (d : Z) : ascii :=
  if d <? 10 then ascii_of_N (Z.to_N (48 + d)) else ascii_of_N (Z.to_N (55 + d)).

Fixpoint hex_upper_from (fuel : nat) (n : Z) (acc : string) : string :=
  let acc' := String (hex_digit (n mod 16)) acc in
  match fuel with
  | O => acc'
  | S fuel' => if n / 16 =? 0 then acc' else hex_upper_from fuel' (n / 16) acc'
  end.

(** Upper-case hexadecimal digits of [n >= 0], most significant first. *)
Definition hex_upper (n : Z) : string :=
  hex_upper_from (Z.to_nat (Z.log2 n)) n EmptyString.

Definition zero_pad (w : nat) (s : string) : string :=
  String.concat EmptyString (replicate (w - String.length s) "0") +:+ s.

(** ['{:08X}'.format(n)]: at least eight characters, the sign first. *)
Definition fmt_08X (n : Z) : string :=
  if n <? 0 then "-" +:+ zero_pad 7 (hex_upper (- n)) else zero_pad 8 (hex_upper n).

Definition hex_digit_val (c : ascii) : Z :=
  let k := Z.of_N (N_of_ascii c) in
  if k <? 58 then k - 48 else k - 55.

Fixpoint hex_val_from (acc : Z) (s : string) : Z :=
  match s with
  | EmptyString => acc
  | String c s' => hex_val_from (acc * 16 + hex_digit_val c) s'
  end.

(** The number a signed upper-case hexadecimal numeral denotes. *)
Definition hex_val (s : string) : Z :=
  match s with
  | String "-"%char s' => - hex_val_from 0 s'
  | _ => hex_val_from 0 s
  end.

(** The newline character as a string. *)
Definition nl : string := String "010"%char EmptyString.

(** [sep.join(l)]. *)
Definition join (sep : string) (l : list string) : string := String.concat sep l.

(** [s.split(c)] for a one-character separator: one piece more than there
    are separators, so never the empty list. *)
Fixpoint split (c : ascii) (s : string) : list string :=
  match s with
  | EmptyString => [EmptyString]
  | String a s' =>
      if Ascii.eqb a c then EmptyString :: split c s'
      else match split c s' with
           | x :: xs => String a x :: xs
           | [] => [String a EmptyString]
           end
  end.

(** [' ' * n]: no blanks when [n <= 0]. *)
Definition spaces (n : Z) : string := str_repeat " " n.

(** ['{:<w}'.format(s)], also ['{:w}'] on a [str]: blanks after [s] up to
    [w] characters. *)
Definition ljust (w : nat) (s : string) : string :=
  s +:+ spaces (Z.of_nat (w - String.length s)).

(** ['{:w}'.format(n)] on an [int]: blanks before the digits up to [w]
    characters. *)
Definition rjust (w : nat) (s : string) : string :=
  spaces (Z.of_nat (w - String.length s)) +:+ s.

(** ** class Bram *)

Module Bram.

Record t : Type := mk
  { instance : string;
    primitive : string;
    loc : string;
    depth : val;
    width : val;
    lsb : Z }.

(** [Bram(instance, primitive, loc)]: dimensions unknown, [lsb = 0]. *)
Definition init (i p l : string) : t := mk i p l VNone VNone 0.

Definition set_lsb (b : t) (l : Z) : t :=
  mk (instance b) (primitive b) (loc b) (depth b) (width b) l.

Definition set_dims (b : t) (d w : val) : t :=
  mk (instance b) (primitive b) (loc b) d w (lsb b).

(** [self.lsb + self.width - 1] *)
Definition msb (b : t) : result Z :=
  w ← int_of (width b); Ok (lsb b + w - 1).

Definition dimensions (b : t) : string :=
  (if truthy (depth b) then str_of_val (depth b) else "??") +:+ "x" +:+
  (if truthy (width b) then str_of_val (width b) else "??").

End Bram.

(** ** class MemRow *)

Module MemRow.

Record t : Type := mk
  { start : Z;
    end_ : Z;
    brams : list Bram.t;
    target_width : Z }.

(** [MemRow(start, end)] with [brams] left to its default: an empty row
    of target width 18.  (The driver never passes [brams].) *)
Definition init (s e : Z) : t := mk s e [] 18.

(** [self.end - self.start + 1] *)
Definition depth (self : t) : Z := end_ self - start self + 1.

(** [sum(b.width for b in self.brams)] *)
Definition width (self : t) : result Z := py_sum (Bram.width <$> brams self).

(** [add_bram]: append, then place the block below its predecessor, or,
    for the first block, at the top of the target width, which also
    fixes the row's end address.  A [TypeError] ends the process in the
    driver, the half-updated row is then never looked at. *)
Definition add_bram (self : t) (b : Bram.t) : result t :=
  let brams' := brams self ++ [b] in
  if (2 <=? length brams')%nat then
    match brams' !! (length brams' - 2)%nat with
    | Some p =>
        w ← int_of (Bram.width b);
        Ok (mk (start self) (end_ self)
               (brams self ++ [Bram.set_lsb b (Bram.lsb p - w)])
               (target_width self))
    | None => Raise IndexError
    end
  else
    w ← int_of (Bram.width b);
    d ← int_of (Bram.depth b);
    Ok (mk (start self) (start self + d - 1)
           (brams self ++ [Bram.set_lsb b (target_width self - w)])
           (target_width self)).

(** [True if self.width == width else False] *)
Definition valid (self : t) (width0 : Z) : result bool :=
  w ← width self; Ok (w =? width0).

Definition lane (b : Bram.t) : result string :=
  m ← Bram.msb b;
  Ok ("    " +:+ Bram.instance b +:+ " [" +:+ str_of_Z m +:+ ":" +:+
      str_of_Z (Bram.lsb b) +:+ "] LOC = " +:+ Bram.loc b +:+ " OUTPUT = " +:+
      Bram.loc b +:+ ".mem;").

Definition bus_block (self : t) : result string :=
  lanes ← mapM_result lane (brams self);
  Ok ("  BUS_BLOCK" +:+ nl +:+ join nl lanes +:+ nl +:+ "  END_BUS_BLOCK;").

(** The first loop of [__init__] on [reversed(brams)]: each block gets the
    running [lsb], which then grows by the block's width. *)
Fixpoint stack_up (rev_brams : list Bram.t) (lsb : Z) : result (list Bram.t) :=
  match rev_brams with
  | [] => Ok []
  | b :: bs =>
      w ← int_of (Bram.width b);
      rest ← stack_up bs (lsb + w);
      Ok (Bram.set_lsb b lsb :: rest)
  end.

(** [MemRow(start, end, brams)]: the blocks are stacked up from bit 0, the
    last one lowest, then all are shifted by the target width minus the
    width of the first block.  [start] and [end] stay as given. *)
Definition init_with (s e : Z) (brams0 : list Bram.t) : result t :=
  stacked ← stack_up (reverse brams0) 0;
  let bs := reverse stacked in
  if (0 <? 18) && bool_decide (0 < length bs)%nat then
    match bs with
    | b0 :: _ =>
        w0 ← int_of (Bram.width b0);
        Ok (mk s e ((fun b => Bram.set_lsb b (Bram.lsb b + (18 - w0))) <$> bs) 18)
    | [] => Raise IndexError
    end
  else Ok (mk s e bs 18).

(** [summary(indent)]: a line for each block with its name, dimensions and
    bit range. *)
Definition summary_line (indent : Z) (b : Bram.t) : result string :=
  m ← Bram.msb b;
  Ok (spaces indent +:+ ljust 20 (Bram.instance b) +:+ "  " +:+
      ljust 7 (Bram.dimensions b) +:+ "  " +:+ rjust 2 (str_of_Z m) +:+ " - " +:+
      ljust 2 (str_of_Z (Bram.lsb b))).

Definition summary (self : t) (indent : Z) : result (list string) :=
  mapM_result (summary_line indent) (brams self).

(** [map()]: the widths in brackets, marked when they do not add up to the
    target width; [success] and [error] are the colour functions. *)
Definition map (success error : string -> string) (self : t) : result string :=
  let m := String.concat EmptyString
             ((fun b => "[" +:+ str_of_val (Bram.width b) +:+ "]") <$> brams self) in
  w ← width self;
  Ok (if w =? target_width self then success m else m +:+ error "(?)").

End MemRow.

(** ** class MemLayout *)

Module MemLayout.

Record t : Type := mk { rows : list MemRow.t }.

Definition init : t := mk [].

(** [add_row(row, relative_start)]: a row added relative to the layout
    is moved to start right after the last row's end. *)
Definition add_row (self : t) (row : MemRow.t) (relative_start : bool) : t :=
  match relative_start, last (rows self) with
  | true, Some l =>
      mk (rows self ++
          [MemRow.mk (MemRow.start row + MemRow.end_ l + 1)
                     (MemRow.end_ row + MemRow.end_ l + 1)
                     (MemRow.brams row) (MemRow.target_width row)])
  | _, _ => mk (rows self ++ [row])
  end.

(** [all(r.valid(width) for r in rows)]: stops at the first row that is
    not valid, without looking at the rows after it. *)
Fixpoint all_valid (rs : list MemRow.t) (width : Z) : result bool :=
  match rs with
  | [] => Ok true
  | r :: rs' =>
      v ← MemRow.valid r width;
      if (v : bool) then all_valid rs' width else Ok false
  end.

Definition sum_depth (rs : list MemRow.t) : Z :=
  foldl Z.add 0 (MemRow.depth <$> rs).

(** [valid(depth, width)] *)
Definition valid (self : t) (depth width : Z) : result bool :=
  rv ← all_valid (rows self) width;
  Ok (if (rv : bool) then sum_depth (rows self) =? depth else false).

(** [end_addr] of [bmm], the way data2mem counts words. *)
Definition end_addr (last_row first_row : MemRow.t) : Z :=
  (MemRow.end_ last_row + 1) * Z.of_nat (length (MemRow.brams first_row)) - 1.

Definition btype (size : val) : string :=
  if py_le_int size (1024 * 16) then "RAMB16"
  else if py_le_int size (1024 * 18) then "RAMB18"
  else if py_le_int size (1024 * 32) then "RAMB32"
  else if py_le_int size (1024 * 36) then "RAMB36"
  else "unknown".

Definition header (bt : string) (lo hi : Z) : string :=
  "ADDRESS_SPACE pb_rom " +:+ bt +:+ " INDEX_ADDRESSING [0x" +:+ fmt_08X lo +:+
  ":0x" +:+ fmt_08X hi +:+ "]" +:+ nl.

(** The [bmm] property: the address-map text. *)
Definition bmm (self : t) : result string :=
  match rows self with
  | [] => Raise IndexError
  | r0 :: _ =>
      match MemRow.brams r0 with
      | [] => Raise IndexError
      | first_bram :: _ =>
          size ← py_mul (Bram.depth first_bram) (Bram.width first_bram);
          blocks ← mapM_result MemRow.bus_block (rows self);
          match last (rows self) with
          | Some rl =>
              Ok (header (btype size) 0 (end_addr rl r0) +:+
                  join nl blocks +:+ nl +:+ "END_ADDRESS_SPACE;")
          | None => Raise IndexError
          end
      end
  end.

(** The [instance_spec] property. *)
Definition instance_spec (self : t) : string :=
  join ":" ((fun r => join "," (Bram.instance <$> MemRow.brams r)) <$> rows self).

(** The line [summary] yields for row number [i]. *)
Definition summary_head (indent : Z) (i : nat) (r : MemRow.t) (m : string) : string :=
  spaces indent +:+ "Row " +:+ str_of_Z (Z.of_nat i) +:+ ":  " +:+
  rjust 4 (str_of_Z (MemRow.start r)) +:+ " - " +:+
  ljust 4 (str_of_Z (MemRow.end_ r)) +:+ "    " +:+ m.

(** [summary(indent)], read to its end as the driver's [join] does: for
    each row its line, then the lines of its blocks. *)
Fixpoint summary_from (success error : string -> string) (i : nat)
    (rs : list MemRow.t) (indent : Z) : result (list string) :=
  match rs with
  | [] => Ok []
  | r :: rs' =>
      m ← MemRow.map success error r;
      ls ← MemRow.summary r (indent + 2);
      rest ← summary_from success error (S i) rs' indent;
      Ok (summary_head indent i r m :: ls ++ rest)
  end.

Definition summary (success error : string -> string) (self : t) (indent : Z)
    : result (list string) :=
  summary_from success error 0 (rows self) indent.

End MemLayout.

(** ** The packing driver: [main] from the discovery result on

    [main] first checks files and runs the external [xdl] tool; the model
    starts where it has the lines of the XDL file.  The console output on
    stdout is not part of the state, the code that prints is kept for the
    exceptions it can raise.  [copy.deepcopy] is the identity on values. *)

Definition str_le (a b : string) : Prop := String.leb a b = true.

#[global] Instance str_le_dec : RelDecision str_le :=
  fun a b => decide (String.leb a b = true).

(** [sorted(d.keys())]: the keys of a dict are distinct, so any sorting
    algorithm gives the list Python's gives. *)
Definition sorted_keys {A : Type} (d : gmap string A) : list string :=
  merge_sort str_le (map_to_list d).*1.

(** [d[k]] *)
Definition getitem {A : Type} (d : gmap string A) (k : string) : result A :=
  match d !! k with
  | Some a => Ok a
  | None => Raise KeyError
  end.

(** [l.remove(x)]: drops the first element equal to [x]. *)
Fixpoint list_remove (x : string) (l : list string) : result (list string) :=
  match l with
  | [] => Raise ValueError
  | y :: l' =>
      if decide (x = y) then Ok l'
      else l'' ← list_remove x l'; Ok (y :: l'')
  end.

(** [len(set(l)) < len(l)] *)
Definition has_duplicates (l : list string) : bool :=
  bool_decide (length (remove_dups l) < length l)%nat.

Definition lower_char (c : ascii) : ascii :=
  let n := N_of_ascii c in
  if ((65 <=? n) && (n <=? 90))%N then ascii_of_N (n + 32) else c.

(** [s.lower()] *)
Fixpoint lower (s : string) : string :=
  match s with
  | EmptyString => EmptyString
  | String c s' => String (lower_char c) (lower s')
  end.

Definition is_space (c : ascii) : bool :=
  let n := N_of_ascii c in
  ((n =? 32) || ((9 <=? n) && (n <=? 13)))%N.

Definition is_digit (c : ascii) : bool :=
  let n := N_of_ascii c in
  ((48 <=? n) && (n <=? 57))%N.

Fixpoint lstrip (s : string) : string :=
  match s with
  | EmptyString => EmptyString
  | String c s' => if is_space c then lstrip s' else s
  end.

Fixpoint rstrip (s : string) : string :=
  match s with
  | EmptyString => EmptyString
  | String c s' =>
      match rstrip s' with
      | EmptyString => if is_space c then EmptyString else String c EmptyString
      | r => String c r
      end
  end.

Fixpoint digits_val (acc : Z) (s : string) : option Z :=
  match s with
  | EmptyString => Some acc
  | String c s' =>
      if is_digit c then digits_val (acc * 10 + (Z.of_N (N_of_ascii c) - 48)) s'
      else None
  end.

Definition digits_val1 (s : string) : option Z :=
  match s with
  | EmptyString => None
  | _ => digits_val 0 s
  end.

(** [int(s)] on a [str]: blanks around, an optional sign, decimal digits;
    [None] stands for [ValueError]. *)
Definition py_int (s : string) : option Z :=
  match rstrip (lstrip s) with
  | String "+"%char d => digits_val1 d
  | String "-"%char d => Z.opp <$> digits_val1 d
  | t => digits_val1 t
  end.

Module Driver.

Record state : Type := mk
  { lo : MemLayout.t;
    inames : list string;
    prompt_user : bool;
    stderr : list string;
    bmm_file : option string }.

(** How a stretch of [main] ends: it falls through to the next
    statement, or an exception (among them [sys.exit]) ends the process.
    The state is what the process leaves behind. *)
Inductive outcome : Type :=
| Continue (s : state)
| Abort (e : exn) (s : state).

Definition and_then (o : outcome) (k : state -> outcome) : outcome :=
  match o with
  | Continue s => k s
  | Abort e s => Abort e s
  end.

Definition try {A : Type} (r : result A) (s : state) (k : A -> outcome) : outcome :=
  match r with
  | Ok a => k a
  | Raise e => Abort e s
  end.

Definition set_lo (s : state) (l : MemLayout.t) : state :=
  mk l (inames s) (prompt_user s) (stderr s) (bmm_file s).
Definition set_inames (s : state) (l : list string) : state :=
  mk (lo s) l (prompt_user s) (stderr s) (bmm_file s).
Definition set_prompt_user (s : state) (b : bool) : state :=
  mk (lo s) (inames s) b (stderr s) (bmm_file s).
Definition eprint (s : state) (line : string) : state :=
  mk (lo s) (inames s) (prompt_user s) (stderr s ++ [line]) (bmm_file s).
Definition set_bmm_file (s : state) (t : string) : state :=
  mk (lo s) (inames s) (prompt_user s) (stderr s) (Some t).

Definition target_width : Z := 18.

(** [lo.rows[i].add_bram(b)] *)
Definition add_bram_at (l : MemLayout.t) (i : nat) (b : Bram.t) : result MemLayout.t :=
  match MemLayout.rows l !! i with
  | Some r =>
      r' ← MemRow.add_bram r b;
      Ok (MemLayout.mk (<[i := r']> (MemLayout.rows l)))
  | None => Raise IndexError
  end.

(** [lo.rows[-1].add_bram(b)] *)
Definition add_bram_last (l : MemLayout.t) (b : Bram.t) : result MemLayout.t :=
  match MemLayout.rows l with
  | [] => Raise IndexError
  | _ => add_bram_at l (length (MemLayout.rows l) - 1) b
  end.

(** [lo.rows[-1]] *)
Definition last_row (l : MemLayout.t) : result MemRow.t :=
  match last (MemLayout.rows l) with
  | Some r => Ok r
  | None => Raise IndexError
  end.

(** What [lo.summary(4)] evaluates that can raise: the width of every
    row ([MemRow.map]), and the top bit of every block. *)
Definition summary_raises (l : MemLayout.t) : result unit :=
  _ ← mapM_result
        (fun r => _ ← MemRow.width r; mapM_result Bram.msb (MemRow.brams r))
        (MemLayout.rows l);
  Ok ().

Section Main.

(** [opbasm_lib.color.error], or the dummy that replaces it. *)
Variable error : string -> string.

Variable ram_insts : gmap string Bram.t.

(** [report_error(msg)] *)
Definition report_error (msg : string) (s : state) : state :=
  eprint s (error "ERROR:" +:+ " " +:+ msg).

(** [report_error(msg, exit=code)] *)
Definition report_error_exit (msg : string) (code : Z) (s : state) : outcome :=
  Abort (SystemExit code) (report_error msg s).

Definition instance_line (indent n : string) : result string :=
  b ← getitem ram_insts n;
  Ok (indent +:+ n +:+ "  [" +:+ Bram.primitive b +:+ " " +:+ Bram.dimensions b +:+ "]").

(** The lines [show_instances] prints, one for each name, then [sys.exit(1)] *)
Fixpoint show_lines (ns : list string) (s : state) : outcome :=
  match ns with
  | [] => Abort (SystemExit 1) s
  | n :: ns' => try (instance_line "  " n) s (fun l => show_lines ns' (eprint s l))
  end.

(** [show_instances(inames, ram_insts)] *)
Definition show_instances (s : state) : outcome :=
  let s1 := eprint s " Available RAM instances:" in
  show_lines (inames s1) s1.

(** [for b in r: lo.rows[-1].add_bram(copy.deepcopy(ram_insts[b]))] *)
Definition add_named (l : MemLayout.t) (name : string) : result MemLayout.t :=
  match MemLayout.rows l with
  | [] => Raise IndexError
  | _ => b ← getitem ram_insts name; add_bram_last l b
  end.

(** [for r in spec: lo.add_row(MemRow(0,0)); for b in r: ...] *)
Definition build_row (l : MemLayout.t) (r : list string) : result MemLayout.t :=
  foldlM add_named (MemLayout.add_row l (MemRow.init 0 0) true) r.

Definition build_spec (l : MemLayout.t) (spec : list (list string)) : result MemLayout.t :=
  foldlM build_row l spec.

(** [[r.split(',') for r in options.ram_inst.split(':')]] *)
Definition parse_spec (ram_inst : string) : list (list string) :=
  split ","%char <$> split ":"%char ram_inst.

(** [for i in spec_flat: if i not in inames: ...] *)
Fixpoint check_names (l : list string) (s : state) : outcome :=
  match l with
  | [] => Continue s
  | i :: l' =>
      if bool_decide (i ∈ inames s) then check_names l' s
      else show_instances
             (report_error ("Instance does not exist in netlist (" +:+ i +:+ ")") s)
  end.

(** The branch taken when [options.ram_inst] is given and there is more
    than one instance. *)
Definition select_spec (ram_inst : string) (s : state) : outcome :=
  let spec := parse_spec ram_inst in
  let spec_flat := concat spec in
  and_then
    (if has_duplicates spec_flat
     then show_instances (report_error "Duplicate instances in BRAM spec" s)
     else Continue s)
    (fun s =>
       and_then (check_names spec_flat s)
         (fun s =>
            try (build_spec (lo s) spec) s
              (fun l => Continue (set_prompt_user (set_lo s l) false)))).

(** Lines 119 to 154: the layout that needs no prompt. *)
Definition select (ram_inst : option string) (s : state) : outcome :=
  if bool_decide (length (inames s) = 1%nat) then
    let l1 := MemLayout.add_row (lo s) (MemRow.init 0 0) true in
    match inames s !! 0%nat with
    | Some n =>
        try (b ← getitem ram_insts n; add_bram_at l1 0 b) (set_lo s l1)
          (fun l => Continue (set_prompt_user (set_lo s l) false))
    | None => Abort IndexError (set_lo s l1)
    end
  else
    match ram_inst with
    | Some spec => select_spec spec s
    | None => Continue s
    end.

Variable target_depth : Z.

(** [prompt_user and not lo.valid(target_depth, target_width)] *)
Definition loop_test (s : state) : result bool :=
  if prompt_user s then
    v ← MemLayout.valid (lo s) target_depth target_width; Ok (negb v)
  else Ok false.

(** The loop body up to the prompt. *)
Definition before_prompt (s : state) : outcome :=
  match MemLayout.rows (lo s) with
  | [] => Abort IndexError s
  | r0 :: _ =>
      try (if bool_decide (0 < length (MemRow.brams r0))%nat
           then summary_raises (lo s) else Ok ()) s
        (fun _ =>
           if bool_decide (length (inames s) = 0%nat)
           then report_error_exit "No BRAMs remaining" 1 s
           else try (mapM_result (instance_line EmptyString) (inames s)) s
                  (fun _ => Continue s))
  end.

(** The loop body from the answer [sel] of [raw_input] on. *)
Definition after_prompt (sel : string) (s : state) : outcome :=
  if bool_decide (lower sel = "q") then Abort (SystemExit 0) s
  else
    let sel := match py_int sel with
               | Some n => n - 1
               | None => -1
               end in
    if (sel <? 0) || (sel >=? Z.of_nat (length (inames s)))
    then report_error_exit "Invalid selection" 1 s
    else
      match inames s !! Z.to_nat sel with
      | None => Abort IndexError s
      | Some name =>
          try (add_named (lo s) name) s (fun l1 =>
          let s1 := set_lo s l1 in
          try (last_row l1) s1 (fun r =>
          try (MemRow.width r) s1 (fun w =>
          if w >? target_width
          then report_error_exit ("Row is too wide (" +:+ str_of_Z w +:+ " bits)") 1 s1
          else
            try (rv ← MemRow.valid r target_width;
                 if (rv : bool)
                 then v ← MemLayout.valid l1 target_depth target_width; Ok (negb v)
                 else Ok false) s1 (fun open_row =>
            let s2 := if (open_row : bool)
                      then set_lo s1 (MemLayout.add_row l1 (MemRow.init 0 0) true)
                      else s1 in
            try (list_remove name (inames s2)) s2 (fun ns =>
            Continue (set_inames s2 ns))))))
      end.

(** The [while] loop.  Every turn that does not end the process reads
    one line, [raw_input] raises [EOFError] when there is none left. *)
Fixpoint interact (stdin : list string) (s : state) : outcome :=
  try (loop_test s) s (fun again =>
    if (again : bool) then
      and_then (before_prompt s) (fun s1 =>
        match stdin with
        | [] => Abort EOFError s1
        | sel :: stdin' => and_then (after_prompt sel s1) (interact stdin')
        end)
    else Continue s).

(** Lines 170 to 206. *)
Definition prompt_loop (stdin : list string) (s : state) : outcome :=
  interact stdin
    (if prompt_user s
     then set_lo s (MemLayout.add_row (lo s) (MemRow.init 0 0) true)
     else s).

(** [all(widths[0] == w for w in widths[1:])], true on no widths *)
Definition same_widths (l : MemLayout.t) : bool :=
  match (r ← MemLayout.rows l; Bram.width <$> MemRow.brams r) with
  | [] => true
  | w0 :: ws => forallb (fun w => bool_decide (w0 = w)) ws
  end.

(** Lines 210 to 244: the checks on the layout, the BMM file, data2mem.
    The file is opened, so it exists, before [lo.bmm] is evaluated. *)
Definition finish (data2mem_ok : bool) (s : state) : outcome :=
  try (summary_raises (lo s)) s (fun _ =>
  if negb (same_widths (lo s))
  then report_error_exit "Mixed width BRAMs not supported in memory layout" 1 s
  else
    try (last_row (lo s)) s (fun rl =>
    if negb (MemRow.end_ rl + 1 =? target_depth)
    then report_error_exit
           ("Memory layout depth does not match required " +:+
            str_of_Z target_depth +:+ " words") 1 s
    else
      let s1 := set_bmm_file s EmptyString in
      try (MemLayout.bmm (lo s)) s1 (fun text =>
      let s2 := set_bmm_file s text in
      if data2mem_ok then Abort (SystemExit 0) s2
      else report_error_exit "data2mem failure" 1 s2))).

End Main.

Definition init_state (names : list string) : state :=
  mk MemLayout.init names true [] None.

(** [len(mem_data)] after the line with the address offset is dropped *)
Definition required_depth (mem_data : list string) : Z :=
  if bool_decide (1 < length mem_data)%nat
  then Z.of_nat (length (tail mem_data))
  else Z.of_nat (length mem_data).

(** Lines 114 to 206 of [main]: from what [find_ram_instances] returned,
    the command line's [-r] option, the required depth and the lines the
    user will type, to the layout. *)
Definition assemble (error : string -> string) (ram_insts : gmap string Bram.t)
    (ram_inst : option string) (target_depth : Z) (stdin : list string) : outcome :=
  let s0 := init_state (sorted_keys ram_insts) in
  if bool_decide (length (inames s0) = 0%nat)
  then report_error_exit error "No RAM instances found" 1 s0
  else
    and_then (select error ram_insts ram_inst s0)
             (prompt_loop error ram_insts target_depth stdin).

(** [main] from line 113 on; [mem_data] are the lines of the mem file,
    [data2mem_ok] tells whether data2mem succeeds. *)
Definition main_body (error : string -> string) (ram_insts : gmap string Bram.t)
    (ram_inst : option string) (mem_data : list string)
    (stdin : list string) (data2mem_ok : bool) : outcome :=
  let target_depth := required_depth mem_data in
  and_then (assemble error ram_insts ram_inst target_depth stdin)
           (finish error target_depth data2mem_ok).

End Driver.

(** ** Instance discovery: [find_ram_instances]

    The four regular expressions of the script use literals, greedy
    repetitions of a character class and groups that do not nest.  [re_match]
    is a backtracking matcher for that fragment: a repetition first takes
    all it can and gives characters back one at a time. *)

Module Regex.

Inductive re : Type :=
| Lit (s : string)
| Rep (least : nat) (cls : ascii -> bool)
| Cat (r1 r2 : re)
| Grp (r : re).

Fixpoint lit (p s : string) : option string :=
  match p, s with
  | EmptyString, _ => Some s
  | String a p', String b s' => if Ascii.eqb a b then lit p' s' else None
  | String _ _, EmptyString => None
  end.

Fixpoint rep {R : Type} (cls : ascii -> bool) (least : nat) (s : string)
    (k : string -> option R) : option R :=
  let stop := match least with O => k s | S _ => None end in
  match s with
  | String c s' =>
      if cls c then
        match rep cls (Nat.pred least) s' k with
        | Some r => Some r
        | None => stop
        end
      else stop
  | EmptyString => stop
  end.

(** The first [String.length s - String.length rest] characters of [s]. *)
Definition consumed (s rest : string) : string :=
  String.substring 0 (String.length s - String.length rest) s.

Fixpoint run (r : re) (s : string) (groups : list string)
    (k : string -> list string -> option (list string)) : option (list string) :=
  match r with
  | Lit p => match lit p s with Some s' => k s' groups | None => None end
  | Rep least cls => rep cls least s (fun s' => k s' groups)
  | Cat r1 r2 => run r1 s groups (fun s' g' => run r2 s' g' k)
  | Grp r1 => run r1 s groups (fun s' g' => k s' (g' ++ [consumed s s']))
  end.

(** [r.match(s)]: the groups of a match at the start of [s]. *)
Definition re_match (r : re) (s : string) : option (list string) :=
  run r s [] (fun _ g => Some g).

(** [r.search(s)]: the groups of the leftmost match. *)
Fixpoint re_search (r : re) (s : string) : option (list string) :=
  match re_match r s with
  | Some g => Some g
  | None =>
      match s with
      | EmptyString => None
      | String _ s' => re_search r s'
      end
  end.

Definition dq : ascii := "034"%char.

(** [\d] *)
Definition digit : ascii -> bool := is_digit.

(** [.]: any character but a newline *)
Definition dot (c : ascii) : bool := negb (Ascii.eqb c "010"%char).

(** [\w] *)
Definition word (c : ascii) : bool :=
  let n := N_of_ascii c in
  (is_digit c || ((65 <=? n) && (n <=? 90)) || ((97 <=? n) && (n <=? 122))
   || (n =? 95))%N.

Definition not_dq (c : ascii) : bool := negb (Ascii.eqb c dq).

Definition blank (c : ascii) : bool := Ascii.eqb c " "%char.

Fixpoint seq (rs : list re) : re :=
  match rs with
  | [] => Lit EmptyString
  | [r] => r
  | r :: rs' => Cat r (seq rs')
  end.

End Regex.

Module Discovery.
Import Regex.

(** [inst_re]: the word inst, the quoted instance name (group 1, any
    characters but a double quote), the quoted primitive (group 2: RAMB,
    digits, anything), a comma, at least one character, then RAMB,
    digits, an underscore, the location (group 3, word characters),
    blanks and a comma. *)
Definition inst_re : re :=
  seq [ Lit ("inst " +:+ String dq EmptyString); Grp (Rep 1 not_dq);
        Lit (String dq (" " +:+ String dq EmptyString));
        Grp (seq [Lit "RAMB"; Rep 1 digit; Rep 0 dot]);
        Lit (String dq ","); Rep 1 dot; Lit "RAMB"; Rep 1 digit; Lit "_";
        Grp (Rep 1 word); Rep 0 blank; Lit "," ].

(** [PORTA_ATTR::(\d+)X(\d+)] *)
Definition cfg_s3_re : re :=
  seq [ Lit "PORTA_ATTR::"; Grp (Rep 1 digit); Lit "X"; Grp (Rep 1 digit) ].

(** [DATA_WIDTH_A::(\d+)] *)
Definition cfg_s6_re : re := seq [ Lit "DATA_WIDTH_A::"; Grp (Rep 1 digit) ].

(** [READ_WIDTH_A::(\d+)] *)
Definition cfg_v7_re : re := seq [ Lit "READ_WIDTH_A::"; Grp (Rep 1 digit) ].

(** [needle in s] *)
Fixpoint contains (needle s : string) : bool :=
  if String.prefix needle s then true
  else match s with
       | EmptyString => false
       | String _ s' => contains needle s'
       end.

(** [int(m.group(1))] *)
Definition int_group (g : string) : result Z :=
  match py_int g with
  | Some n => Ok n
  | None => Raise ValueError
  end.

Section Find.

(** [int(math.log(width, 2))] for [width >= 1], a floating-point
    computation that the model does not fix: the integer part of the
    rounded quotient of two rounded logarithms, never negative. *)
Variable int_log2 : Z -> Z.

(** [ram_insts[last_bram].depth = depth; ram_insts[last_bram].width = width] *)
Definition set_dims (ram_insts : gmap string Bram.t) (last_bram : option string)
    (d w : val) : result (gmap string Bram.t) :=
  match last_bram with
  | None => Raise KeyError
  | Some k =>
      b ← getitem ram_insts k;
      Ok (<[k := Bram.set_dims b d w]> ram_insts)
  end.

(** The Spartan-6 and 7-series rule: the depth is the capacity that the
    primitive's name tells, over the width without parity bits. *)
Definition resolve (big small : string) (cap_big cap_small : Z)
    (primitive : string) (g : string) : result (val * val) :=
  width ← int_group g;
  if width <=? 0 then Raise ValueError
  else
    let width_np := 2 ^ int_log2 width in
    let depth :=
      if contains big primitive then VInt (cap_big / width_np)
      else if contains small primitive then VInt (cap_small / width_np)
      else VNone in
    Ok (depth, VInt width).

Definition state : Type := gmap string Bram.t * option string.

(** One of the two later rules on a line. *)
Definition cfg_rule (r : re) (big small : string) (cap_big cap_small : Z)
    (primitive l : string) (st : state) : result state :=
  match re_search r l with
  | Some [g] =>
      '(d, w) ← resolve big small cap_big cap_small primitive g;
      m ← set_dims st.1 st.2 d w;
      Ok (m, None)
  | _ => Ok st
  end.

(** The body of [for l in lines]. *)
Definition scan_line (st : state) (l : string) : result state :=
  st1 ← match st.2 with
        | None => Ok st
        | Some last_bram =>
            b ← getitem st.1 last_bram;
            let primitive := Bram.primitive b in
            st_a ← match re_search cfg_s3_re l with
                   | Some [g1; g2] =>
                       m ← set_dims st.1 st.2 (VStr g1) (VStr g2);
                       Ok (m, None)
                   | _ => Ok st
                   end;
            st_b ← cfg_rule cfg_s6_re "16" "8" 16384 8192 primitive l st_a;
            cfg_rule cfg_v7_re "36" "18" 32768 16384 primitive l st_b
        end;
  match re_match inst_re l with
  | Some [g1; g2; g3] => Ok (<[g1 := Bram.init g1 g2 g3]> st1.1, Some g1)
  | _ => Ok st1
  end.

(** [find_ram_instances], on the lines of the XDL file *)
Definition find_ram_instances (lines : list string) : result (gmap string Bram.t) :=
  st ← foldlM scan_line (∅, None) lines; Ok st.1.

(** [main], from the XDL file's lines on *)
Definition main (error : string -> string) (xdl_lines : list string)
    (ram_inst : option string) (mem_data : list string)
    (stdin : list string) (data2mem_ok : bool) : Driver.outcome :=
  match find_ram_instances xdl_lines with
  | Ok ram_insts =>
      Driver.main_body error ram_insts ram_inst mem_data stdin data2mem_ok
  | Raise e => Driver.Abort e (Driver.init_state [])
  end.

End Find.

End Discovery.

(** * Properties *)

(** The sum of a list of integers. *)
Definition sumZ (l : list Z) : Z := foldr Z.add 0 l.

(** The blocks carry integer widths [ws], in order. *)
Definition int_widths (bs : list Bram.t) (ws : list Z) : Prop :=
  Bram.width <$> bs = VInt <$> ws.

(** [r.add_bram(b)] for each [b] of [bs], in order. *)
Definition add_brams (r : MemRow.t) (bs : list Bram.t) : result MemRow.t :=
  foldlM MemRow.add_bram r bs.

(** Where [add_bram] puts blocks of widths [ws] below bit [top]. *)
Fixpoint placed (top : Z) (bs : list Bram.t) (ws : list Z) : list Bram.t :=
  match bs, ws with
  | b :: bs', w :: ws' => Bram.set_lsb b (top - w) :: placed (top - w) bs' ws'
  | _, _ => []
  end.

(** A block with resolved dimensions, as discovery leaves it. *)
Definition blk (name : string) (d w : Z) : Bram.t :=
  Bram.mk name "RAMB16BWER" "X0Y0" (VInt d) (VInt w) 0.

(** The block's width is an integer. *)
Definition int_width (b : Bram.t) : Prop := exists w, Bram.width b = VInt w.

(** Every block of every row has an integer width. *)
Definition all_int_widths (L : MemLayout.t) : Prop :=
  Forall (fun r => Forall int_width (MemRow.brams r)) (MemLayout.rows L).

(** The state in which the prompt loop starts when there are several
    instances and no [-r] option: one empty row. *)
Definition start_state (ram_insts : gmap string Bram.t) : Driver.state :=
  Driver.set_lo (Driver.init_state (sorted_keys ram_insts))
    (MemLayout.add_row MemLayout.init (MemRow.init 0 0) true).

(** [prompts s0 pre s]: the loop entered in state [s0] reads the answers
    [pre], none of which ends the process, and then shows the prompt again,
    in state [s]. *)
Inductive prompts (error : string -> string) (ram_insts : gmap string Bram.t)
    (target_depth : Z) : Driver.state -> list string -> Driver.state -> Prop :=
| prompts_now s :
    Driver.loop_test target_depth s = Ok true ->
    Driver.before_prompt error ram_insts s = Driver.Continue s ->
    prompts error ram_insts target_depth s [] s
| prompts_later s0 x s1 pre s :
    Driver.loop_test target_depth s0 = Ok true ->
    Driver.before_prompt error ram_insts s0 = Driver.Continue s0 ->
    Driver.after_prompt error ram_insts target_depth x s0 = Driver.Continue s1 ->
    prompts error ram_insts target_depth s1 pre s ->
    prompts error ram_insts target_depth s0 (x :: pre) s.

(** The interactive run of [main]: several instances, no [-r] option; the
    user has typed [pre] and the prompt is shown in state [s]. *)
Definition at_prompt (error : string -> string) (ram_insts : gmap string Bram.t)
    (mem_data : list string) (pre : list string) (s : Driver.state) : Prop :=
  (1 < length (sorted_keys ram_insts))%nat /\
  prompts error ram_insts (Driver.required_depth mem_data) (start_state ram_insts) pre s.

(** Two 1024x9 blocks, and a mem file of 1024 words after its offset line. *)
Definition two_nines : gmap string Bram.t :=
  <["a" := blk "a" 1024 9]> (<["b" := blk "b" 1024 9]> ∅).

Definition mem_1024 : list string := replicate 1025 "00000".

(** A 1024x9 and a 1024x18 block. *)
Definition nine_and_eighteen : gmap string Bram.t :=
  <["a" := blk "a" 1024 9]> (<["b" := blk "b" 1024 18]> ∅).

(** Block [b] of a row is the mapping's block called [name], with its
    [lsb] assigned. *)
Definition block_of (ram_insts : gmap string Bram.t) (b : Bram.t) (name : string) : Prop :=
  exists b0, ram_insts !! name = Some b0 /\ b = Bram.set_lsb b0 (Bram.lsb b).

(** The rows hold, row by row and in order, the blocks that [spec] names. *)
Definition rows_of (ram_insts : gmap string Bram.t) (rs : list MemRow.t)
    (spec : list (list string)) : Prop :=
  Forall2 (fun r names => Forall2 (block_of ram_insts) (MemRow.brams r) names) rs spec.

(** Both dimensions of the block are integers. *)
Definition resolved (b : Bram.t) : Prop :=
  exists d w, Bram.depth b = VInt d /\ Bram.width b = VInt w.

(** The mapping has a block with integer dimensions under [name]. *)
Definition names_resolved (ram_insts : gmap string Bram.t) (name : string) : Prop :=
  exists b, ram_insts !! name = Some b /\ resolved b.

(** A single 1024x18 block, and a single 1024x9 block. *)
Definition one_block : gmap string Bram.t := {[ "a" := blk "a" 1024 18 ]}.

Definition one_narrow_block : gmap string Bram.t := {[ "a" := blk "a" 1024 9 ]}.

(** The state a stretch of [main] leaves, however it ends. *)
Definition state_of (o : Driver.outcome) : Driver.state :=
  match o with
  | Driver.Continue s => s
  | Driver.Abort _ s => s
  end.

(** [c in s] for a character [c]. *)
Fixpoint has_char (c : ascii) (s : string) : bool :=
  match s with
  | EmptyString => false
  | String a s' => Ascii.eqb a c || has_char c s'
  end.

(** The name holds neither of the separators of a selection spec. *)
Definition sep_free (s : string) : Prop :=
  has_char ","%char s = false /\ has_char ":"%char s = false.

(** The instance names of a layout, row by row. *)
Definition names (l : MemLayout.t) : list (list string) :=
  (fun r => Bram.instance <$> MemRow.brams r) <$> MemLayout.rows l.

(** What [find_ram_instances] ensures: a block is stored under its own
    instance name. *)
Definition keyed_by_instance (ram_insts : gmap string Bram.t) : Prop :=
  forall k b, ram_insts !! k = Some b -> Bram.instance b = k.

(** No instance name of the mapping holds a comma or a colon. *)
Definition names_sep_free (ram_insts : gmap string Bram.t) : Prop :=
  forall k, is_Some (ram_insts !! k) -> sep_free k.

(** Building the rows that the layout's names list, from nothing, gives the
    layout; its names and the names [rest] are distinct keys of the mapping. *)
Definition replayable (ram_insts : gmap string Bram.t) (l : MemLayout.t)
    (rest : list string) : Prop :=
  Driver.build_spec ram_insts MemLayout.init (names l) = Ok l /\
  NoDup (concat (names l) ++ rest) /\
  (forall n, n ∈ concat (names l) ++ rest -> is_Some (ram_insts !! n)).

(** Two 1024x18 blocks, one of them with a comma in its name. *)
Definition comma_names : gmap string Bram.t :=
  <["a,b" := blk "a,b" 1024 18]> (<["c" := blk "c" 1024 18]> ∅).

(** [s] between double quotes. *)
Definition quoted (s : string) : string :=
  String Regex.dq (s +:+ String Regex.dq EmptyString).

(** The line of an XDL file that opens a block RAM instance. *)
Definition xdl_inst (name primitive site : string) : string :=
  "inst " +:+ quoted name +:+ " " +:+ quoted primitive +:+ ",placed BRAM_X0Y2 " +:+
  site +:+ "  ," +:+ nl.

(** The line that follows it with the instance's attributes. *)
Definition xdl_cfg (attrs : string) : string :=
  "  cfg " +:+ String Regex.dq (" " +:+ attrs +:+ " ") +:+ nl.

(** A Spartan-3 netlist with one 1024x18 block RAM. *)
Definition xdl_spartan3 : list string :=
  [ xdl_inst "rom/ram_1024_x_18" "RAMB16_S18" "RAMB16_X0Y2";
    xdl_cfg "INIT_A::0x00000 PORTA_ATTR::1024X18 WRITE_MODE_A::WRITE_FIRST" ].

(** The same block RAM the way a Spartan-6 netlist describes it. *)
Definition xdl_spartan6 : list string :=
  [ xdl_inst "rom/ram_1024_x_18" "RAMB16BWER" "RAMB16_X0Y2";
    xdl_cfg "DATA_WIDTH_A::18 DATA_WIDTH_B::0 DOA_REG::0" ].

(** A Spartan-6 netlist with two 1024x18 block RAMs, one of them with a
    comma in its name. *)
Definition xdl_comma_names : list string :=
  [ xdl_inst "a,b" "RAMB16BWER" "RAMB16_X0Y0";
    xdl_cfg "DATA_WIDTH_A::18";
    xdl_inst "c" "RAMB16BWER" "RAMB16_X0Y0";
    xdl_cfg "DATA_WIDTH_A::18" ].

(** The rows follow one another from address [a] on: each starts where
    the one before it ended. *)
Fixpoint contiguous_from (a : Z) (rs : list MemRow.t) : Prop :=
  match rs with
  | [] => True
  | r :: rs' => MemRow.start r = a /\ contiguous_from (MemRow.end_ r + 1) rs'
  end.

(** The address after the last row, [a] when there is no row. *)
Definition next_start (a : Z) (rs : list MemRow.t) : Z :=
  match last rs with
  | Some l => MemRow.end_ l + 1
  | None => a
  end.

(** Where [MemRow(start, end, brams)] leaves blocks of widths [ws] before
    its shift: each block above the widths of the blocks after it, from bit
    [acc] on. *)
Fixpoint stacked (acc : Z) (bs : list Bram.t) (ws : list Z) : list Bram.t :=
  match bs, ws with
  | b :: bs', w :: ws' => Bram.set_lsb b (acc + sumZ ws') :: stacked acc bs' ws'
  | _, _ => []
  end.

(** Every block of the mapping has integer dimensions. *)
Definition all_resolved (ram_insts : gmap string Bram.t) : Prop :=
  forall k b, ram_insts !! k = Some b -> resolved b.

(** Every block of every row has integer dimensions. *)
Definition rows_resolved (l : MemLayout.t) : Prop :=
  Forall (fun r => Forall resolved (MemRow.brams r)) (MemLayout.rows l).

(** What the prompt loop keeps when the mapping is resolved: there is a
    row, the placed blocks have integer dimensions, and the names on
    offer are keys of the mapping. *)
Definition sound (ram_insts : gmap string Bram.t) (s : Driver.state) : Prop :=
  MemLayout.rows (Driver.lo s) <> [] /\
  rows_resolved (Driver.lo s) /\
  (forall n, n ∈ Driver.inames s -> is_Some (ram_insts !! n)).

(** The exception is [sys.exit(0)] or [sys.exit(1)]. *)
Definition exit_status (e : exn) : Prop := e = SystemExit 0 \/ e = SystemExit 1.

(** A layout ready for the final checks: it has a row, no row is empty and
    all blocks have integer dimensions. *)
Definition complete (l : MemLayout.t) : Prop :=
  MemLayout.rows l <> [] /\
  rows_resolved l /\
  Forall (fun r => MemRow.brams r <> []) (MemLayout.rows l).

(** Every character of [s] is in the class [cls]. *)
Fixpoint all_of (cls : ascii -> bool) (s : string) : bool :=
  match s with
  | EmptyString => true
  | String c s' => cls c && all_of cls s'
  end.

(** What [\d+] captures: decimal digits, at least one. *)
Definition number (s : string) : Prop :=
  s <> EmptyString /\ all_of is_digit s = true.

(** What [find_ram_instances] leaves in a block stored under [k]: its
    name is [k], its [lsb] is 0, and its dimensions are both unset, or
    both the text of a number (the Spartan-3 rule), or a positive integer
    width with an integer or unset depth (the two later rules). *)
Definition discovered (k : string) (b : Bram.t) : Prop :=
  Bram.instance b = k /\ Bram.lsb b = 0 /\
  ((Bram.depth b = VNone /\ Bram.width b = VNone) \/
   (exists d w, Bram.depth b = VStr d /\ Bram.width b = VStr w /\
      number d /\ number w) \/
   (exists w, Bram.width b = VInt w /\ 0 < w /\
      (Bram.depth b = VNone \/ exists d, Bram.depth b = VInt d))).

(** The pattern [r] is found in the line. *)
Definition found (r : Regex.re) (l : string) : Prop := is_Some (Regex.re_search r l).

(** The width pattern [r] is found in the line, with the number 0. *)
Definition zero_width (r : Regex.re) (l : string) : Prop :=
  exists g, Regex.re_search r l = Some [g] /\ py_int g = Some 0.

(** Two of the three attribute patterns are found in the line. *)
Definition two_attributes (l : string) : Prop :=
  (found Discovery.cfg_s3_re l /\ found Discovery.cfg_s6_re l) \/
  (found Discovery.cfg_s3_re l /\ found Discovery.cfg_v7_re l) \/
  (found Discovery.cfg_s6_re l /\ found Discovery.cfg_v7_re l).

(** What the scan of the lines keeps: the blocks are as [discovered]
    tells, and the instance whose attributes are awaited is in the
    mapping. *)
Definition scanned (st : Discovery.state) : Prop :=
  (forall k b, st.1 !! k = Some b -> discovered k b) /\
  (forall k, st.2 = Some k -> is_Some (st.1 !! k)).

(** A Spartan-6 block whose port A is not used, and a block with the
    attributes of two families on one line. *)
Definition xdl_unused_port : list string :=
  [ xdl_inst "a" "RAMB16BWER" "RAMB16_X0Y0";
    xdl_cfg "DATA_WIDTH_A::0 DATA_WIDTH_B::18" ].

Definition xdl_two_families : list string :=
  [ xdl_inst "a" "RAMB16BWER" "RAMB16_X0Y0";
    xdl_cfg "DATA_WIDTH_A::18 READ_WIDTH_A::18" ].

(** [v] is an [int]. *)
Definition is_int (v : val) : bool :=
  match v with
  | VInt _ => true
  | _ => false
  end.

(** What [add_bram] needs of the block called [n]: an integer width, and,
    for the first block of a row, an integer depth as well. *)
Definition fits (ram_insts : gmap string Bram.t) (first : bool) (n : string) : bool :=
  match ram_insts !! n with
  | Some b => is_int (Bram.width b) && (if first then is_int (Bram.depth b) else true)
  | None => false
  end.

Definition row_buildable (ram_insts : gmap string Bram.t) (ns : list string) : bool :=
  match ns with
  | [] => true
  | n :: ns' => fits ram_insts true n && forallb (fits ram_insts false) ns'
  end.

(** Every row of the spec can be built by [add_bram]. *)
Definition spec_buildable (ram_insts : gmap string Bram.t)
    (spec : list (list string)) : bool :=
  forallb (row_buildable ram_insts) spec.

(** A 1024x9 block and a block as the Spartan-3 rule leaves it, with the
    text of its dimensions. *)
Definition nine_and_text : gmap string Bram.t :=
  <["a" := blk "a" 1024 9]>
    (<["s" := Bram.mk "s" "RAMB16_S18" "X0Y2" (VStr "1024") (VStr "18") 0]> ∅).

(** ** The result monad *)

Lemma bind_Ok {A B} (f : A -> result B) (a : A) : (Ok a ≫= f) = f a.
Proof. reflexivity. Qed.

Lemma bind_Raise {A B} (f : A -> result B) e : (Raise e ≫= f) = Raise e.
Proof. reflexivity. Qed.

Lemma bind_Ok_inv {A B} (f : A -> result B) (r : result A) (b : B) :
  (r ≫= f) = Ok b <-> exists a, r = Ok a /\ f a = Ok b.
Proof.
  destruct r as [a|e]; simpl; split.
  - intros H. exists a. auto.
  - intros (a' & [= <-] & H). exact H.
  - discriminate.
  - intros (a' & H & _). discriminate.
Qed.

Lemma int_of_Ok v n : int_of v = Ok n <-> v = VInt n.
Proof. destruct v; simpl; split; congruence. Qed.

Ltac inv_bind H :=
  let a := fresh "a" in
  let Ha := fresh "Ha" in
  apply bind_Ok_inv in H; destruct H as (a & Ha & H).

(** ** Sums *)

Lemma sumZ_app l1 l2 : sumZ (l1 ++ l2) = sumZ l1 + sumZ l2.
Proof. induction l1 as [|x l1 IH]; simpl; [reflexivity | rewrite IH; lia]. Qed.

Lemma foldl_add_sumZ l acc : foldl Z.add acc l = acc + sumZ l.
Proof.
  revert acc. induction l as [|x l IH]; intros acc; simpl; [lia|].
  rewrite IH. lia.
Qed.

Lemma py_sum_from_ints ws acc : py_sum_from acc (VInt <$> ws) = Ok (acc + sumZ ws).
Proof.
  revert acc. induction ws as [|w ws IH]; intros acc; simpl.
  - f_equal. lia.
  - rewrite IH. f_equal. lia.
Qed.

Lemma py_sum_from_Ok vs acc n :
  py_sum_from acc vs = Ok n ->
  exists ws, vs = VInt <$> ws /\ n = acc + sumZ ws.
Proof.
  revert acc. induction vs as [|v vs IH]; intros acc H; simpl in H.
  - exists []. inversion H. simpl. split; [reflexivity | lia].
  - inv_bind H. apply int_of_Ok in Ha. subst v.
    destruct (IH _ H) as (ws & -> & ->).
    exists (a :: ws). simpl. split; [reflexivity | lia].
Qed.

Lemma row_width_iff (r : MemRow.t) (w : Z) :
  MemRow.width r = Ok w <->
  exists ws, int_widths (MemRow.brams r) ws /\ sumZ ws = w.
Proof.
  unfold MemRow.width, py_sum, int_widths. split.
  - intros H. apply py_sum_from_Ok in H. destruct H as (ws & H & ->).
    exists ws. split; [exact H | lia].
  - intros (ws & -> & <-). rewrite py_sum_from_ints. f_equal.
Qed.

Lemma row_valid_iff (r : MemRow.t) (w : Z) :
  MemRow.valid r w = Ok true <-> MemRow.width r = Ok w.
Proof.
  unfold MemRow.valid. split.
  - intros H. inv_bind H. injection H as E. apply Z.eqb_eq in E. congruence.
  - intros ->. simpl. rewrite Z.eqb_refl. reflexivity.
Qed.

Lemma all_valid_iff (rs : list MemRow.t) (w : Z) :
  MemLayout.all_valid rs w = Ok true <->
  Forall (fun r => MemRow.valid r w = Ok true) rs.
Proof.
  induction rs as [|r rs IH]; simpl.
  - split; [constructor | reflexivity].
  - split.
    + intros H. inv_bind H. destruct a; [|discriminate].
      constructor; [exact Ha | apply IH, H].
    + intros H. inversion H as [|? ? H1 H2]; subst.
      rewrite H1. simpl. apply IH, H2.
Qed.

Lemma layout_valid_rows (L : MemLayout.t) (depth width : Z) :
  MemLayout.valid L depth width = Ok true <->
  Forall (fun r => MemRow.valid r width = Ok true) (MemLayout.rows L) /\
  sumZ ((fun r => MemRow.end_ r - MemRow.start r + 1) <$> MemLayout.rows L) = depth.
Proof.
  unfold MemLayout.valid, MemLayout.sum_depth. rewrite foldl_add_sumZ. split.
  - intros H. inv_bind H. destruct a; [|discriminate].
    injection H as E. apply Z.eqb_eq in E.
    split; [apply all_valid_iff, Ha | unfold MemRow.depth in E; lia].
  - intros [H1 H2]. apply all_valid_iff in H1. rewrite H1. simpl.
    f_equal. apply Z.eqb_eq. unfold MemRow.depth. lia.
Qed.

(** C1.  [L.valid(depth, width)] returns [True] exactly when every row is
    valid for [width] and the row depths [end - start + 1] add up to
    [depth]; and a row is valid for [width] exactly when its blocks carry
    integer widths whose sum is [width] (equality, not [<=]). *)
Theorem layout_valid_iff (L : MemLayout.t) (depth width : Z) :
  (MemLayout.valid L depth width = Ok true <->
     Forall (fun r => MemRow.valid r width = Ok true) (MemLayout.rows L) /\
     sumZ ((fun r => MemRow.end_ r - MemRow.start r + 1) <$> MemLayout.rows L) = depth)
  /\ (forall r : MemRow.t,
        MemRow.valid r width = Ok true <->
        exists ws, int_widths (MemRow.brams r) ws /\ sumZ ws = width).
Proof.
  split.
  - apply layout_valid_rows.
  - intros r. rewrite row_valid_iff. apply row_width_iff.
Qed.

(** ** Rows built by [add_bram] *)

Lemma add_bram_first (r : MemRow.t) (b : Bram.t) (w d : Z) :
  MemRow.brams r = [] -> Bram.width b = VInt w -> Bram.depth b = VInt d ->
  MemRow.add_bram r b =
  Ok (MemRow.mk (MemRow.start r) (MemRow.start r + d - 1)
        [Bram.set_lsb b (MemRow.target_width r - w)] (MemRow.target_width r)).
Proof.
  intros Hb Hw Hd. unfold MemRow.add_bram. rewrite Hb, Hw, Hd. reflexivity.
Qed.

Lemma add_bram_next (r : MemRow.t) (pre : list Bram.t) (p b : Bram.t) (w : Z) :
  MemRow.brams r = pre ++ [p] -> Bram.width b = VInt w ->
  MemRow.add_bram r b =
  Ok (MemRow.mk (MemRow.start r) (MemRow.end_ r)
        (MemRow.brams r ++ [Bram.set_lsb b (Bram.lsb p - w)])
        (MemRow.target_width r)).
Proof.
  intros Hb Hw. unfold MemRow.add_bram. rewrite Hb, Hw.
  assert (Hlen : length ((pre ++ [p]) ++ [b]) = S (S (length pre)))
    by (rewrite !length_app; simpl; lia).
  rewrite Hlen. change (2 <=? S (S (length pre)))%nat with true.
  replace (S (S (length pre)) - 2)%nat with (length pre) by lia.
  rewrite <- (app_assoc pre [p] [b]). rewrite lookup_app_r by lia.
  rewrite Nat.sub_diag. reflexivity.
Qed.

Lemma placed_lookup (top : Z) (bs : list Bram.t) (ws : list Z) (i : nat) (b : Bram.t) :
  placed top bs ws !! i = Some b ->
  exists b0 w, bs !! i = Some b0 /\ ws !! i = Some w /\
    b = Bram.set_lsb b0 (top - sumZ (take (S i) ws)).
Proof.
  revert top ws i. induction bs as [|b0 bs IH]; intros top ws i H.
  - destruct ws; discriminate.
  - destruct ws as [|w ws]; [discriminate|]. destruct i as [|i]; simpl in H.
    + injection H as <-. exists b0, w. simpl. repeat split. f_equal. lia.
    + destruct (IH _ _ _ H) as (b0' & w' & H1 & H2 & ->).
      exists b0', w'. repeat split; [exact H1 | exact H2 |].
      f_equal. change (take (S (S i)) (w :: ws)) with (w :: take (S i) ws).
      simpl. lia.
Qed.

Lemma placed_length (top : Z) (bs : list Bram.t) (ws : list Z) :
  length bs = length ws -> length (placed top bs ws) = length bs.
Proof.
  revert top ws. induction bs as [|b bs IH]; intros top [|w ws] H; simpl in *;
    try discriminate; [reflexivity|]. f_equal. apply IH. lia.
Qed.

Lemma int_widths_length bs ws : int_widths bs ws -> length bs = length ws.
Proof.
  unfold int_widths. intros H.
  rewrite <- (length_fmap Bram.width bs), H. apply length_fmap.
Qed.

Lemma add_brams_next (r : MemRow.t) (pre : list Bram.t) (p : Bram.t)
    (bs : list Bram.t) (ws : list Z) :
  MemRow.brams r = pre ++ [p] -> int_widths bs ws ->
  add_brams r bs =
  Ok (MemRow.mk (MemRow.start r) (MemRow.end_ r)
        (MemRow.brams r ++ placed (Bram.lsb p) bs ws) (MemRow.target_width r)).
Proof.
  revert r pre p ws. induction bs as [|b bs IH]; intros r pre p ws Hb Hw.
  - destruct ws; [|discriminate]. simpl. rewrite app_nil_r. destruct r; reflexivity.
  - destruct ws as [|w ws]; [discriminate|]. injection Hw as Hw1 Hw2.
    unfold add_brams. simpl. rewrite (add_bram_next r pre p b w Hb Hw1). simpl.
    fold (add_brams
            (MemRow.mk (MemRow.start r) (MemRow.end_ r)
               (MemRow.brams r ++ [Bram.set_lsb b (Bram.lsb p - w)])
               (MemRow.target_width r)) bs).
    rewrite (IH _ (MemRow.brams r) (Bram.set_lsb b (Bram.lsb p - w)) ws);
      [|reflexivity|exact Hw2].
    simpl. rewrite <- app_assoc. reflexivity.
Qed.

Lemma add_brams_init (s e d1 : Z) (b1 : Bram.t) (bs : list Bram.t) (ws : list Z) :
  int_widths (b1 :: bs) ws -> Bram.depth b1 = VInt d1 ->
  add_brams (MemRow.init s e) (b1 :: bs) =
  Ok (MemRow.mk s (s + d1 - 1) (placed 18 (b1 :: bs) ws) 18).
Proof.
  intros Hw Hd. destruct ws as [|w ws]; [discriminate|].
  injection Hw as Hw1 Hw2. unfold add_brams. simpl.
  rewrite (add_bram_first (MemRow.init s e) b1 w d1); [|reflexivity|exact Hw1|exact Hd].
  simpl.
  fold (add_brams (MemRow.mk s (s + d1 - 1) [Bram.set_lsb b1 (18 - w)] 18) bs).
  rewrite (add_brams_next _ [] (Bram.set_lsb b1 (18 - w)) bs ws); [|reflexivity|exact Hw2].
  reflexivity.
Qed.

(** C2.  A row of target width 18 built by [add_bram] from blocks of widths
    [w1..wn]: the i-th block gets [lsb = 18 - (w1 + ... + wi)], its [msb]
    is [lsb + width - 1], the first block's top bit is 17, and the first
    addition sets the row's end to [start + depth - 1] of that block (later
    additions leave it). *)
Theorem add_bram_stacking (s e d1 : Z) (b1 : Bram.t) (bs : list Bram.t) (ws : list Z) :
  int_widths (b1 :: bs) ws ->
  Bram.depth b1 = VInt d1 ->
  exists r1 r,
    MemRow.add_bram (MemRow.init s e) b1 = Ok r1 /\
    MemRow.end_ r1 = MemRow.start (MemRow.init s e) + d1 - 1 /\
    add_brams (MemRow.init s e) (b1 :: bs) = Ok r /\
    MemRow.target_width r = 18 /\
    MemRow.end_ r = s + d1 - 1 /\
    length (MemRow.brams r) = length (b1 :: bs) /\
    (forall i b, MemRow.brams r !! i = Some b ->
       exists b0 w, (b1 :: bs) !! i = Some b0 /\ ws !! i = Some w /\
         b = Bram.set_lsb b0 (MemRow.target_width r - sumZ (take (S i) ws)) /\
         Bram.msb b = Ok (Bram.lsb b + w - 1)) /\
    (forall b, MemRow.brams r !! 0%nat = Some b ->
       Bram.msb b = Ok (MemRow.target_width r - 1)).
Proof.
  intros Hw Hd.
  assert (Hall : forall i b, placed 18 (b1 :: bs) ws !! i = Some b ->
       exists b0 w, (b1 :: bs) !! i = Some b0 /\ ws !! i = Some w /\
         b = Bram.set_lsb b0 (18 - sumZ (take (S i) ws)) /\
         Bram.msb b = Ok (Bram.lsb b + w - 1)).
  { intros i b Hi. destruct (placed_lookup _ _ _ _ _ Hi) as (b0 & w & H1 & H2 & ->).
    exists b0, w. repeat split; [exact H1 | exact H2 |].
    unfold Bram.msb. simpl.
    assert (Hb0 : Bram.width b0 = VInt w).
    { unfold int_widths in Hw.
      assert (H3 : (Bram.width <$> (b1 :: bs)) !! i = Some (Bram.width b0))
        by (rewrite list_lookup_fmap, H1; reflexivity).
      rewrite Hw, list_lookup_fmap, H2 in H3. simpl in H3. congruence. }
    rewrite Hb0. reflexivity. }
  destruct ws as [|w ws']; [discriminate|].
  assert (Hw1 : Bram.width b1 = VInt w) by (injection Hw; auto).
  eexists _, _. split; [apply (add_bram_first _ _ w d1); [reflexivity|exact Hw1|exact Hd]|].
  split; [reflexivity|].
  split; [apply add_brams_init; [exact Hw|exact Hd]|].
  simpl MemRow.target_width. simpl MemRow.end_. simpl MemRow.brams.
  split; [reflexivity|]. split; [reflexivity|].
  split; [apply (placed_length 18 (b1 :: bs) (w :: ws')), int_widths_length, Hw|].
  split; [exact Hall|].
  intros b Hb. destruct (Hall 0%nat b Hb) as (b0 & w0 & H1 & H2 & -> & Hm).
  simpl in H2. injection H2 as <-. rewrite Hm. simpl. f_equal. lia.
Qed.

Lemma add_bram_stacking_witness :
  exists r, add_brams (MemRow.init 0 0) [blk "a" 1024 9; blk "b" 1024 9] = Ok r /\
    Bram.lsb <$> MemRow.brams r = [9; 0] /\ MemRow.end_ r = 1023.
Proof.
  destruct (add_bram_stacking 0 0 1024 (blk "a" 1024 9) [blk "b" 1024 9] [9; 9]
              eq_refl eq_refl)
    as (r1 & r & _ & _ & Hr & _ & He & _ & _ & _).
  exists r. split; [exact Hr|]. split; [|exact He].
  vm_compute in Hr. injection Hr as <-. reflexivity.
Defined.

(** ** Text *)

Lemma append_assoc (a b c : string) : (a +:+ b) +:+ c = a +:+ (b +:+ c).
Proof.
  induction a as [|x a IH]; [reflexivity|].
  change (String x ((a +:+ b) +:+ c) = String x (a +:+ (b +:+ c))).
  f_equal. exact IH.
Qed.

Lemma hex_val_from_app (s1 s2 : string) (acc : Z) :
  hex_val_from acc (s1 +:+ s2) = hex_val_from (hex_val_from acc s1) s2.
Proof. revert acc. induction s1 as [|c s1 IH]; intros acc; simpl; [reflexivity | apply IH]. Qed.

Lemma hex_digit_val_digit (d : Z) : 0 <= d < 16 -> hex_digit_val (hex_digit d) = d.
Proof.
  intros Hd. unfold hex_digit_val, hex_digit.
  destruct (d <? 10) eqn:E; [apply Z.ltb_lt in E | apply Z.ltb_ge in E];
    rewrite N_ascii_embedding by lia; rewrite Z2N.id by lia.
  - replace (48 + d <? 58) with true by (symmetry; apply Z.ltb_lt; lia). lia.
  - replace (55 + d <? 58) with false by (symmetry; apply Z.ltb_ge; lia). lia.
Qed.

Lemma hex_digit_not_minus (d : Z) : 0 <= d < 16 -> hex_digit d <> "-"%char.
Proof.
  intros Hd E. apply (f_equal N_of_ascii) in E. unfold hex_digit in E.
  destruct (d <? 10) eqn:E1; [apply Z.ltb_lt in E1 | apply Z.ltb_ge in E1];
    rewrite N_ascii_embedding in E by lia; simpl in E; lia.
Qed.

Lemma hex_upper_from_val (fuel : nat) (n : Z) (rest : string) :
  0 <= n < 16 ^ (Z.of_nat fuel + 1) ->
  hex_val_from 0 (hex_upper_from fuel n rest) = hex_val_from n rest.
Proof.
  revert n rest. induction fuel as [|fuel IH]; intros n rest Hn.
  - simpl in *. rewrite Z.mod_small by lia. rewrite hex_digit_val_digit by lia.
    reflexivity.
  - cbn [hex_upper_from].
    assert (Hm : 0 <= n mod 16 < 16) by (apply Z.mod_pos_bound; lia).
    destruct (n / 16 =? 0) eqn:E.
    + apply Z.eqb_eq in E. simpl. rewrite hex_digit_val_digit by lia.
      f_equal. pose proof (Z.div_mod n 16). lia.
    + rewrite IH.
      * simpl. rewrite hex_digit_val_digit by lia.
        f_equal. pose proof (Z.div_mod n 16). lia.
      * split; [apply Z.div_pos; lia|].
        apply Z.div_lt_upper_bound; [lia|].
        replace (Z.of_nat (S fuel) + 1) with (Z.succ (Z.of_nat fuel + 1)) in Hn by lia.
        rewrite Z.pow_succ_r in Hn by lia. lia.
Qed.

Lemma hex_upper_val (n : Z) : 0 <= n -> hex_val_from 0 (hex_upper n) = n.
Proof.
  intros Hn. unfold hex_upper. rewrite hex_upper_from_val; [reflexivity|].
  split; [exact Hn|]. rewrite Z2Nat.id by apply Z.log2_nonneg.
  destruct (Z.eq_dec n 0) as [->|Hne]; [simpl; lia|].
  pose proof (Z.log2_spec n ltac:(lia)) as [_ H].
  eapply Z.lt_le_trans; [exact H|].
  replace (Z.succ (Z.log2 n)) with (Z.log2 n + 1) by lia.
  apply Z.pow_le_mono_l. lia.
Qed.

Lemma hex_upper_from_head (fuel : nat) (n : Z) (rest : string) :
  exists d s, hex_upper_from fuel n rest = String (hex_digit d) s /\ 0 <= d < 16.
Proof.
  revert n rest. induction fuel as [|fuel IH]; intros n rest.
  - simpl. eexists _, _. split; [reflexivity|]. apply Z.mod_pos_bound. lia.
  - cbn [hex_upper_from]. destruct (n / 16 =? 0).
    + eexists _, _. split; [reflexivity|]. apply Z.mod_pos_bound. lia.
    + apply IH.
Qed.

Lemma zeros_S (k : nat) :
  String.concat EmptyString (replicate (S k) "0") =
  String "0"%char (String.concat EmptyString (replicate k "0")).
Proof. destruct k; reflexivity. Qed.

Lemma zeros_val (k : nat) (acc : Z) :
  hex_val_from acc (String.concat EmptyString (replicate k "0")) = acc * 16 ^ Z.of_nat k.
Proof.
  revert acc. induction k as [|k IH]; intros acc.
  - simpl. lia.
  - rewrite zeros_S. cbn [hex_val_from]. rewrite IH.
    change (hex_digit_val "0") with 0.
    replace (Z.of_nat (S k)) with (Z.succ (Z.of_nat k)) by lia.
    rewrite Z.pow_succ_r by lia. lia.
Qed.

Lemma zero_pad_val (w : nat) (s : string) :
  hex_val_from 0 (zero_pad w s) = hex_val_from 0 s.
Proof.
  unfold zero_pad. rewrite hex_val_from_app, zeros_val. reflexivity.
Qed.

Lemma zero_pad_head (w : nat) (d : Z) (s : string) :
  0 <= d < 16 ->
  exists c s', zero_pad w (String (hex_digit d) s) = String c s' /\ c <> "-"%char.
Proof.
  intros Hd. unfold zero_pad.
  destruct (w - String.length (String (hex_digit d) s))%nat as [|k].
  - simpl. eexists _, _. split; [reflexivity|]. apply hex_digit_not_minus, Hd.
  - rewrite zeros_S. eexists _, _. split; [reflexivity|discriminate].
Qed.

Lemma hex_val_unsigned (c : ascii) (s : string) :
  c <> "-"%char -> hex_val (String c s) = hex_val_from 0 (String c s).
Proof.
  intros Hc. destruct c as [[] [] [] [] [] [] [] []]; try reflexivity.
  contradiction Hc. reflexivity.
Qed.

(** The text ['{:08X}'] prints denotes the number printed. *)
Lemma hex_val_fmt_08X (n : Z) : hex_val (fmt_08X n) = n.
Proof.
  unfold fmt_08X. destruct (n <? 0) eqn:E.
  - apply Z.ltb_lt in E.
    change (- hex_val_from 0 (zero_pad 7 (hex_upper (- n))) = n).
    rewrite zero_pad_val, hex_upper_val by lia. lia.
  - apply Z.ltb_ge in E.
    destruct (hex_upper_from_head (Z.to_nat (Z.log2 n)) n EmptyString) as (d & s & Hs & Hd).
    destruct (zero_pad_head 8 d s Hd) as (c & s' & Hz & Hc).
    pose proof (zero_pad_val 8 (hex_upper n)) as Hv.
    pose proof (hex_upper_val n E) as Hu.
    unfold hex_upper in *. rewrite Hs in *. rewrite Hz in *.
    rewrite hex_val_unsigned by exact Hc. congruence.
Qed.

(** ** The address map *)

Lemma mapM_result_ok {A B} (f : A -> result B) (l : list A) :
  Forall (fun x => exists y, f x = Ok y) l -> exists ys, mapM_result f l = Ok ys.
Proof.
  induction 1 as [|x l (y & Hy) _ (ys & Hys)]; simpl.
  - eauto.
  - rewrite Hy. simpl. rewrite Hys. simpl. eauto.
Qed.

Lemma bus_block_ok (r : MemRow.t) :
  Forall int_width (MemRow.brams r) -> exists s, MemRow.bus_block r = Ok s.
Proof.
  intros H. unfold MemRow.bus_block.
  destruct (mapM_result_ok MemRow.lane (MemRow.brams r)) as (ls & Hls).
  - eapply Forall_impl; [exact H|]. intros b (w & Hw).
    unfold MemRow.lane, Bram.msb. rewrite Hw. simpl. eauto.
  - rewrite Hls. simpl. eauto.
Qed.

(** C4.  The BMM text starts with the ADDRESS_SPACE header whose address
    range runs from 0 (eight hexadecimal zeros) to the hexadecimal numeral
    of [(last_row.end + 1) * len(first_row.brams) - 1]. *)
Theorem bmm_end_address (L : MemLayout.t) (r0 rl : MemRow.t) (b0 : Bram.t) :
  head (MemLayout.rows L) = Some r0 ->
  last (MemLayout.rows L) = Some rl ->
  head (MemRow.brams r0) = Some b0 ->
  Bram.depth b0 <> VNone ->
  all_int_widths L ->
  let hi := (MemRow.end_ rl + 1) * Z.of_nat (length (MemRow.brams r0)) - 1 in
  (exists bt rest,
     MemLayout.bmm L =
     Ok ("ADDRESS_SPACE pb_rom " +:+ bt +:+ " INDEX_ADDRESSING [0x" +:+
         fmt_08X 0 +:+ ":0x" +:+ fmt_08X hi +:+ "]" +:+ nl +:+ rest)) /\
  fmt_08X 0 = "00000000" /\
  hex_val (fmt_08X hi) = hi.
Proof.
  intros H0 Hl Hb Hd Hw hi. split; [|split; [reflexivity | apply hex_val_fmt_08X]].
  unfold MemLayout.bmm.
  destruct (MemLayout.rows L) as [|r0' rs] eqn:Er; [discriminate|].
  injection H0 as ->.
  destruct (MemRow.brams r0) as [|b0' bs] eqn:Eb; [discriminate|].
  injection Hb as ->.
  assert (Hw0 : int_width b0).
  { unfold all_int_widths in Hw. rewrite Er in Hw.
    apply Forall_cons in Hw as [Hw _]. rewrite Eb in Hw.
    apply Forall_cons in Hw as [Hw _]. exact Hw. }
  destruct Hw0 as (w & Hw0).
  assert (Hsize : exists size, py_mul (Bram.depth b0) (Bram.width b0) = Ok size).
  { rewrite Hw0. destruct (Bram.depth b0); [congruence | simpl; eauto ..]. }
  destruct Hsize as (size & ->). rewrite bind_Ok.
  destruct (mapM_result_ok MemRow.bus_block (r0 :: rs)) as (blocks & Hblocks).
  { unfold all_int_widths in Hw. rewrite Er in Hw.
    eapply Forall_impl; [exact Hw|]. intros r Hr. apply bus_block_ok, Hr. }
  rewrite Hblocks, bind_Ok. destruct (last (r0 :: rs)) as [rl'|] eqn:El; [|discriminate].
  injection Hl as ->.
  exists (MemLayout.btype size), (join nl blocks +:+ nl +:+ "END_ADDRESS_SPACE;").
  f_equal. unfold MemLayout.header, MemLayout.end_addr. rewrite Eb.
  rewrite !append_assoc. reflexivity.
Qed.

Lemma bmm_end_address_witness :
  exists bt rest,
    MemLayout.bmm (MemLayout.mk [MemRow.mk 0 1023 [blk "a" 1024 9; blk "b" 1024 9] 18]) =
    Ok ("ADDRESS_SPACE pb_rom " +:+ bt +:+
        " INDEX_ADDRESSING [0x00000000:0x000007FF]" +:+ nl +:+ rest).
Proof.
  destruct (bmm_end_address
              (MemLayout.mk [MemRow.mk 0 1023 [blk "a" 1024 9; blk "b" 1024 9] 18])
              (MemRow.mk 0 1023 [blk "a" 1024 9; blk "b" 1024 9] 18)
              (MemRow.mk 0 1023 [blk "a" 1024 9; blk "b" 1024 9] 18)
              (blk "a" 1024 9) eq_refl eq_refl eq_refl)
    as ((bt & rest & H) & _ & _).
  - discriminate.
  - repeat constructor; eexists; reflexivity.
  - exists bt, rest. exact H.
Defined.

(** ** The prompt loop *)

Import Driver.

Section Loop.
Variable error : string -> string.
Variable ram_insts : gmap string Bram.t.
Variable target_depth : Z.

Lemma interact_cons (x : string) (rest : list string) (s : state) :
  loop_test target_depth s = Ok true ->
  before_prompt error ram_insts s = Continue s ->
  interact error ram_insts target_depth (x :: rest) s =
  and_then (after_prompt error ram_insts target_depth x s)
           (interact error ram_insts target_depth rest).
Proof. intros Ht Hb. simpl. rewrite Ht. simpl. rewrite Hb. reflexivity. Qed.

Lemma interact_at_prompt (s0 s : state) (pre : list string) (x : string)
    (rest : list string) :
  prompts error ram_insts target_depth s0 pre s ->
  interact error ram_insts target_depth (pre ++ x :: rest) s0 =
  and_then (after_prompt error ram_insts target_depth x s)
           (interact error ram_insts target_depth rest).
Proof.
  induction 1 as [s Ht Hb | s0 y s1 pre s Ht Hb Ha _ IH].
  - apply interact_cons; assumption.
  - change ((y :: pre) ++ x :: rest) with (y :: (pre ++ x :: rest)).
    rewrite interact_cons by assumption. rewrite Ha. exact IH.
Qed.

Lemma after_prompt_quit (sel : string) (s : state) :
  sel = "q" \/ sel = "Q" ->
  after_prompt error ram_insts target_depth sel s = Abort (SystemExit 0) s.
Proof. intros [-> | ->]; reflexivity. Qed.

Lemma after_prompt_bmm_file (x : string) (s s1 : state) :
  after_prompt error ram_insts target_depth x s = Continue s1 ->
  bmm_file s1 = bmm_file s.
Proof.
  unfold after_prompt, report_error_exit, try. intros H.
  repeat (case_match; try discriminate).
  all: injection H as <-; reflexivity.
Qed.

Lemma prompts_bmm_file (s0 s : state) (pre : list string) :
  prompts error ram_insts target_depth s0 pre s -> bmm_file s = bmm_file s0.
Proof.
  induction 1 as [| s0 y s1 pre s _ _ Ha _ IH]; [reflexivity|].
  rewrite IH. eapply after_prompt_bmm_file, Ha.
Qed.

Lemma after_prompt_invalid (sel : string) (s : state) :
  lower sel <> "q" ->
  (forall n, py_int sel = Some n -> ~ (1 <= n <= Z.of_nat (length (inames s)))) ->
  after_prompt error ram_insts target_depth sel s =
  Abort (SystemExit 1) (report_error error "Invalid selection" s).
Proof.
  intros Hq Hn. unfold after_prompt.
  rewrite bool_decide_eq_false_2 by exact Hq.
  destruct (py_int sel) as [n|] eqn:E.
  - specialize (Hn n eq_refl).
    destruct ((n - 1 <? 0) || (n - 1 >=? Z.of_nat (length (inames s)))) eqn:E1;
      [reflexivity|].
    apply orb_false_elim in E1 as [E1 E2].
    apply Z.ltb_ge in E1. rewrite Z.geb_leb in E2. apply Z.leb_gt in E2. lia.
  - reflexivity.
Qed.

Lemma after_prompt_too_wide (sel name : string) (n w : Z) (s : state)
    (l1 : MemLayout.t) (r : MemRow.t) :
  lower sel <> "q" ->
  py_int sel = Some n ->
  1 <= n <= Z.of_nat (length (inames s)) ->
  inames s !! Z.to_nat (n - 1) = Some name ->
  add_named ram_insts (lo s) name = Ok l1 ->
  last_row l1 = Ok r ->
  MemRow.width r = Ok w ->
  target_width < w ->
  after_prompt error ram_insts target_depth sel s =
  Abort (SystemExit 1)
    (report_error error ("Row is too wide (" +:+ str_of_Z w +:+ " bits)") (set_lo s l1)).
Proof.
  intros Hq Hn Hr Hname Hadd Hlast Hw Hgt. unfold after_prompt.
  rewrite bool_decide_eq_false_2 by exact Hq. rewrite Hn.
  replace ((n - 1 <? 0) || (n - 1 >=? Z.of_nat (length (inames s)))) with false.
  2:{ symmetry. apply orb_false_intro; [apply Z.ltb_ge; lia|].
      rewrite Z.geb_leb. apply Z.leb_gt. lia. }
  rewrite Hname, Hadd. simpl. rewrite Hlast. simpl. rewrite Hw. simpl.
  replace (w >? target_width) with true; [reflexivity|].
  symmetry. rewrite Z.gtb_ltb. apply Z.ltb_lt. exact Hgt.
Qed.

End Loop.

Lemma assemble_interactive error ram_insts target_depth stdin :
  (1 < length (sorted_keys ram_insts))%nat ->
  assemble error ram_insts None target_depth stdin =
  interact error ram_insts target_depth stdin (start_state ram_insts).
Proof.
  intros Hlen. unfold assemble, select. cbn [inames init_state].
  rewrite bool_decide_eq_false_2 by lia.
  rewrite bool_decide_eq_false_2 by lia.
  reflexivity.
Qed.

Lemma main_at_prompt error ram_insts mem_data pre s x rest ok :
  at_prompt error ram_insts mem_data pre s ->
  main_body error ram_insts None mem_data (pre ++ x :: rest) ok =
  and_then
    (and_then (after_prompt error ram_insts (required_depth mem_data) x s)
              (interact error ram_insts (required_depth mem_data) rest))
    (finish error (required_depth mem_data) ok).
Proof.
  intros [Hlen Hp]. unfold main_body.
  rewrite assemble_interactive by exact Hlen.
  rewrite (interact_at_prompt _ _ _ _ _ _ _ _ Hp). reflexivity.
Qed.

Lemma start_state_bmm_file ram_insts : bmm_file (start_state ram_insts) = None.
Proof. reflexivity. Qed.

(** C9.  In an interactive run, whatever was selected before, the answer
    [q] or [Q] to the prompt ends the process with status 0, and no BMM
    file has been written. *)
Theorem quit_exits_clean error ram_insts mem_data pre s sel rest ok :
  at_prompt error ram_insts mem_data pre s ->
  sel = "q" \/ sel = "Q" ->
  main_body error ram_insts None mem_data (pre ++ sel :: rest) ok =
    Abort (SystemExit 0) s /\
  bmm_file s = None.
Proof.
  intros Hp Hq. split.
  - rewrite (main_at_prompt _ _ _ _ _ _ _ _ Hp).
    rewrite after_prompt_quit by exact Hq. reflexivity.
  - destruct Hp as [_ Hp]. rewrite (prompts_bmm_file _ _ _ _ _ _ Hp). reflexivity.
Qed.

(** C10.  An answer that is neither [q] nor [Q] and that [int] does not
    read as a number from 1 to the number of remaining instances ends the
    process with status 1 after the diagnostic "Invalid selection";
    whatever else the user would type is never read. *)
Theorem invalid_selection_exits error ram_insts mem_data pre s sel rest ok :
  at_prompt error ram_insts mem_data pre s ->
  lower sel <> "q" ->
  (forall n, py_int sel = Some n -> ~ (1 <= n <= Z.of_nat (length (inames s)))) ->
  main_body error ram_insts None mem_data (pre ++ sel :: rest) ok =
    Abort (SystemExit 1) (eprint s (error "ERROR:" +:+ " Invalid selection")).
Proof.
  intros Hp Hq Hn.
  rewrite (main_at_prompt _ _ _ _ _ _ _ _ Hp).
  rewrite after_prompt_invalid by assumption. reflexivity.
Qed.

Lemma at_prompt_two_nines_start :
  at_prompt id two_nines mem_1024 [] (start_state two_nines).
Proof.
  split; [vm_compute; lia|].
  apply prompts_now; vm_compute; reflexivity.
Defined.

Lemma at_prompt_two_nines_one :
  exists s, at_prompt id two_nines mem_1024 ["1"] s /\ inames s = ["b"].
Proof.
  eexists. split.
  - split; [vm_compute; lia|].
    eapply prompts_later;
      [vm_compute; reflexivity | vm_compute; reflexivity | vm_compute; reflexivity |].
    apply prompts_now; vm_compute; reflexivity.
  - reflexivity.
Defined.

Lemma quit_exits_clean_witness :
  exists s,
    main_body id two_nines None mem_1024 (["1"] ++ "Q" :: ["1"]) true =
      Abort (SystemExit 0) s /\
    bmm_file s = None.
Proof.
  destruct at_prompt_two_nines_one as (s & Hs & _).
  exists s. apply quit_exits_clean; [exact Hs | right; reflexivity].
Defined.

Lemma invalid_selection_exits_witness :
  main_body id two_nines None mem_1024 ([] ++ "3" :: ["1"; "1"]) true =
  Abort (SystemExit 1)
    (eprint (start_state two_nines) (id "ERROR:" +:+ " Invalid selection")).
Proof.
  apply invalid_selection_exits.
  - exact at_prompt_two_nines_start.
  - vm_compute. discriminate.
  - intros n Hn. vm_compute in Hn. injection Hn as <-. vm_compute. intros [_ H].
    apply H. reflexivity.
Defined.

(** C7.  In an interactive run, when the row that has just received the
    chosen block is wider than 18 bits, the process ends with status 1
    after the diagnostic "Row is too wide"; and [add_bram] itself accepts
    any block with integer dimensions, whatever the width of the row. *)
Theorem row_too_wide_exits error ram_insts mem_data pre s sel rest ok
    (n w : Z) (name : string) (l1 : MemLayout.t) (r : MemRow.t) :
  at_prompt error ram_insts mem_data pre s ->
  lower sel <> "q" ->
  py_int sel = Some n ->
  1 <= n <= Z.of_nat (length (inames s)) ->
  inames s !! Z.to_nat (n - 1) = Some name ->
  add_named ram_insts (lo s) name = Ok l1 ->
  last_row l1 = Ok r ->
  MemRow.width r = Ok w ->
  target_width < w ->
  main_body error ram_insts None mem_data (pre ++ sel :: rest) ok =
    Abort (SystemExit 1)
      (eprint (set_lo s l1)
         (error "ERROR:" +:+ " Row is too wide (" +:+ str_of_Z w +:+ " bits)")) /\
  (forall (r0 : MemRow.t) (b : Bram.t) (wb db : Z),
     Bram.width b = VInt wb -> Bram.depth b = VInt db ->
     exists r' l,
       MemRow.add_bram r0 b = Ok r' /\
       MemRow.brams r' = MemRow.brams r0 ++ [Bram.set_lsb b l]).
Proof.
  intros Hp Hq Hn Hr Hname Hadd Hlast Hw Hgt. split.
  - rewrite (main_at_prompt _ _ _ _ _ _ _ _ Hp).
    rewrite (after_prompt_too_wide _ _ _ sel name n w s l1 r) by assumption.
    reflexivity.
  - intros r0 b wb db Hwb Hdb.
    destruct (decide (MemRow.brams r0 = [])) as [Eb|Eb].
    + eexists _, _. rewrite (add_bram_first r0 b wb db Eb Hwb Hdb).
      split; [reflexivity|]. simpl. rewrite Eb. reflexivity.
    + destruct (exists_last Eb) as (pre0 & p & Eb').
      eexists _, _. rewrite (add_bram_next r0 pre0 p b wb Eb' Hwb).
      split; reflexivity.
Qed.

Lemma row_too_wide_exits_witness :
  exists s,
    main_body id nine_and_eighteen None mem_1024 (["1"] ++ "1" :: []) true =
    Abort (SystemExit 1) s /\
    stderr s = ["ERROR: Row is too wide (27 bits)"].
Proof.
  eexists. split.
  - eapply (row_too_wide_exits id nine_and_eighteen mem_1024 ["1"] _ "1" [] true 1 27 "b").
    + split; [vm_compute; lia|].
      eapply prompts_later;
        [vm_compute; reflexivity | vm_compute; reflexivity | vm_compute; reflexivity |].
      apply prompts_now; vm_compute; reflexivity.
    + vm_compute. discriminate.
    + reflexivity.
    + vm_compute. split; discriminate.
    + reflexivity.
    + vm_compute. reflexivity.
    + vm_compute. reflexivity.
    + vm_compute. reflexivity.
    + reflexivity.
  - reflexivity.
Defined.

(** ** Keys, duplicates *)

Lemma elem_of_sorted_keys {A : Type} (m : gmap string A) (k : string) :
  k ∈ sorted_keys m <-> is_Some (m !! k).
Proof.
  unfold sorted_keys. rewrite merge_sort_Permutation, list_elem_of_fmap. split.
  - intros ([k' a] & -> & H). apply elem_of_map_to_list in H. exists a. exact H.
  - intros [a H]. exists (k, a). split; [reflexivity|]. apply elem_of_map_to_list, H.
Qed.

Lemma NoDup_sorted_keys {A : Type} (m : gmap string A) : NoDup (sorted_keys m).
Proof.
  unfold sorted_keys. rewrite merge_sort_Permutation. apply NoDup_fst_map_to_list.
Qed.

Lemma remove_dups_length_le (l : list string) :
  (length (remove_dups l) <= length l)%nat.
Proof.
  induction l as [|x l IH]; simpl; [lia|].
  destruct (decide_rel elem_of x l); simpl; lia.
Qed.

Lemma has_duplicates_false (l : list string) :
  has_duplicates l = false <-> NoDup l.
Proof.
  unfold has_duplicates. rewrite bool_decide_eq_false. split.
  - induction l as [|x l IH]; intros H; [constructor|].
    simpl in H. pose proof (remove_dups_length_le l).
    destruct (decide_rel elem_of x l) as [Hx|Hx]; simpl in H; [lia|].
    constructor; [exact Hx | apply IH; lia].
  - induction 1 as [|x l Hx _ IH]; simpl; [lia|].
    destruct (decide_rel elem_of x l); [contradiction | simpl; lia].
Qed.

Lemma has_duplicates_true (l : list string) :
  has_duplicates l = true <-> ~ NoDup l.
Proof.
  rewrite <- has_duplicates_false. destruct (has_duplicates l); split; congruence.
Qed.

(** ** Building rows from names *)

Section Build.
Variable error : string -> string.
Variable ram_insts : gmap string Bram.t.

Lemma add_bram_shape (r r' : MemRow.t) (b : Bram.t) :
  MemRow.add_bram r b = Ok r' ->
  exists l, MemRow.brams r' = MemRow.brams r ++ [Bram.set_lsb b l] /\
    MemRow.start r' = MemRow.start r.
Proof.
  unfold MemRow.add_bram. intros H.
  destruct (2 <=? length (MemRow.brams r ++ [b]))%nat.
  - destruct ((MemRow.brams r ++ [b]) !! _) as [p|]; [|discriminate].
    inv_bind H. injection H as <-. eexists. split; reflexivity.
  - inv_bind H. inv_bind H. injection H as <-. eexists. split; reflexivity.
Qed.

Lemma add_bram_resolved (r : MemRow.t) (b : Bram.t) :
  resolved b -> exists r', MemRow.add_bram r b = Ok r'.
Proof.
  intros (d & w & Hd & Hw).
  destruct (decide (MemRow.brams r = [])) as [Eb|Eb].
  - eexists. apply (add_bram_first r b w d Eb Hw Hd).
  - destruct (exists_last Eb) as (pre & p & Eb').
    eexists. apply (add_bram_next r pre p b w Eb' Hw).
Qed.

Lemma add_bram_last_eq (l : MemLayout.t) (pre : list MemRow.t) (r : MemRow.t)
    (b : Bram.t) :
  MemLayout.rows l = pre ++ [r] ->
  add_bram_last l b =
  (r' ← MemRow.add_bram r b; Ok (MemLayout.mk (pre ++ [r']))).
Proof.
  intros Hl. unfold add_bram_last, add_bram_at. rewrite Hl.
  destruct (pre ++ [r]) as [|x xs] eqn:E; [destruct pre; discriminate|].
  rewrite <- E. rewrite length_app. simpl.
  replace (length pre + 1 - 1)%nat with (length pre) by lia.
  rewrite lookup_app_r by lia. rewrite Nat.sub_diag. simpl.
  destruct (MemRow.add_bram r b) as [r'|e]; [|reflexivity]. simpl.
  rewrite insert_app_r_alt by lia. rewrite Nat.sub_diag. reflexivity.
Qed.

Lemma add_named_eq (l : MemLayout.t) (pre : list MemRow.t) (r : MemRow.t)
    (name : string) :
  MemLayout.rows l = pre ++ [r] ->
  add_named ram_insts l name =
  (b ← getitem ram_insts name; r' ← MemRow.add_bram r b;
   Ok (MemLayout.mk (pre ++ [r']))).
Proof.
  intros Hl. unfold add_named.
  destruct (MemLayout.rows l) as [|x xs] eqn:E; [destruct pre; discriminate|].
  destruct (getitem ram_insts name) as [b|e]; [|reflexivity]. simpl.
  apply add_bram_last_eq. rewrite E. exact Hl.
Qed.

Lemma add_named_inv (l l' : MemLayout.t) (pre : list MemRow.t) (r : MemRow.t)
    (name : string) :
  MemLayout.rows l = pre ++ [r] ->
  add_named ram_insts l name = Ok l' ->
  exists b0 lsb0 r',
    ram_insts !! name = Some b0 /\
    MemRow.add_bram r b0 = Ok r' /\
    MemRow.brams r' = MemRow.brams r ++ [Bram.set_lsb b0 lsb0] /\
    l' = MemLayout.mk (pre ++ [r']).
Proof.
  intros Hl H. rewrite (add_named_eq l pre r name Hl) in H.
  inv_bind H. inv_bind H. injection H as <-.
  unfold getitem in Ha. destruct (ram_insts !! name) as [b0|] eqn:E; [|discriminate].
  injection Ha as ->.
  destruct (add_bram_shape _ _ _ Ha0) as (lsb0 & Hb & _).
  exists a, lsb0, a0. repeat split; assumption.
Qed.

Lemma foldlM_add_named_inv (names : list string) (l l' : MemLayout.t)
    (pre : list MemRow.t) (r : MemRow.t) :
  MemLayout.rows l = pre ++ [r] ->
  foldlM (add_named ram_insts) l names = Ok l' ->
  exists r' bs,
    MemLayout.rows l' = pre ++ [r'] /\
    MemRow.brams r' = MemRow.brams r ++ bs /\
    Forall2 (block_of ram_insts) bs names.
Proof.
  revert l r. induction names as [|n names IH]; intros l r Hl H; simpl in H.
  - injection H as <-. exists r, []. rewrite app_nil_r. repeat split; [exact Hl|constructor].
  - inv_bind H.
    destruct (add_named_inv _ _ _ _ _ Hl Ha) as (b0 & lsb0 & r1 & Hb0 & _ & Hbr & ->).
    destruct (IH (MemLayout.mk (pre ++ [r1])) r1 eq_refl H) as (r' & bs & Hr' & Hbs & Hall).
    exists r', (Bram.set_lsb b0 lsb0 :: bs). split; [exact Hr'|].
    split; [rewrite Hbs, Hbr, <- app_assoc; reflexivity|].
    constructor; [|exact Hall]. exists b0. split; [exact Hb0|]. reflexivity.
Qed.

Lemma add_row_rows (l : MemLayout.t) :
  exists r0, MemLayout.rows (MemLayout.add_row l (MemRow.init 0 0) true) =
    MemLayout.rows l ++ [r0] /\ MemRow.brams r0 = [].
Proof.
  unfold MemLayout.add_row. destruct (last (MemLayout.rows l));
    eexists; split; reflexivity.
Qed.

Lemma build_row_inv (l l' : MemLayout.t) (names : list string) :
  build_row ram_insts l names = Ok l' ->
  exists r', MemLayout.rows l' = MemLayout.rows l ++ [r'] /\
    Forall2 (block_of ram_insts) (MemRow.brams r') names.
Proof.
  unfold build_row. intros H.
  destruct (add_row_rows l) as (r0 & Hr0 & Hb0).
  destruct (foldlM_add_named_inv _ _ _ _ _ Hr0 H) as (r' & bs & Hr' & Hbs & Hall).
  exists r'. split; [exact Hr'|]. rewrite Hbs, Hb0. exact Hall.
Qed.

Lemma build_spec_inv (spec : list (list string)) (l l' : MemLayout.t) :
  build_spec ram_insts l spec = Ok l' ->
  exists rs, MemLayout.rows l' = MemLayout.rows l ++ rs /\ rows_of ram_insts rs spec.
Proof.
  revert l. induction spec as [|names spec IH]; intros l H; simpl in H.
  - injection H as <-. exists []. rewrite app_nil_r. split; [reflexivity|constructor].
  - change (build_spec ram_insts l (names :: spec))
      with (l1 ← build_row ram_insts l names; build_spec ram_insts l1 spec) in H.
    inv_bind H.
    destruct (build_row_inv _ _ _ Ha) as (r' & Hr' & Hall).
    destruct (IH _ H) as (rs & Hrs & Hspec).
    exists (r' :: rs). split.
    + rewrite Hrs, Hr', <- app_assoc. reflexivity.
    + constructor; assumption.
Qed.

Lemma foldlM_add_named_ok (names : list string) (l : MemLayout.t)
    (pre : list MemRow.t) (r : MemRow.t) :
  MemLayout.rows l = pre ++ [r] ->
  Forall (names_resolved ram_insts) names ->
  exists l', foldlM (add_named ram_insts) l names = Ok l'.
Proof.
  revert l r. induction names as [|n names IH]; intros l r Hl Hn; simpl.
  - eauto.
  - apply Forall_cons in Hn as [(b & Hb & Hres) Hn].
    destruct (add_bram_resolved r b Hres) as (r' & Hr').
    rewrite (add_named_eq l pre r n Hl). unfold getitem. rewrite Hb. simpl.
    rewrite Hr'. simpl. apply (IH (MemLayout.mk (pre ++ [r'])) r'); [reflexivity | exact Hn].
Qed.

Lemma build_spec_cons (names : list string) (spec : list (list string))
    (l : MemLayout.t) :
  build_spec ram_insts l (names :: spec) =
  (l1 ← build_row ram_insts l names; build_spec ram_insts l1 spec).
Proof. reflexivity. Qed.

Lemma build_row_ok (names : list string) (l : MemLayout.t) :
  Forall (names_resolved ram_insts) names ->
  exists l', build_row ram_insts l names = Ok l'.
Proof.
  intros Hn. destruct (add_row_rows l) as (r0 & Hr0 & _).
  apply (foldlM_add_named_ok names _ _ _ Hr0 Hn).
Qed.

Lemma build_spec_ok (spec : list (list string)) (l : MemLayout.t) :
  Forall (Forall (names_resolved ram_insts)) spec ->
  exists l', build_spec ram_insts l spec = Ok l'.
Proof.
  revert l. induction spec as [|names spec IH]; intros l Hs.
  - eexists. reflexivity.
  - apply Forall_cons in Hs as [Hn Hs]. rewrite build_spec_cons.
    destruct (build_row_ok names l Hn) as (l1 & ->). rewrite bind_Ok.
    apply IH, Hs.
Qed.

(** ** The checks on a selection spec *)

Lemma show_lines_exits (ns : list string) (s : state) :
  (forall n, n ∈ ns -> is_Some (ram_insts !! n)) ->
  exists s', show_lines ram_insts ns s = Abort (SystemExit 1) s' /\
    lo s' = lo s /\ bmm_file s' = bmm_file s.
Proof.
  revert s. induction ns as [|n ns IH]; intros s Hn; simpl.
  - eauto.
  - destruct (Hn n) as [b Hb]; [left|].
    unfold instance_line, getitem. rewrite Hb. simpl.
    destruct (IH (eprint s ("  " +:+ n +:+ "  [" +:+ Bram.primitive b +:+ " " +:+
                            Bram.dimensions b +:+ "]"))) as (s' & Hs' & Hlo & Hbmm).
    + intros m Hm. apply Hn. right. exact Hm.
    + exists s'. split; [exact Hs'|]. split; assumption.
Qed.

Lemma show_instances_exits (s : state) :
  (forall n, n ∈ inames s -> is_Some (ram_insts !! n)) ->
  exists s', show_instances ram_insts s = Abort (SystemExit 1) s' /\
    lo s' = lo s /\ bmm_file s' = bmm_file s.
Proof.
  intros Hn. unfold show_instances.
  apply (show_lines_exits (inames s) (eprint s " Available RAM instances:") Hn).
Qed.

Lemma check_names_ok (l : list string) (s : state) :
  (forall i, i ∈ l -> i ∈ inames s) ->
  check_names error ram_insts l s = Continue s.
Proof.
  induction l as [|i l IH]; intros H; simpl; [reflexivity|].
  rewrite bool_decide_eq_true_2 by (apply H; left).
  apply IH. intros j Hj. apply H. right. exact Hj.
Qed.

Lemma check_names_fail (l : list string) (s : state) :
  (exists i, i ∈ l /\ i ∉ inames s) ->
  (forall n, n ∈ inames s -> is_Some (ram_insts !! n)) ->
  exists s', check_names error ram_insts l s = Abort (SystemExit 1) s' /\
    lo s' = lo s /\ bmm_file s' = bmm_file s.
Proof.
  intros (i & Hi & Hni) Hn. induction l as [|j l IH]; [inversion Hi|]. simpl.
  destruct (decide (j ∈ inames s)) as [Hj|Hj].
  - rewrite bool_decide_eq_true_2 by exact Hj. apply IH.
    apply elem_of_cons in Hi as [->|Hi]; [contradiction|exact Hi].
  - rewrite bool_decide_eq_false_2 by exact Hj.
    apply (show_instances_exits (report_error error _ s)). exact Hn.
Qed.

End Build.

(** ** The selection spec *)

Lemma elem_of_concat {A : Type} (x : A) (ls : list (list A)) :
  x ∈ concat ls <-> exists l, x ∈ l /\ l ∈ ls.
Proof.
  induction ls as [|l ls IH]; simpl.
  - split; [intros H; inversion H | intros (l & _ & H); inversion H].
  - rewrite elem_of_app, IH. split.
    + intros [H | (l' & H1 & H2)]; [exists l; split; [exact H | left] |
        exists l'; split; [exact H1 | right; exact H2]].
    + intros (l' & H1 & H2). apply elem_of_cons in H2 as [-> | H2];
        [left; exact H1 | right; exists l'; split; assumption].
Qed.

Lemma interact_no_prompt error ram_insts target_depth stdin (s : state) :
  prompt_user s = false ->
  interact error ram_insts target_depth stdin s = Continue s.
Proof.
  intros Hp. destruct stdin; simpl; unfold loop_test; rewrite Hp; reflexivity.
Qed.

Lemma prompt_loop_no_prompt error ram_insts target_depth stdin (s : state) :
  prompt_user s = false ->
  prompt_loop error ram_insts target_depth stdin s = Continue s.
Proof.
  intros Hp. unfold prompt_loop. rewrite Hp. apply interact_no_prompt, Hp.
Qed.

Lemma assemble_spec error ram_insts ram_inst target_depth stdin :
  (1 < length (sorted_keys ram_insts))%nat ->
  assemble error ram_insts (Some ram_inst) target_depth stdin =
  and_then (select_spec error ram_insts ram_inst (init_state (sorted_keys ram_insts)))
           (prompt_loop error ram_insts target_depth stdin).
Proof.
  intros Hlen. unfold assemble, select. cbn [inames init_state].
  rewrite bool_decide_eq_false_2 by lia.
  rewrite bool_decide_eq_false_2 by lia.
  reflexivity.
Qed.

Lemma select_spec_rejects error ram_insts ram_inst :
  ~ NoDup (concat (parse_spec ram_inst)) \/
  (exists i, i ∈ concat (parse_spec ram_inst) /\ ram_insts !! i = None) ->
  exists s',
    select_spec error ram_insts ram_inst (init_state (sorted_keys ram_insts)) =
      Abort (SystemExit 1) s' /\
    lo s' = MemLayout.init /\ bmm_file s' = None.
Proof.
  intros H. unfold select_spec.
  set (s0 := init_state (sorted_keys ram_insts)).
  assert (Hkeys : forall n, n ∈ inames s0 -> is_Some (ram_insts !! n))
    by (intros n Hn; apply elem_of_sorted_keys, Hn).
  destruct (has_duplicates (concat (parse_spec ram_inst))) eqn:Hd.
  - destruct (show_instances_exits ram_insts
                (report_error error "Duplicate instances in BRAM spec" s0) Hkeys)
      as (s' & -> & Hlo & Hbmm).
    exists s'. repeat split; assumption.
  - destruct H as [H | (i & Hi & Hnone)].
    + apply has_duplicates_true in H. congruence.
    + destruct (check_names_fail error ram_insts (concat (parse_spec ram_inst)) s0)
        as (s' & Hs' & Hlo & Hbmm); [|exact Hkeys|].
      * exists i. split; [exact Hi|]. intros Hin. apply Hkeys in Hin.
        rewrite Hnone in Hin. destruct Hin; discriminate.
      * cbn [and_then]. rewrite Hs'. exists s'. repeat split; assumption.
Qed.

Lemma select_spec_builds error ram_insts ram_inst :
  NoDup (concat (parse_spec ram_inst)) ->
  Forall (Forall (names_resolved ram_insts)) (parse_spec ram_inst) ->
  exists l,
    rows_of ram_insts (MemLayout.rows l) (parse_spec ram_inst) /\
    select_spec error ram_insts ram_inst (init_state (sorted_keys ram_insts)) =
    Continue (set_prompt_user (set_lo (init_state (sorted_keys ram_insts)) l) false).
Proof.
  intros Hnd Hres. unfold select_spec.
  set (s0 := init_state (sorted_keys ram_insts)).
  apply has_duplicates_false in Hnd. rewrite Hnd. cbn [and_then].
  rewrite check_names_ok.
  2:{ intros i Hi. apply elem_of_sorted_keys.
      apply elem_of_concat in Hi as (names & Hi & Hnames).
      rewrite Forall_forall in Hres. specialize (Hres _ Hnames).
      rewrite Forall_forall in Hres. destruct (Hres _ Hi) as (b & Hb & _).
      exists b. exact Hb. }
  cbn [and_then].
  destruct (build_spec_ok ram_insts (parse_spec ram_inst) (lo s0) Hres) as (l & Hl).
  rewrite Hl. exists l. split; [|reflexivity].
  destruct (build_spec_inv _ _ _ _ Hl) as (rs & Hrs & Hspec).
  rewrite Hrs. exact Hspec.
Qed.

Section Buildable.
Variable ram_insts : gmap string Bram.t.

Lemma is_int_true (v : val) : is_int v = true -> exists n, v = VInt n.
Proof. destruct v; try discriminate. eexists. reflexivity. Qed.

Lemma is_int_false (v : val) : is_int v = false -> int_of v = Raise TypeError.
Proof. destruct v; try discriminate; reflexivity. Qed.

Lemma add_named_later (l : MemLayout.t) (pre : list MemRow.t) (r : MemRow.t)
    (n : string) :
  MemLayout.rows l = pre ++ [r] -> MemRow.brams r <> [] ->
  is_Some (ram_insts !! n) ->
  if fits ram_insts false n
  then exists r', add_named ram_insts l n = Ok (MemLayout.mk (pre ++ [r'])) /\
         MemRow.brams r' <> []
  else add_named ram_insts l n = Raise TypeError.
Proof.
  intros Hl Hne [b Hb]. rewrite (add_named_eq ram_insts l pre r n Hl).
  unfold fits, getitem. rewrite Hb, bind_Ok, andb_true_r.
  destruct (exists_last Hne) as (bs & p & Hbs).
  destruct (is_int (Bram.width b)) eqn:Ew.
  - apply is_int_true in Ew as (w & Ew).
    rewrite (add_bram_next r bs p b w Hbs Ew), bind_Ok.
    eexists. split; [reflexivity|]. cbn [MemRow.brams].
    intros E. apply app_eq_nil in E as [_ E]. discriminate.
  - unfold MemRow.add_bram. rewrite Hbs.
    assert (Hlen : length ((bs ++ [p]) ++ [b]) = S (S (length bs)))
      by (rewrite !length_app; simpl; lia).
    rewrite Hlen. change (2 <=? S (S (length bs)))%nat with true.
    replace (S (S (length bs)) - 2)%nat with (length bs) by lia.
    rewrite <- (app_assoc bs [p] [b]). rewrite lookup_app_r by lia.
    rewrite Nat.sub_diag. cbn [lookup list_lookup app].
    rewrite (is_int_false _ Ew). reflexivity.
Qed.

Lemma add_named_first (l : MemLayout.t) (pre : list MemRow.t) (r : MemRow.t)
    (n : string) :
  MemLayout.rows l = pre ++ [r] -> MemRow.brams r = [] ->
  is_Some (ram_insts !! n) ->
  if fits ram_insts true n
  then exists r', add_named ram_insts l n = Ok (MemLayout.mk (pre ++ [r'])) /\
         MemRow.brams r' <> []
  else add_named ram_insts l n = Raise TypeError.
Proof.
  intros Hl He [b Hb]. rewrite (add_named_eq ram_insts l pre r n Hl).
  unfold fits, getitem. rewrite Hb, bind_Ok.
  destruct (is_int (Bram.width b)) eqn:Ew; cbn [andb].
  - apply is_int_true in Ew as (w & Ew).
    destruct (is_int (Bram.depth b)) eqn:Ed.
    + apply is_int_true in Ed as (d & Ed).
      rewrite (add_bram_first r b w d He Ew Ed), bind_Ok.
      eexists. split; [reflexivity | discriminate].
    + unfold MemRow.add_bram. rewrite He. cbn [app length Nat.leb].
      rewrite Ew. cbn [int_of]. rewrite bind_Ok, (is_int_false _ Ed). reflexivity.
  - unfold MemRow.add_bram. rewrite He. cbn [app length Nat.leb].
    rewrite (is_int_false _ Ew). reflexivity.
Qed.

Lemma foldlM_add_named_later (names : list string) (l : MemLayout.t)
    (pre : list MemRow.t) (r : MemRow.t) :
  MemLayout.rows l = pre ++ [r] -> MemRow.brams r <> [] ->
  (forall n, n ∈ names -> is_Some (ram_insts !! n)) ->
  if forallb (fits ram_insts false) names
  then exists l', foldlM (add_named ram_insts) l names = Ok l'
  else foldlM (add_named ram_insts) l names = Raise TypeError.
Proof.
  revert l r. induction names as [|n names IH]; intros l r Hl Hne Hin.
  - eexists. reflexivity.
  - cbn [forallb foldlM].
    pose proof (add_named_later l pre r n Hl Hne (Hin n ltac:(left))) as H.
    destruct (fits ram_insts false n); cbn [andb].
    + destruct H as (r' & -> & Hr'). rewrite bind_Ok.
      apply (IH (MemLayout.mk (pre ++ [r'])) r' eq_refl Hr').
      intros n' Hn'. apply Hin. right. exact Hn'.
    + rewrite H. reflexivity.
Qed.

Lemma build_row_cases (names : list string) (l : MemLayout.t) :
  (forall n, n ∈ names -> is_Some (ram_insts !! n)) ->
  if row_buildable ram_insts names
  then exists l', build_row ram_insts l names = Ok l'
  else build_row ram_insts l names = Raise TypeError.
Proof.
  intros Hin. unfold build_row.
  destruct (add_row_rows l) as (r0 & Hr0 & Hb0).
  destruct names as [|n names]; [eexists; reflexivity|].
  cbn [row_buildable foldlM].
  pose proof (add_named_first _ _ r0 n Hr0 Hb0 (Hin n ltac:(left))) as H.
  destruct (fits ram_insts true n); cbn [andb].
  - destruct H as (r' & -> & Hr'). rewrite bind_Ok.
    apply (foldlM_add_named_later names (MemLayout.mk (MemLayout.rows l ++ [r'])) _ r'
             eq_refl Hr').
    intros n' Hn'. apply Hin. right. exact Hn'.
  - rewrite H. reflexivity.
Qed.

Lemma build_spec_cases (spec : list (list string)) (l : MemLayout.t) :
  (forall n, n ∈ concat spec -> is_Some (ram_insts !! n)) ->
  if spec_buildable ram_insts spec
  then exists l', build_spec ram_insts l spec = Ok l'
  else build_spec ram_insts l spec = Raise TypeError.
Proof.
  revert l. induction spec as [|names spec IH]; intros l Hin.
  - eexists. reflexivity.
  - unfold spec_buildable. cbn [forallb]. rewrite build_spec_cons.
    pose proof (build_row_cases names l) as H.
    destruct (row_buildable ram_insts names); cbn [andb].
    + destruct H as (l1 & ->).
      { intros n Hn. apply Hin. cbn [concat]. apply elem_of_app. left. exact Hn. }
      rewrite bind_Ok. apply IH.
      intros n Hn. apply Hin. cbn [concat]. apply elem_of_app. right. exact Hn.
    + rewrite H; [reflexivity|].
      intros n Hn. apply Hin. cbn [concat]. apply elem_of_app. left. exact Hn.
Qed.

End Buildable.

Lemma select_spec_accepts error ram_insts ram_inst :
  NoDup (concat (parse_spec ram_inst)) ->
  (forall i, i ∈ concat (parse_spec ram_inst) -> is_Some (ram_insts !! i)) ->
  select_spec error ram_insts ram_inst (init_state (sorted_keys ram_insts)) =
  match build_spec ram_insts MemLayout.init (parse_spec ram_inst) with
  | Ok l => Continue (set_prompt_user (set_lo (init_state (sorted_keys ram_insts)) l) false)
  | Raise e => Abort e (init_state (sorted_keys ram_insts))
  end.
Proof.
  intros Hnd Hin. unfold select_spec.
  apply has_duplicates_false in Hnd. rewrite Hnd. cbn [and_then].
  rewrite check_names_ok
    by (intros i Hi; apply elem_of_sorted_keys, Hin, Hi).
  reflexivity.
Qed.

(** C6, amended.  With a selection spec: when no instance was discovered
    the process ends with status 1; with exactly one discovered instance
    the spec is not looked at, the process runs as it does without a
    spec; with more than one, when a name occurs twice in the spec or is
    not in the mapping the process ends with status 1, no row built and
    no file written; otherwise, when every named block has an integer
    width and the first block of every row an integer depth, the rows
    hold the blocks the spec lists, row by row and in order, and nothing
    is read from the user; and when some named block has not, the
    [TypeError] of [add_bram] ends the process, no file written. *)
Theorem selection_spec_checked error ram_insts (ram_inst : string) mem_data stdin ok :
  (length (sorted_keys ram_insts) = 0%nat ->
   main_body error ram_insts (Some ram_inst) mem_data stdin ok =
     Abort (SystemExit 1)
       (eprint (init_state []) (error "ERROR:" +:+ " No RAM instances found"))) /\
  (length (sorted_keys ram_insts) = 1%nat ->
   main_body error ram_insts (Some ram_inst) mem_data stdin ok =
   main_body error ram_insts None mem_data stdin ok) /\
  ((1 < length (sorted_keys ram_insts))%nat ->
   (~ NoDup (concat (parse_spec ram_inst)) \/
    (exists i, i ∈ concat (parse_spec ram_inst) /\ ram_insts !! i = None) ->
    exists s',
      main_body error ram_insts (Some ram_inst) mem_data stdin ok =
        Abort (SystemExit 1) s' /\
      MemLayout.rows (lo s') = [] /\ bmm_file s' = None) /\
   (NoDup (concat (parse_spec ram_inst)) ->
    (forall i, i ∈ concat (parse_spec ram_inst) -> is_Some (ram_insts !! i)) ->
    (spec_buildable ram_insts (parse_spec ram_inst) = true ->
     exists l,
       rows_of ram_insts (MemLayout.rows l) (parse_spec ram_inst) /\
       forall target_depth stdin',
         assemble error ram_insts (Some ram_inst) target_depth stdin' =
         Continue
           (set_prompt_user (set_lo (init_state (sorted_keys ram_insts)) l) false)) /\
    (spec_buildable ram_insts (parse_spec ram_inst) = false ->
     exists s',
       main_body error ram_insts (Some ram_inst) mem_data stdin ok =
         Abort TypeError s' /\
       bmm_file s' = None))).
Proof.
  split; [|split].
  - intros H0. unfold main_body, assemble. cbn [inames init_state].
    rewrite bool_decide_eq_true_2 by exact H0.
    destruct (sorted_keys ram_insts); [reflexivity | discriminate].
  - intros H1. unfold main_body, assemble, select. cbn [inames init_state].
    rewrite (bool_decide_eq_true_2 (length (sorted_keys ram_insts) = 1%nat)) by exact H1.
    reflexivity.
  - intros Hlen. split.
    + intros H.
      destruct (select_spec_rejects error ram_insts ram_inst H) as (s' & Hs' & Hlo & Hbmm).
      exists s'. unfold main_body. rewrite assemble_spec by exact Hlen.
      rewrite Hs'. rewrite Hlo. repeat split; assumption.
    + intros Hnd Hin.
      pose proof (select_spec_accepts error ram_insts ram_inst Hnd Hin) as Hsel.
      pose proof (build_spec_cases ram_insts (parse_spec ram_inst) MemLayout.init Hin)
        as Hb.
      split; intros E; rewrite E in Hb.
      * destruct Hb as (l & Hl). rewrite Hl in Hsel. exists l. split.
        -- destruct (build_spec_inv _ _ _ _ Hl) as (rs & Hrs & Hspec).
           rewrite Hrs. exact Hspec.
        -- intros target_depth stdin'. rewrite assemble_spec by exact Hlen.
           rewrite Hsel. cbn [and_then]. apply prompt_loop_no_prompt. reflexivity.
      * rewrite Hb in Hsel. eexists. unfold main_body.
        rewrite assemble_spec by exact Hlen. rewrite Hsel.
        split; reflexivity.
Qed.

Lemma selection_spec_checked_witness :
  (exists s', main_body id two_nines (Some "a,a") mem_1024 [] true =
     Abort (SystemExit 1) s' /\ MemLayout.rows (lo s') = [] /\ bmm_file s' = None) /\
  (exists l, rows_of two_nines (MemLayout.rows l) [["b"; "a"]] /\
     assemble id two_nines (Some "b,a") 1024 ["1"] =
     Continue (set_prompt_user (set_lo (init_state (sorted_keys two_nines)) l) false)) /\
  main_body id one_block (Some "zz") mem_1024 [] true =
  main_body id one_block None mem_1024 [] true /\
  (exists s', main_body id nine_and_text (Some "a:s") mem_1024 [] true =
     Abort TypeError s' /\ bmm_file s' = None) /\
  main_body id ∅ (Some "a") mem_1024 [] true =
    Abort (SystemExit 1) (eprint (init_state []) (id "ERROR:" +:+ " No RAM instances found")).
Proof.
  split; [|split; [|split; [|split]]].
  - destruct (selection_spec_checked id two_nines "a,a" mem_1024 [] true)
      as (_ & _ & H).
    destruct H as [H _]; [vm_compute; lia|].
    apply H. left. intros Hnd. apply NoDup_cons in Hnd as [Hnd _].
    apply Hnd. left.
  - destruct (selection_spec_checked id two_nines "b,a" mem_1024 [] true)
      as (_ & _ & H).
    destruct H as [_ H]; [vm_compute; lia|].
    destruct H as [H _].
    + change (NoDup ["b"; "a"]). apply NoDup_cons. split; [|apply NoDup_singleton].
      intros Hin. apply list_elem_of_singleton in Hin. discriminate.
    + intros i Hi. change (i ∈ ["b"; "a"]) in Hi.
      apply elem_of_cons in Hi as [-> | Hi]; [eexists; reflexivity|].
      apply list_elem_of_singleton in Hi as ->. eexists. reflexivity.
    + destruct (H eq_refl) as (l & Hrows & Hl).
      exists l. split; [exact Hrows | apply Hl].
  - destruct (selection_spec_checked id one_block "zz" mem_1024 [] true)
      as (_ & H & _).
    apply H. reflexivity.
  - destruct (selection_spec_checked id nine_and_text "a:s" mem_1024 [] true)
      as (_ & _ & H).
    destruct H as [_ H]; [vm_compute; lia|].
    destruct H as [_ H].
    + change (NoDup ["a"; "s"]). apply NoDup_cons. split; [|apply NoDup_singleton].
      intros Hin. apply list_elem_of_singleton in Hin. discriminate.
    + intros i Hi. change (i ∈ ["a"; "s"]) in Hi.
      apply elem_of_cons in Hi as [-> | Hi]; [eexists; reflexivity|].
      apply list_elem_of_singleton in Hi as ->. eexists. reflexivity.
    + apply H. reflexivity.
  - destruct (selection_spec_checked id ∅ "a" mem_1024 [] true) as (H & _).
    apply H. reflexivity.
Defined.

(** C6 as stated fails with a single discovered instance: the spec is not
    looked at, a spec that names an absent instance does not stop the
    process, which packs the only instance and exits with status 0. *)
Lemma selection_spec_ignored_for_one_instance :
  one_block !! "zz" = None /\
  exists s,
    main_body id one_block (Some "zz") mem_1024 [] true = Abort (SystemExit 0) s /\
    length (MemLayout.rows (lo s)) = 1%nat /\
    is_Some (bmm_file s).
Proof.
  split; [reflexivity|]. eexists. split; [vm_compute; reflexivity|].
  split; [reflexivity | eexists; reflexivity].
Qed.

(** ** The BMM file is written last *)

Section Frame.
Variable error : string -> string.
Variable ram_insts : gmap string Bram.t.
Variable target_depth : Z.

Lemma show_lines_frame (ns : list string) (s : state) :
  bmm_file (state_of (show_lines ram_insts ns s)) = bmm_file s.
Proof.
  revert s. induction ns as [|n ns IH]; intros s; simpl; [reflexivity|].
  destruct (instance_line ram_insts "  " n) as [l|e]; simpl; [|reflexivity].
  rewrite IH. reflexivity.
Qed.

Lemma show_instances_frame (s : state) :
  bmm_file (state_of (show_instances ram_insts s)) = bmm_file s.
Proof. unfold show_instances. rewrite show_lines_frame. reflexivity. Qed.

Lemma check_names_frame (l : list string) (s : state) :
  bmm_file (state_of (check_names error ram_insts l s)) = bmm_file s.
Proof.
  induction l as [|i l IH]; simpl; [reflexivity|].
  destruct (bool_decide (i ∈ inames s)); [exact IH|].
  rewrite show_instances_frame. reflexivity.
Qed.

Lemma check_names_Continue (l : list string) (s s' : state) :
  check_names error ram_insts l s = Continue s' -> s' = s.
Proof.
  induction l as [|i l IH]; simpl.
  - intros [= <-]. reflexivity.
  - destruct (bool_decide (i ∈ inames s)); [exact IH|].
    unfold show_instances. generalize (eprint
      (report_error error ("Instance does not exist in netlist (" +:+ i +:+ ")") s)
      " Available RAM instances:").
    intros s1. generalize (inames s1). intros ns. revert s1.
    induction ns as [|n ns IHn]; intros s1; simpl; [discriminate|].
    destruct (instance_line ram_insts "  " n); simpl; [apply IHn | discriminate].
Qed.

Lemma select_spec_frame (ram_inst : string) (s : state) :
  bmm_file (state_of (select_spec error ram_insts ram_inst s)) = bmm_file s.
Proof.
  unfold select_spec.
  destruct (has_duplicates (concat (parse_spec ram_inst))).
  - pose proof (show_instances_frame
                  (report_error error "Duplicate instances in BRAM spec" s)) as H.
    destruct (show_instances ram_insts _) as [s1|e s1] eqn:E; simpl in *.
    + exfalso. revert E. unfold show_instances.
      generalize (eprint (report_error error "Duplicate instances in BRAM spec" s)
                    " Available RAM instances:").
      intros s2. generalize (inames s2). intros ns. revert s2.
      induction ns as [|n ns IHn]; intros s2; simpl; [discriminate|].
      destruct (instance_line ram_insts "  " n); simpl; [apply IHn | discriminate].
    + exact H.
  - cbn [and_then].
    pose proof (check_names_frame (concat (parse_spec ram_inst)) s) as H.
    destruct (check_names error ram_insts _ s) as [s1|e s1] eqn:E; simpl in *.
    + apply check_names_Continue in E. subst s1.
      destruct (build_spec ram_insts (lo s) (parse_spec ram_inst)); reflexivity.
    + exact H.
Qed.

Lemma select_frame (ram_inst : option string) (s : state) :
  bmm_file (state_of (select error ram_insts ram_inst s)) = bmm_file s.
Proof.
  unfold select. destruct (bool_decide (length (inames s) = 1%nat)).
  - destruct (inames s !! 0%nat); [|reflexivity].
    unfold try. destruct (_ ≫= _); reflexivity.
  - destruct ram_inst; [apply select_spec_frame | reflexivity].
Qed.

Lemma before_prompt_frame (s : state) :
  bmm_file (state_of (before_prompt error ram_insts s)) = bmm_file s.
Proof.
  unfold before_prompt, try, report_error_exit.
  repeat (case_match; try reflexivity).
Qed.

Lemma before_prompt_Continue (s s' : state) :
  before_prompt error ram_insts s = Continue s' -> s' = s.
Proof.
  unfold before_prompt, try, report_error_exit. intros H.
  repeat (case_match; try discriminate). all: congruence.
Qed.

Lemma after_prompt_frame (x : string) (s : state) :
  bmm_file (state_of (after_prompt error ram_insts target_depth x s)) = bmm_file s.
Proof.
  unfold after_prompt, try, report_error_exit.
  repeat (case_match; try reflexivity).
Qed.

Lemma after_prompt_prompt_user (x : string) (s s' : state) :
  after_prompt error ram_insts target_depth x s = Continue s' ->
  prompt_user s' = prompt_user s.
Proof.
  unfold after_prompt, try, report_error_exit. intros H.
  repeat (case_match; try discriminate).
  all: injection H as <-; reflexivity.
Qed.

Lemma interact_frame (stdin : list string) (s : state) :
  bmm_file (state_of (interact error ram_insts target_depth stdin s)) = bmm_file s.
Proof.
  revert s. induction stdin as [|x stdin IH]; intros s; simpl;
    destruct (loop_test target_depth s) as [[|]|e]; simpl; try reflexivity.
  - pose proof (before_prompt_frame s) as H.
    destruct (before_prompt error ram_insts s); simpl in *; exact H.
  - pose proof (before_prompt_frame s) as H.
    destruct (before_prompt error ram_insts s) as [s1|e s1]; simpl in *; [|exact H].
    pose proof (after_prompt_frame x s1) as H1.
    destruct (after_prompt error ram_insts target_depth x s1) as [s2|e s2];
      simpl in *; [|congruence].
    rewrite IH. congruence.
Qed.

Lemma interact_Continue (stdin : list string) (s s' : state) :
  interact error ram_insts target_depth stdin s = Continue s' ->
  loop_test target_depth s' = Ok false /\ prompt_user s' = prompt_user s.
Proof.
  revert s. induction stdin as [|x stdin IH]; intros s; simpl;
    destruct (loop_test target_depth s) as [[|]|e] eqn:Et; simpl; try discriminate.
  - destruct (before_prompt error ram_insts s); discriminate.
  - intros [= <-]. split; [exact Et | reflexivity].
  - destruct (before_prompt error ram_insts s) as [s1|e s1] eqn:Eb; simpl;
      [|discriminate].
    apply before_prompt_Continue in Eb. subst s1.
    destruct (after_prompt error ram_insts target_depth x s) as [s2|e s2] eqn:Ea;
      simpl; [|discriminate].
    intros H. destruct (IH _ H) as [H1 H2]. split; [exact H1|].
    rewrite H2. eapply after_prompt_prompt_user, Ea.
  - intros [= <-]. split; [exact Et | reflexivity].
Qed.

Lemma prompt_loop_frame (stdin : list string) (s : state) :
  bmm_file (state_of (prompt_loop error ram_insts target_depth stdin s)) = bmm_file s.
Proof.
  unfold prompt_loop. rewrite interact_frame. destruct (prompt_user s); reflexivity.
Qed.

Lemma assemble_frame (ram_inst : option string) (stdin : list string) :
  bmm_file (state_of (assemble error ram_insts ram_inst target_depth stdin)) = None.
Proof.
  unfold assemble. destruct (bool_decide _); [reflexivity|].
  pose proof (select_frame ram_inst (init_state (sorted_keys ram_insts))) as H.
  destruct (select error ram_insts ram_inst _) as [s1|e s1]; simpl in *; [|exact H].
  rewrite prompt_loop_frame. exact H.
Qed.

Lemma finish_wrote (ok : bool) (s s' : state) (e : exn) :
  bmm_file s = None ->
  finish error target_depth ok s = Abort e s' ->
  is_Some (bmm_file s') ->
  lo s' = lo s /\ same_widths (lo s) = true /\
  exists rl, last (MemLayout.rows (lo s)) = Some rl /\
    MemRow.end_ rl + 1 = target_depth.
Proof.
  intros Hnone. unfold finish, try, report_error_exit, last_row.
  destruct (summary_raises (lo s)); [|intros [= _ <-] [x Hx]; simpl in Hx; congruence].
  destruct (same_widths (lo s)); simpl;
    [|intros [= _ <-] [x Hx]; simpl in Hx; congruence].
  destruct (last (MemLayout.rows (lo s))) as [rl|];
    [|intros [= _ <-] [x Hx]; simpl in Hx; congruence].
  destruct (MemRow.end_ rl + 1 =? target_depth) eqn:E; simpl;
    [|intros [= _ <-] [x Hx]; simpl in Hx; congruence].
  apply Z.eqb_eq in E. intros H _.
  assert (Hlo : lo s' = lo s).
  { destruct (MemLayout.bmm (lo s)); [destruct ok|]; injection H as _ <-; reflexivity. }
  split; [exact Hlo|]. split; [reflexivity|]. exists rl. split; [reflexivity|exact E].
Qed.

End Frame.

(** C3, amended.  A layout for which the BMM file is written has blocks of
    one width and its last row ends at the required depth minus one; when
    it was put together at the prompt (several instances, no selection
    spec), every row of it is valid for the target width 18 and the row
    depths add up to the required depth. *)
Theorem finalized_layout_checks error ram_insts ram_inst mem_data stdin ok e s :
  main_body error ram_insts ram_inst mem_data stdin ok = Abort e s ->
  is_Some (bmm_file s) ->
  (same_widths (lo s) = true /\
   exists rl, last (MemLayout.rows (lo s)) = Some rl /\
     MemRow.end_ rl + 1 = required_depth mem_data) /\
  (ram_inst = None -> (1 < length (sorted_keys ram_insts))%nat ->
   Forall (fun r => MemRow.valid r target_width = Ok true) (MemLayout.rows (lo s)) /\
   MemLayout.valid (lo s) (required_depth mem_data) target_width = Ok true).
Proof.
  unfold main_body. intros Hmain Hfile.
  pose proof (assemble_frame error ram_insts (required_depth mem_data) ram_inst stdin)
    as Hnone.
  destruct (assemble error ram_insts ram_inst (required_depth mem_data) stdin)
    as [s1|e1 s1] eqn:Ea; simpl in Hmain, Hnone.
  2:{ injection Hmain as _ <-. rewrite Hnone in Hfile. destruct Hfile; discriminate. }
  destruct (finish_wrote _ _ _ _ _ _ Hnone Hmain Hfile) as (Hlo & Hsame & Hlast).
  rewrite Hlo. split; [split; assumption|].
  intros -> Hlen. rewrite assemble_interactive in Ea by exact Hlen.
  apply interact_Continue in Ea as [Ht Hp].
  unfold loop_test in Ht. rewrite Hp in Ht. simpl in Ht.
  inv_bind Ht. destruct a; [|discriminate].
  split; [|exact Ha].
  apply (layout_valid_rows (lo s1) (required_depth mem_data) target_width) in Ha.
  apply Ha.
Qed.

Lemma finalized_layout_checks_witness :
  exists e s,
    main_body id two_nines None mem_1024 ["1"; "1"] true = Abort e s /\
    Forall (fun r => MemRow.valid r target_width = Ok true) (MemLayout.rows (lo s)).
Proof.
  eexists _, _. split; [vm_compute; reflexivity|].
  eapply (finalized_layout_checks id two_nines None mem_1024 ["1"; "1"] true).
  - vm_compute. reflexivity.
  - eexists. reflexivity.
  - reflexivity.
  - vm_compute. lia.
Defined.

(** C3 as stated fails on the two paths that do not prompt.  A single
    1024x9 block is packed alone, and the spec [a:b] puts two 1024x9
    blocks in a row each: the checks pass, the BMM file is written, and
    the rows are 9 bits wide, not 18. *)
Lemma narrow_rows_are_finalized :
  (exists s r,
     main_body id one_narrow_block None mem_1024 [] true = Abort (SystemExit 0) s /\
     is_Some (bmm_file s) /\
     MemLayout.rows (lo s) = [r] /\
     MemRow.width r = Ok 9 /\
     MemRow.valid r target_width = Ok false) /\
  (exists s r1 r2,
     main_body id two_nines (Some "a:b") (replicate 2049 "0") [] true =
       Abort (SystemExit 0) s /\
     is_Some (bmm_file s) /\
     MemLayout.rows (lo s) = [r1; r2] /\
     MemRow.width r1 = Ok 9 /\ MemRow.width r2 = Ok 9 /\
     MemRow.valid r1 target_width = Ok false /\
     MemRow.valid r2 target_width = Ok false /\
     MemLayout.valid (lo s) 2048 target_width = Ok false).
Proof.
  split.
  - eexists _, _. split; [vm_compute; reflexivity|].
    split; [eexists; reflexivity|]. repeat split.
  - eexists _, _, _. split; [vm_compute; reflexivity|].
    split; [eexists; reflexivity|]. repeat split.
Qed.

(** ** [split] after [join] *)

Lemma has_char_app (c : ascii) (a b : string) :
  has_char c (a +:+ b) = has_char c a || has_char c b.
Proof.
  induction a as [|x a IH]; [reflexivity|].
  change (has_char c (String x (a +:+ b)) = has_char c (String x a) || has_char c b).
  simpl. rewrite IH. apply orb_assoc.
Qed.

Lemma split_free (c : ascii) (s : string) :
  has_char c s = false -> split c s = [s].
Proof.
  induction s as [|x s IH]; simpl; [reflexivity|].
  intros H. apply orb_false_elim in H as [H1 H2].
  rewrite H1, (IH H2). reflexivity.
Qed.

Lemma split_app_sep (c : ascii) (a b : string) :
  has_char c a = false -> split c (a +:+ String c b) = a :: split c b.
Proof.
  induction a as [|x a IH]; intros H.
  - change (split c (String c b) = EmptyString :: split c b).
    simpl. rewrite Ascii.eqb_refl. reflexivity.
  - simpl in H. apply orb_false_elim in H as [H1 H2].
    change (split c (String x (a +:+ String c b)) = String x a :: split c b).
    simpl. rewrite H1, (IH H2). reflexivity.
Qed.

Lemma join_cons2 (sep x y : string) (l : list string) :
  join sep (x :: y :: l) = x +:+ sep +:+ join sep (y :: l).
Proof. reflexivity. Qed.

Lemma split_join (c : ascii) (l : list string) :
  l <> [] -> Forall (fun s => has_char c s = false) l ->
  split c (join (String c EmptyString) l) = l.
Proof.
  induction l as [|x l IH]; intros Hne H; [congruence|].
  apply Forall_cons in H as [Hx Hl]. destruct l as [|y l].
  - apply split_free, Hx.
  - rewrite join_cons2.
    change (String c EmptyString +:+ join (String c EmptyString) (y :: l))
      with (String c (join (String c EmptyString) (y :: l))).
    rewrite split_app_sep by exact Hx. f_equal. apply IH; [discriminate | exact Hl].
Qed.

Lemma has_char_join (c d : ascii) (l : list string) :
  Ascii.eqb d c = false -> Forall (fun s => has_char c s = false) l ->
  has_char c (join (String d EmptyString) l) = false.
Proof.
  intros Hcd. induction l as [|x l IH]; intros H; [reflexivity|].
  apply Forall_cons in H as [Hx Hl]. destruct l as [|y l]; [exact Hx|].
  rewrite join_cons2, !has_char_app, Hx, (IH Hl). simpl. rewrite Hcd. reflexivity.
Qed.

Lemma parse_spec_join (nss : list (list string)) :
  nss <> [] ->
  Forall (fun ns => ns <> [] /\ Forall sep_free ns) nss ->
  parse_spec (join ":" (join "," <$> nss)) = nss.
Proof.
  intros Hne H. unfold parse_spec.
  rewrite (split_join ":"%char).
  - rewrite <- list_fmap_compose. rewrite <- (list_fmap_id nss) at 2.
    apply Forall_fmap_ext_1. eapply Forall_impl; [exact H|].
    intros ns [Hns Hfree]. simpl. apply (split_join ","%char); [exact Hns|].
    eapply Forall_impl; [exact Hfree|]. intros s [Hs _]. exact Hs.
  - destruct nss; [congruence|discriminate].
  - apply Forall_fmap. eapply Forall_impl; [exact H|].
    intros ns [_ Hfree]. simpl. apply (has_char_join ":"%char ","%char); [reflexivity|].
    eapply Forall_impl; [exact Hfree|]. intros s [_ Hs]. exact Hs.
Qed.

Lemma instance_spec_names (l : MemLayout.t) :
  MemLayout.instance_spec l = join ":" (join "," <$> names l).
Proof.
  unfold MemLayout.instance_spec, names. rewrite <- list_fmap_compose. reflexivity.
Qed.

Lemma split_nonempty (c : ascii) (s : string) : split c s <> [].
Proof.
  destruct s as [|x s]; simpl; [discriminate|].
  destruct (Ascii.eqb x c); [discriminate|]. destruct (split c s); discriminate.
Qed.

Lemma parse_spec_nonempty (ram_inst : string) :
  parse_spec ram_inst <> [] /\ Forall (fun ns => ns <> []) (parse_spec ram_inst).
Proof.
  unfold parse_spec. split.
  - pose proof (split_nonempty ":"%char ram_inst) as H.
    destruct (split ":"%char ram_inst); [congruence|discriminate].
  - apply Forall_fmap, Forall_forall. intros s _. apply split_nonempty.
Qed.

(** ** Replaying a layout from its names *)

Lemma bind_assoc {A B C : Type} (r : result A) (f : A -> result B)
    (g : B -> result C) :
  ((r ≫= f) ≫= g) = (r ≫= fun a => f a ≫= g).
Proof. destruct r; reflexivity. Qed.

Lemma bind_Ok_r {A : Type} (r : result A) : (r ≫= Ok) = r.
Proof. destruct r; reflexivity. Qed.

Lemma foldlM_app {A B : Type} (f : A -> B -> result A) (a : A) (l1 l2 : list B) :
  foldlM f a (l1 ++ l2) = (foldlM f a l1 ≫= fun a' => foldlM f a' l2).
Proof.
  revert a. induction l1 as [|x l1 IH]; intros a; simpl; [reflexivity|].
  destruct (f a x) as [a'|e]; simpl; [apply IH | reflexivity].
Qed.

Lemma foldlM_snoc {A B : Type} (f : A -> B -> result A) (a : A) (l : list B) (x : B) :
  foldlM f a (l ++ [x]) = (foldlM f a l ≫= fun a' => f a' x).
Proof.
  rewrite foldlM_app. destruct (foldlM f a l) as [a'|e]; simpl; [|reflexivity].
  apply bind_Ok_r.
Qed.

Lemma list_remove_Permutation (x : string) (l l' : list string) :
  list_remove x l = Ok l' -> l ≡ₚ x :: l'.
Proof.
  revert l'. induction l as [|y l IH]; intros l' H; simpl in H; [discriminate|].
  destruct (decide (x = y)) as [->|Hne].
  - injection H as <-. reflexivity.
  - inv_bind H. injection H as <-. rewrite (IH _ Ha). apply perm_swap.
Qed.

Lemma concat_snoc {A : Type} (ls : list (list A)) (l : list A) :
  concat (ls ++ [l]) = concat ls ++ l.
Proof. rewrite concat_app. simpl. rewrite app_nil_r. reflexivity. Qed.

Section Replay.
Variable error : string -> string.
Variable ram_insts : gmap string Bram.t.
Variable target_depth : Z.
Hypothesis Hkeyed : keyed_by_instance ram_insts.

Lemma block_of_instance (b : Bram.t) (name : string) :
  block_of ram_insts b name -> Bram.instance b = name.
Proof. intros (b0 & H0 & ->). simpl. apply Hkeyed, H0. Qed.

Lemma rows_of_names (rs : list MemRow.t) (spec : list (list string)) :
  rows_of ram_insts rs spec ->
  (fun r => Bram.instance <$> MemRow.brams r) <$> rs = spec.
Proof.
  induction 1 as [|r ns rs spec Hr _ IH]; [reflexivity|].
  rewrite fmap_cons, IH. f_equal.
  induction Hr as [|b n bs ns Hb _ IHb]; [reflexivity|].
  rewrite fmap_cons, IHb, (block_of_instance _ _ Hb). reflexivity.
Qed.

Lemma build_spec_names (spec : list (list string)) (l : MemLayout.t) :
  build_spec ram_insts MemLayout.init spec = Ok l -> names l = spec.
Proof.
  intros H. destruct (build_spec_inv _ _ _ _ H) as (rs & Hrs & Hspec).
  unfold names. rewrite Hrs. apply rows_of_names, Hspec.
Qed.

Lemma build_spec_snoc_name (np : list (list string)) (nr : list string) (name : string) :
  build_spec ram_insts MemLayout.init (np ++ [nr ++ [name]]) =
  (build_spec ram_insts MemLayout.init (np ++ [nr]) ≫=
     fun l => add_named ram_insts l name).
Proof.
  unfold build_spec. rewrite !foldlM_snoc, bind_assoc.
  destruct (foldlM (build_row ram_insts) MemLayout.init np) as [l0|e]; [|reflexivity].
  rewrite !bind_Ok. unfold build_row. apply foldlM_snoc.
Qed.

Lemma build_spec_snoc_row (spec : list (list string)) :
  build_spec ram_insts MemLayout.init (spec ++ [[]]) =
  (build_spec ram_insts MemLayout.init spec ≫=
     fun l => Ok (MemLayout.add_row l (MemRow.init 0 0) true)).
Proof. unfold build_spec. rewrite foldlM_snoc. reflexivity. Qed.

Lemma add_named_names (l l1 : MemLayout.t) (name : string) :
  add_named ram_insts l name = Ok l1 ->
  exists np nr, names l = np ++ [nr] /\ names l1 = np ++ [nr ++ [name]].
Proof.
  intros H.
  destruct (decide (MemLayout.rows l = [])) as [E|E].
  { unfold add_named in H. rewrite E in H. discriminate. }
  destruct (exists_last E) as (pre & r & Hl).
  destruct (add_named_inv _ _ _ _ _ _ Hl H) as (b0 & lsb0 & r' & Hb0 & _ & Hbr & ->).
  exists ((fun r => Bram.instance <$> MemRow.brams r) <$> pre),
         (Bram.instance <$> MemRow.brams r).
  unfold names. rewrite Hl. simpl. rewrite !fmap_app. simpl.
  rewrite Hbr, fmap_app. simpl. rewrite (Hkeyed _ _ Hb0). split; reflexivity.
Qed.

Lemma add_row_names (l : MemLayout.t) :
  names (MemLayout.add_row l (MemRow.init 0 0) true) = names l ++ [[]].
Proof.
  destruct (add_row_rows l) as (r0 & Hr & Hb). unfold names.
  rewrite Hr, fmap_app. simpl. rewrite Hb. reflexivity.
Qed.

Lemma replayable_add_named (l l1 : MemLayout.t) (name : string) (ns rest : list string) :
  replayable ram_insts l rest ->
  add_named ram_insts l name = Ok l1 ->
  list_remove name rest = Ok ns ->
  replayable ram_insts l1 ns.
Proof.
  intros (Hb & Hnd & Hin) Hadd Hrm.
  destruct (add_named_names _ _ _ Hadd) as (np & nr & Hn & Hn1).
  assert (Hperm : concat (names l1) ++ ns ≡ₚ concat (names l) ++ rest).
  { rewrite Hn1, Hn, !concat_snoc, (list_remove_Permutation _ _ _ Hrm).
    rewrite <- !app_assoc. apply Permutation_app_head.
    apply Permutation_app_head. simpl. reflexivity. }
  split; [|split].
  - rewrite Hn1, build_spec_snoc_name, <- Hn, Hb. exact Hadd.
  - rewrite Hperm. exact Hnd.
  - intros n Hn'. apply Hin. rewrite <- Hperm. exact Hn'.
Qed.

Lemma replayable_add_row (l : MemLayout.t) (rest : list string) :
  replayable ram_insts l rest ->
  replayable ram_insts (MemLayout.add_row l (MemRow.init 0 0) true) rest.
Proof.
  intros (Hb & Hnd & Hin). unfold replayable.
  rewrite add_row_names, concat_snoc, app_nil_r, build_spec_snoc_row, Hb.
  split; [reflexivity|]. split; assumption.
Qed.

End Replay.

Section Roundtrip.
Variable error : string -> string.
Variable ram_insts : gmap string Bram.t.
Variable target_depth : Z.
Hypothesis Hkeyed : keyed_by_instance ram_insts.
Hypothesis Hfree : names_sep_free ram_insts.

Lemma after_prompt_Continue_inv (x : string) (s s' : state) :
  after_prompt error ram_insts target_depth x s = Continue s' ->
  exists name l1 ns,
    add_named ram_insts (lo s) name = Ok l1 /\
    list_remove name (inames s) = Ok ns /\
    inames s' = ns /\
    (lo s' = l1 \/ lo s' = MemLayout.add_row l1 (MemRow.init 0 0) true).
Proof.
  unfold after_prompt, report_error_exit. intros H.
  destruct (bool_decide (lower x = "q")); [discriminate|].
  destruct (_ || _); [discriminate|].
  destruct (inames s !! _) as [name|]; [|discriminate].
  destruct (add_named ram_insts (lo s) name) as [l1|] eqn:Eadd; [|discriminate].
  cbn [try] in H.
  destruct (last_row l1) as [r|]; [|discriminate]. cbn [try] in H.
  destruct (MemRow.width r) as [w|]; [|discriminate]. cbn [try] in H.
  destruct (w >? target_width); [discriminate|].
  destruct (_ ≫= _) as [open_row|]; [|discriminate]. cbn [try] in H.
  destruct open_row; cbn [inames set_lo] in H.
  - destruct (list_remove name (inames s)) as [ns|] eqn:Erm; [|discriminate].
    injection H as <-. exists name, l1, ns.
    split; [exact Eadd|]. split; [exact Erm|]. split; [reflexivity|].
    right. reflexivity.
  - destruct (list_remove name (inames s)) as [ns|] eqn:Erm; [|discriminate].
    injection H as <-. exists name, l1, ns.
    split; [exact Eadd|]. split; [exact Erm|]. split; [reflexivity|].
    left. reflexivity.
Qed.

Lemma after_prompt_replayable (x : string) (s s' : state) :
  replayable ram_insts (lo s) (inames s) ->
  after_prompt error ram_insts target_depth x s = Continue s' ->
  replayable ram_insts (lo s') (inames s').
Proof.
  intros Hinv H.
  destruct (after_prompt_Continue_inv _ _ _ H) as (name & l1 & ns & Hadd & Hrm & -> & Hlo).
  pose proof (replayable_add_named _ Hkeyed _ _ _ _ _ Hinv Hadd Hrm) as H1.
  destruct Hlo as [-> | ->]; [exact H1 | apply replayable_add_row, H1].
Qed.

Lemma interact_invariant (P : state -> Prop) :
  (forall x s s', P s -> after_prompt error ram_insts target_depth x s = Continue s' -> P s') ->
  forall stdin s s',
    P s -> interact error ram_insts target_depth stdin s = Continue s' -> P s'.
Proof.
  intros Hstep stdin. induction stdin as [|x stdin IH]; intros s s' HP; simpl;
    destruct (loop_test target_depth s) as [[|]|e] eqn:Et; simpl; try discriminate.
  - destruct (before_prompt error ram_insts s); discriminate.
  - intros [= <-]. exact HP.
  - destruct (before_prompt error ram_insts s) as [s1|e s1] eqn:Eb; simpl;
      [|discriminate].
    apply before_prompt_Continue in Eb. subst s1.
    destruct (after_prompt error ram_insts target_depth x s) as [s2|e s2] eqn:Ea;
      simpl; [|discriminate].
    apply IH. eapply Hstep; [exact HP | exact Ea].
  - intros [= <-]. exact HP.
Qed.

Lemma valid_row_nonempty (r : MemRow.t) :
  MemRow.valid r target_width = Ok true -> MemRow.brams r <> [].
Proof.
  intros H E. unfold MemRow.valid, MemRow.width in H. rewrite E in H. discriminate.
Qed.

(** A replayable layout whose rows are not empty is what its own
    [instance_spec] selects. *)
Lemma assemble_replays (l : MemLayout.t) (rest stdin : list string) :
  (1 < length (sorted_keys ram_insts))%nat ->
  replayable ram_insts l rest ->
  names l <> [] ->
  Forall (fun ns => ns <> []) (names l) ->
  parse_spec (MemLayout.instance_spec l) = names l /\
  assemble error ram_insts (Some (MemLayout.instance_spec l)) target_depth stdin =
  Continue (set_prompt_user (set_lo (init_state (sorted_keys ram_insts)) l) false).
Proof.
  intros Hlen (Hb & Hnd & Hin) Hne Hrows.
  assert (Hparse : parse_spec (MemLayout.instance_spec l) = names l).
  { rewrite instance_spec_names. apply parse_spec_join; [exact Hne|].
    rewrite Forall_forall in Hrows. apply Forall_forall. intros ns Hns.
    split; [apply Hrows, Hns|]. apply Forall_forall. intros n Hn.
    apply Hfree, Hin, elem_of_app. left. apply elem_of_concat. exists ns.
    split; assumption. }
  split; [exact Hparse|].
  rewrite assemble_spec by exact Hlen. unfold select_spec. rewrite Hparse.
  apply NoDup_app in Hnd as (Hnd & _ & _).
  apply has_duplicates_false in Hnd. rewrite Hnd. cbn [and_then].
  rewrite check_names_ok.
  2:{ intros i Hi. apply elem_of_sorted_keys, Hin, elem_of_app. left. exact Hi. }
  cbn [and_then]. cbn [lo init_state]. rewrite Hb. cbn [try and_then].
  apply prompt_loop_no_prompt. reflexivity.
Qed.

End Roundtrip.

Section RoundtripPaths.
Variable error : string -> string.
Variable ram_insts : gmap string Bram.t.
Variable target_depth : Z.
Hypothesis Hkeyed : keyed_by_instance ram_insts.
Hypothesis Hfree : names_sep_free ram_insts.

Lemma show_lines_not_Continue (ns : list string) (s s' : state) :
  show_lines ram_insts ns s <> Continue s'.
Proof.
  revert s. induction ns as [|n ns IH]; intros s; simpl; [discriminate|].
  destruct (instance_line ram_insts "  " n); simpl; [apply IH | discriminate].
Qed.

Lemma check_names_Continue_mem (l : list string) (s s' : state) :
  check_names error ram_insts l s = Continue s' ->
  forall i, i ∈ l -> i ∈ inames s.
Proof.
  induction l as [|j l IH]; simpl; intros H i Hi; [inversion Hi|].
  destruct (bool_decide (j ∈ inames s)) eqn:E.
  - apply bool_decide_eq_true in E.
    apply elem_of_cons in Hi as [->|Hi]; [exact E | apply (IH H), Hi].
  - exfalso. eapply show_lines_not_Continue, H.
Qed.

Lemma select_spec_Continue_inv (ram_inst : string) (s s1 : state) :
  select_spec error ram_insts ram_inst s = Continue s1 ->
  NoDup (concat (parse_spec ram_inst)) /\
  (forall i, i ∈ concat (parse_spec ram_inst) -> i ∈ inames s) /\
  exists l, build_spec ram_insts (lo s) (parse_spec ram_inst) = Ok l /\
    s1 = set_prompt_user (set_lo s l) false.
Proof.
  unfold select_spec. intros H.
  destruct (has_duplicates (concat (parse_spec ram_inst))) eqn:Hd.
  - exfalso. cbn [and_then] in H.
    destruct (show_instances ram_insts _) as [s2|e s2] eqn:E; [|discriminate].
    eapply show_lines_not_Continue, E.
  - cbn [and_then] in H.
    destruct (check_names error ram_insts _ s) as [s2|e s2] eqn:E; [|discriminate].
    pose proof (check_names_Continue_mem _ _ _ E) as Hmem.
    apply check_names_Continue in E. subst s2. cbn [and_then] in H.
    destruct (build_spec ram_insts (lo s) (parse_spec ram_inst)) as [l|] eqn:Eb;
      [|discriminate].
    injection H as <-. split; [apply has_duplicates_false, Hd|].
    split; [exact Hmem|]. exists l. split; reflexivity.
Qed.

Lemma roundtrip_spec_path (ram_inst : string) (stdin stdin' : list string) (s : state) :
  (1 < length (sorted_keys ram_insts))%nat ->
  assemble error ram_insts (Some ram_inst) target_depth stdin = Continue s ->
  parse_spec (MemLayout.instance_spec (lo s)) = names (lo s) /\
  exists s',
    assemble error ram_insts (Some (MemLayout.instance_spec (lo s))) target_depth stdin' =
      Continue s' /\ lo s' = lo s.
Proof.
  intros Hlen H. rewrite assemble_spec in H by exact Hlen.
  destruct (select_spec error ram_insts ram_inst _) as [s1|e s1] eqn:Es; [|discriminate].
  destruct (select_spec_Continue_inv _ _ _ Es) as (Hnd & Hmem & l & Hl & ->).
  cbn [and_then] in H. rewrite prompt_loop_no_prompt in H by reflexivity.
  injection H as <-. cbn [lo set_prompt_user set_lo init_state] in *.
  pose proof (build_spec_names _ Hkeyed _ _ Hl) as Hnames.
  destruct (parse_spec_nonempty ram_inst) as [Hne Hrows].
  destruct (assemble_replays error ram_insts target_depth Hfree l [] stdin' Hlen)
    as [Hp Ha].
  - split; [rewrite Hnames; exact Hl|]. rewrite app_nil_r, Hnames.
    split; [exact Hnd|]. intros n Hn. apply elem_of_sorted_keys, Hmem, Hn.
  - rewrite Hnames. exact Hne.
  - rewrite Hnames. exact Hrows.
  - split; [exact Hp|]. eexists. split; [exact Ha | reflexivity].
Qed.

Lemma start_state_replayable :
  replayable ram_insts (lo (start_state ram_insts)) (inames (start_state ram_insts)).
Proof.
  split; [reflexivity|]. cbn. split; [apply NoDup_sorted_keys|].
  intros n Hn. apply elem_of_sorted_keys, Hn.
Qed.

Lemma roundtrip_prompt_path (stdin stdin' : list string) (s : state) :
  (1 < length (sorted_keys ram_insts))%nat ->
  assemble error ram_insts None target_depth stdin = Continue s ->
  parse_spec (MemLayout.instance_spec (lo s)) = names (lo s) /\
  exists s',
    assemble error ram_insts (Some (MemLayout.instance_spec (lo s))) target_depth stdin' =
      Continue s' /\ lo s' = lo s.
Proof.
  intros Hlen H. rewrite assemble_interactive in H by exact Hlen.
  pose proof (interact_invariant error ram_insts target_depth
                (fun s => replayable ram_insts (lo s) (inames s) /\ names (lo s) <> []))
    as Hinv.
  destruct (Hinv) with (stdin := stdin) (s := start_state ram_insts) (s' := s)
    as [Hrep Hne].
  - intros x s0 s1 [Hr _] Hstep. split; [eapply after_prompt_replayable; eassumption|].
    destruct (after_prompt_Continue_inv _ _ _ _ _ _ Hstep)
      as (name & l1 & ns & Hadd & _ & _ & Hlo).
    destruct (add_named_names _ Hkeyed _ _ _ Hadd) as (np & nr & _ & Hn1).
    destruct Hlo as [-> | ->]; [|rewrite add_row_names]; rewrite Hn1;
      intros E; apply app_eq_nil in E as [_ E]; discriminate.
  - split; [apply start_state_replayable | discriminate].
  - exact H.
  - apply interact_Continue in H as [Ht Hp].
    unfold loop_test in Ht. rewrite Hp in Ht. cbn in Ht.
    inv_bind Ht. destruct a; [|discriminate].
    apply (layout_valid_rows (lo s) target_depth target_width) in Ha as [Hv _].
    destruct (assemble_replays error ram_insts target_depth Hfree (lo s) (inames s)
                stdin' Hlen Hrep Hne) as [Hp' Ha'].
    + unfold names. apply Forall_fmap. eapply Forall_impl; [exact Hv|].
      intros r Hr E. apply fmap_nil_inv in E.
      exact (valid_row_nonempty r Hr E).
    + split; [exact Hp'|]. eexists. split; [exact Ha' | reflexivity].
Qed.

Lemma roundtrip_single_path (ram_inst : option string) (stdin stdin' : list string)
    (s : state) :
  length (sorted_keys ram_insts) = 1%nat ->
  assemble error ram_insts ram_inst target_depth stdin = Continue s ->
  parse_spec (MemLayout.instance_spec (lo s)) = names (lo s) /\
  exists s',
    assemble error ram_insts (Some (MemLayout.instance_spec (lo s))) target_depth stdin' =
      Continue s' /\ lo s' = lo s.
Proof.
  intros Hlen H. unfold assemble, select in *. cbn [inames init_state] in *.
  rewrite bool_decide_eq_false_2 in * by lia.
  rewrite bool_decide_eq_true_2 in * by exact Hlen.
  destruct (sorted_keys ram_insts !! 0%nat) as [n|] eqn:En; [|discriminate].
  unfold getitem in *.
  destruct (ram_insts !! n) as [b|] eqn:Eb; [|discriminate]. rewrite bind_Ok in *.
  change (MemLayout.add_row (lo (init_state (sorted_keys ram_insts)))
            (MemRow.init 0 0) true) with (MemLayout.mk [MemRow.init 0 0]) in *.
  destruct (add_bram_at (MemLayout.mk [MemRow.init 0 0]) 0 b) as [l|] eqn:El;
    [|discriminate].
  cbn [try and_then] in *.
  rewrite prompt_loop_no_prompt in * by reflexivity.
  injection H as <-. cbn [lo set_prompt_user set_lo].
  split; [|eexists; split; reflexivity].
  unfold add_bram_at in El. cbn [MemLayout.rows lookup list_lookup] in El.
  inv_bind El. injection El as <-.
  destruct (add_bram_shape _ _ _ Ha) as (l0 & Hbr & _).
  rewrite instance_spec_names. unfold names. cbn.
  rewrite Hbr. cbn. rewrite (Hkeyed _ _ Eb).
  apply (parse_spec_join [[n]]); [discriminate|].
  repeat constructor; [discriminate| apply Hfree; rewrite Eb; eexists; reflexivity ..].
Qed.

End RoundtripPaths.

(** C5, amended.  When no instance name of the discovered mapping holds a
    comma or a colon, the layout that the driver puts together, by any of
    its three paths, comes back from its own [instance_spec]: the spec
    parses to the layout's names, row by row, and the driver run with it
    against the same mapping builds the same layout, whatever is typed. *)
Theorem instance_spec_roundtrip error ram_insts ram_inst target_depth stdin s :
  keyed_by_instance ram_insts ->
  names_sep_free ram_insts ->
  assemble error ram_insts ram_inst target_depth stdin = Continue s ->
  parse_spec (MemLayout.instance_spec (lo s)) = names (lo s) /\
  forall stdin', exists s',
    assemble error ram_insts (Some (MemLayout.instance_spec (lo s))) target_depth stdin' =
      Continue s' /\
    lo s' = lo s.
Proof.
  intros Hkeyed Hfree H.
  assert (Hboth : forall stdin',
    parse_spec (MemLayout.instance_spec (lo s)) = names (lo s) /\
    exists s',
      assemble error ram_insts (Some (MemLayout.instance_spec (lo s))) target_depth stdin' =
        Continue s' /\ lo s' = lo s).
  { intros stdin'.
    destruct (length (sorted_keys ram_insts)) as [|[|k]] eqn:Elen.
    - unfold assemble in H. cbn [inames init_state] in H.
      rewrite bool_decide_eq_true_2 in H by exact Elen. discriminate.
    - eapply roundtrip_single_path; eassumption.
    - destruct ram_inst as [spec|].
      + eapply roundtrip_spec_path; [eassumption .. | lia | eassumption].
      + eapply roundtrip_prompt_path; [eassumption .. | lia | eassumption]. }
  split; [apply (Hboth []) | intros stdin'; apply (Hboth stdin')].
Qed.

Lemma two_nines_keyed : keyed_by_instance two_nines.
Proof.
  intros k b H. unfold two_nines in H.
  apply lookup_insert_Some in H as [[<- <-]|[_ H]]; [reflexivity|].
  apply lookup_insert_Some in H as [[<- <-]|[_ H]]; [reflexivity|].
  rewrite lookup_empty in H. discriminate.
Defined.

Lemma two_nines_sep_free : names_sep_free two_nines.
Proof.
  intros k [b H]. unfold two_nines in H.
  apply lookup_insert_Some in H as [[<- _]|[_ H]]; [split; reflexivity|].
  apply lookup_insert_Some in H as [[<- _]|[_ H]]; [split; reflexivity|].
  rewrite lookup_empty in H. discriminate.
Defined.

Lemma instance_spec_roundtrip_witness :
  exists s,
    assemble id two_nines None 1024 ["1"; "1"] = Continue s /\
    MemLayout.instance_spec (lo s) = "a,b" /\
    exists s', assemble id two_nines (Some "a,b") 1024 [] = Continue s' /\ lo s' = lo s.
Proof.
  destruct (assemble id two_nines None 1024 ["1"; "1"]) as [s|e s] eqn:E;
    [|vm_compute in E; discriminate].
  exists s. split; [reflexivity|].
  destruct (instance_spec_roundtrip _ _ _ _ _ _ two_nines_keyed two_nines_sep_free E)
    as [_ H].
  vm_compute in E. injection E as <-.
  split; [reflexivity|]. exact (H []).
Defined.

Lemma comma_names_discovered :
  Discovery.find_ram_instances Z.log2 xdl_comma_names = Ok comma_names.
Proof. vm_compute. reflexivity. Qed.

(** C5 as stated fails when an instance name holds a separator: the
    layout with the single block "a,b" prints the spec "a,b", which
    parses to the two names "a" and "b"; the driver run with it ends with
    status 1 and no row. *)
Lemma instance_spec_with_comma_fails :
  keyed_by_instance comma_names /\
  exists s,
    assemble id comma_names None 1024 ["1"] = Continue s /\
    names (lo s) = [["a,b"]] /\
    parse_spec (MemLayout.instance_spec (lo s)) = [["a"; "b"]] /\
    exists s',
      assemble id comma_names (Some (MemLayout.instance_spec (lo s))) 1024 [] =
        Abort (SystemExit 1) s' /\
      MemLayout.rows (lo s') = [].
Proof.
  split.
  - intros k b H. unfold comma_names in H.
    apply lookup_insert_Some in H as [[<- <-]|[_ H]]; [reflexivity|].
    apply lookup_insert_Some in H as [[<- <-]|[_ H]]; [reflexivity|].
    rewrite lookup_empty in H. discriminate.
  - eexists. split; [vm_compute; reflexivity|].
    split; [reflexivity|]. split; [reflexivity|].
    eexists. split; [vm_compute; reflexivity | reflexivity].
Qed.

(** ** Instance discovery *)

Lemma foldlM_invariant {A B : Type} (P : A -> Prop) (f : A -> B -> result A) :
  (forall a x a', P a -> f a x = Ok a' -> P a') ->
  forall l a a', P a -> foldlM f a l = Ok a' -> P a'.
Proof.
  intros Hstep l. induction l as [|x l IH]; intros a a' HP H; simpl in H.
  - injection H as <-. exact HP.
  - inv_bind H. eapply IH; [eapply Hstep; eassumption | exact H].
Qed.

Section Keyed.
Variable int_log2 : Z -> Z.

Lemma set_dims_keyed (m m' : gmap string Bram.t) (last_bram : option string)
    (d w : val) :
  keyed_by_instance m ->
  Discovery.set_dims m last_bram d w = Ok m' ->
  keyed_by_instance m'.
Proof.
  intros Hm H. unfold Discovery.set_dims in H.
  destruct last_bram as [k|]; [|discriminate].
  inv_bind H. injection H as <-. unfold getitem in Ha.
  destruct (m !! k) as [b|] eqn:Eb; [|discriminate]. injection Ha as <-.
  intros k' b' Hk'. apply lookup_insert_Some in Hk' as [[<- <-]|[_ Hk']].
  - simpl. apply Hm, Eb.
  - apply Hm, Hk'.
Qed.

Lemma cfg_rule_keyed (r : Regex.re) (big small : string) (cap_big cap_small : Z)
    (primitive l : string) (st st' : Discovery.state) :
  keyed_by_instance st.1 ->
  Discovery.cfg_rule int_log2 r big small cap_big cap_small primitive l st = Ok st' ->
  keyed_by_instance st'.1.
Proof.
  intros Hm H. unfold Discovery.cfg_rule in H.
  destruct (Regex.re_search r l) as [[|g [|g' gs]]|]; try (injection H as <-; exact Hm).
  inv_bind H. destruct a as [d w]. inv_bind H. injection H as <-.
  eapply set_dims_keyed; eassumption.
Qed.

Lemma scan_line_keyed (st st' : Discovery.state) (l : string) :
  keyed_by_instance st.1 ->
  Discovery.scan_line int_log2 st l = Ok st' ->
  keyed_by_instance st'.1.
Proof.
  intros Hm H. unfold Discovery.scan_line in H. inv_bind H.
  assert (Ha' : keyed_by_instance a.1).
  { destruct st.2 as [last_bram|] eqn:E2; [|injection Ha as <-; exact Hm].
    inv_bind Ha. inv_bind Ha. inv_bind Ha.
    eapply cfg_rule_keyed; [|exact Ha].
    eapply cfg_rule_keyed; [|exact Ha2].
    destruct (Regex.re_search Discovery.cfg_s3_re l) as [[|g1 [|g2 [|g3 gs]]]|];
      try (injection Ha1 as <-; exact Hm).
    inv_bind Ha1. injection Ha1 as <-. eapply set_dims_keyed; eassumption. }
  destruct (Regex.re_match Discovery.inst_re l) as [[|g1 [|g2 [|g3 [|g4 gs]]]]|];
    try (injection H as <-; exact Ha').
  injection H as <-. intros k b Hk. simpl in Hk.
  apply lookup_insert_Some in Hk as [[<- <-]|[_ Hk]]; [reflexivity | apply Ha', Hk].
Qed.

(** [find_ram_instances] stores every block under its instance name. *)
Lemma find_ram_instances_keyed (lines : list string) (m : gmap string Bram.t) :
  Discovery.find_ram_instances int_log2 lines = Ok m -> keyed_by_instance m.
Proof.
  unfold Discovery.find_ram_instances. intros H. inv_bind H. injection H as <-.
  apply (foldlM_invariant (fun st : Discovery.state => keyed_by_instance st.1)
           (Discovery.scan_line int_log2)) with (l := lines) (a := (∅, None));
    [intros st l st' Hst Hl; exact (scan_line_keyed st st' l Hst Hl) | | exact Ha].
  intros k b Hk. simpl in Hk. rewrite lookup_empty in Hk. discriminate.
Qed.

End Keyed.

Lemma spartan6_dimensions_are_integers :
  exists m, Discovery.find_ram_instances Z.log2 xdl_spartan6 = Ok m /\
    m !! "rom/ram_1024_x_18" =
    Some (Bram.mk "rom/ram_1024_x_18" "RAMB16BWER" "X0Y2" (VInt 1024) (VInt 18) 0).
Proof. eexists. split; [vm_compute; reflexivity | reflexivity]. Qed.

(** C8 fails on the Spartan-3 rule.  For a Spartan-3 netlist the depth
    and the width of the block are left as the matched text, "1024" and
    "18", where the Spartan-6 and 7-series rules convert with [int];
    [add_bram] then raises [TypeError] on the block. *)
Theorem spartan3_dimensions_are_strings (int_log2 : Z -> Z) :
  exists m b,
    Discovery.find_ram_instances int_log2 xdl_spartan3 = Ok m /\
    m !! "rom/ram_1024_x_18" = Some b /\
    b = Bram.mk "rom/ram_1024_x_18" "RAMB16_S18" "X0Y2" (VStr "1024") (VStr "18") 0 /\
    (forall n, Bram.depth b <> VInt n) /\
    (forall n, Bram.width b <> VInt n) /\
    MemRow.add_bram (MemRow.init 0 0) b = Raise TypeError.
Proof.
  eexists _, _. split; [vm_compute; reflexivity|].
  split; [reflexivity|]. split; [reflexivity|].
  split; [discriminate|]. split; [discriminate | reflexivity].
Qed.

(** * Further properties of the code *)

(** ** Rows follow one another *)

Lemma next_start_snoc (a : Z) (rs : list MemRow.t) (r : MemRow.t) :
  next_start a (rs ++ [r]) = MemRow.end_ r + 1.
Proof. unfold next_start. rewrite last_snoc. reflexivity. Qed.

Lemma next_start_cons (a : Z) (x : MemRow.t) (rs : list MemRow.t) :
  next_start a (x :: rs) = next_start (MemRow.end_ x + 1) rs.
Proof.
  unfold next_start. destruct rs as [|t rs]; [reflexivity|].
  change (last (x :: t :: rs)) with (last (t :: rs)).
  destruct (last (t :: rs)) eqn:E; [reflexivity|].
  apply last_None in E. discriminate.
Qed.

Lemma contiguous_from_snoc (a : Z) (pre : list MemRow.t) (r : MemRow.t) :
  contiguous_from a (pre ++ [r]) <->
  contiguous_from a pre /\ MemRow.start r = next_start a pre.
Proof.
  revert a. induction pre as [|x pre IH]; intros a.
  - simpl. unfold next_start. simpl. tauto.
  - change ((x :: pre) ++ [r]) with (x :: (pre ++ [r])). cbn [contiguous_from].
    rewrite IH, next_start_cons. tauto.
Qed.

Lemma contiguous_from_sum (a : Z) (rs : list MemRow.t) :
  contiguous_from a rs ->
  sumZ ((fun r => MemRow.end_ r - MemRow.start r + 1) <$> rs) = next_start a rs - a.
Proof.
  induction rs as [|r rs IH] using rev_ind; intros H.
  - unfold next_start. simpl. lia.
  - apply contiguous_from_snoc in H as [H1 H2].
    rewrite fmap_app, sumZ_app, (IH H1), next_start_snoc. simpl. lia.
Qed.

Lemma contiguous_from_lookup (a : Z) (rs : list MemRow.t) :
  contiguous_from a rs ->
  (forall r, head rs = Some r -> MemRow.start r = a) /\
  (forall i r r', rs !! i = Some r -> rs !! S i = Some r' ->
     MemRow.start r' = MemRow.end_ r + 1).
Proof.
  revert a. induction rs as [|x rs IH]; intros a H.
  - split; [discriminate | intros i r r' Hi; destruct i; discriminate].
  - destruct H as [Hx H]. destruct (IH _ H) as [IH1 IH2]. split.
    + intros r [= <-]. exact Hx.
    + intros [|i] r r' Hi Hi'.
      * injection Hi as <-. apply IH1. destruct rs; [discriminate|].
        simpl in *. congruence.
      * apply (IH2 i); assumption.
Qed.

Lemma add_row_contiguous (l : MemLayout.t) :
  contiguous_from 0 (MemLayout.rows l) ->
  contiguous_from 0 (MemLayout.rows (MemLayout.add_row l (MemRow.init 0 0) true)).
Proof.
  intros H. unfold MemLayout.add_row.
  destruct (last (MemLayout.rows l)) as [x|] eqn:E; cbn [MemLayout.rows];
    apply contiguous_from_snoc; (split; [exact H|]);
    unfold next_start; rewrite E; simpl; lia.
Qed.

Section Contiguous.
Variable error : string -> string.
Variable ram_insts : gmap string Bram.t.
Variable target_depth : Z.

Lemma add_named_contiguous (l l1 : MemLayout.t) (name : string) :
  contiguous_from 0 (MemLayout.rows l) ->
  add_named ram_insts l name = Ok l1 ->
  contiguous_from 0 (MemLayout.rows l1).
Proof.
  intros Hc H.
  destruct (decide (MemLayout.rows l = [])) as [E|E].
  { unfold add_named in H. rewrite E in H. discriminate. }
  destruct (exists_last E) as (pre & r & Hl).
  destruct (add_named_inv _ _ _ _ _ _ Hl H) as (b0 & lsb0 & r' & _ & Hadd & _ & ->).
  destruct (add_bram_shape _ _ _ Hadd) as (l0 & _ & Hstart).
  rewrite Hl in Hc. apply contiguous_from_snoc in Hc as [Hc1 Hc2].
  cbn [MemLayout.rows]. apply contiguous_from_snoc. split; [exact Hc1|]. congruence.
Qed.

Lemma build_spec_contiguous (spec : list (list string)) (l l' : MemLayout.t) :
  contiguous_from 0 (MemLayout.rows l) ->
  build_spec ram_insts l spec = Ok l' ->
  contiguous_from 0 (MemLayout.rows l').
Proof.
  unfold build_spec.
  apply (foldlM_invariant (fun l => contiguous_from 0 (MemLayout.rows l))).
  intros l0 names l1 H0 H1. unfold build_row in H1.
  revert H1.
  apply (foldlM_invariant (fun l => contiguous_from 0 (MemLayout.rows l))).
  - intros a x a' Ha Hx. eapply add_named_contiguous; eassumption.
  - apply add_row_contiguous, H0.
Qed.

Lemma after_prompt_contiguous (x : string) (s s' : state) :
  contiguous_from 0 (MemLayout.rows (lo s)) ->
  after_prompt error ram_insts target_depth x s = Continue s' ->
  contiguous_from 0 (MemLayout.rows (lo s')).
Proof.
  intros Hc H.
  destruct (after_prompt_Continue_inv _ _ _ _ _ _ H)
    as (name & l1 & ns & Hadd & _ & _ & Hlo).
  pose proof (add_named_contiguous _ _ _ Hc Hadd) as H1.
  destruct Hlo as [-> | ->]; [exact H1 | apply add_row_contiguous, H1].
Qed.

Lemma assemble_contiguous (ram_inst : option string) (stdin : list string) (s : state) :
  assemble error ram_insts ram_inst target_depth stdin = Continue s ->
  contiguous_from 0 (MemLayout.rows (lo s)).
Proof.
  unfold assemble. destruct (bool_decide _); [discriminate|].
  destruct (select error ram_insts ram_inst _) as [s1|e s1] eqn:Es; [|discriminate].
  cbn [and_then]. intros H.
  assert (H1 : contiguous_from 0 (MemLayout.rows (lo s1))).
  { unfold select in Es. cbn [inames init_state lo] in Es.
    destruct (bool_decide (length (sorted_keys ram_insts) = 1%nat)).
    - destruct (sorted_keys ram_insts !! 0%nat) as [n|]; [|discriminate].
      destruct (getitem ram_insts n) as [b|]; [|discriminate].
      rewrite bind_Ok in Es.
      change (MemLayout.add_row MemLayout.init (MemRow.init 0 0) true)
        with (MemLayout.mk [MemRow.init 0 0]) in Es.
      destruct (add_bram_at (MemLayout.mk [MemRow.init 0 0]) 0 b) as [l|] eqn:El;
        [|discriminate].
      cbn [try] in Es. injection Es as <-.
      unfold add_bram_at in El. cbn [MemLayout.rows lookup list_lookup] in El.
      inv_bind El. injection El as <-.
      destruct (add_bram_shape _ _ _ Ha) as (l0 & _ & Hstart).
      cbn. split; [exact Hstart | exact I].
    - destruct ram_inst as [spec|].
      + unfold select_spec in Es.
        destruct (has_duplicates _).
        * cbn [and_then] in Es.
          destruct (show_instances ram_insts _) as [s2|e2 s2] eqn:E2; [|discriminate].
          exfalso. eapply show_lines_not_Continue, E2.
        * cbn [and_then] in Es.
          destruct (check_names error ram_insts _ _) as [s2|e2 s2] eqn:E2; [|discriminate].
          apply check_names_Continue in E2. subst s2. cbn [and_then lo init_state] in Es.
          destruct (build_spec ram_insts MemLayout.init (parse_spec spec)) as [l|] eqn:El;
            [|discriminate].
          injection Es as <-. cbn [lo set_prompt_user set_lo].
          eapply build_spec_contiguous; [|exact El]. exact I.
      + injection Es as <-. exact I. }
  unfold prompt_loop in H.
  revert H. apply (interact_invariant error ram_insts target_depth
                     (fun s => contiguous_from 0 (MemLayout.rows (lo s)))).
  - intros x s0 s2 H0 H2. eapply after_prompt_contiguous; eassumption.
  - destruct (prompt_user s1); [apply add_row_contiguous|]; exact H1.
Qed.

End Contiguous.

(** X1.  In the layout the driver puts together, by any path, the first
    row starts at address 0 and every other row starts right after the end
    of the row before it. *)
Theorem assembled_rows_follow error ram_insts ram_inst target_depth stdin s :
  assemble error ram_insts ram_inst target_depth stdin = Continue s ->
  (forall r, head (MemLayout.rows (lo s)) = Some r -> MemRow.start r = 0) /\
  (forall i r r',
     MemLayout.rows (lo s) !! i = Some r ->
     MemLayout.rows (lo s) !! S i = Some r' ->
     MemRow.start r' = MemRow.end_ r + 1).
Proof.
  intros H. apply contiguous_from_lookup.
  eapply assemble_contiguous, H.
Qed.

Lemma assembled_rows_follow_witness :
  exists s r r',
    assemble id two_nines (Some "a:b") 2048 [] = Continue s /\
    MemLayout.rows (lo s) = [r; r'] /\
    MemRow.start r = 0 /\ MemRow.start r' = MemRow.end_ r + 1.
Proof.
  eexists _, _, _. split; [vm_compute; reflexivity|]. split; [reflexivity|].
  destruct (assembled_rows_follow id two_nines (Some "a:b") 2048 [] _ eq_refl)
    as [H1 H2].
  split; [apply H1; reflexivity | apply (H2 0%nat); reflexivity].
Defined.

(** X2.  Whenever the BMM file is written, whatever the path, the depths
    [end - start + 1] of the layout's rows add up to the required depth:
    the test on the last row's end stands for the sum of the depths. *)
Theorem written_layout_depth_sum error ram_insts ram_inst mem_data stdin ok e s :
  main_body error ram_insts ram_inst mem_data stdin ok = Abort e s ->
  is_Some (bmm_file s) ->
  sumZ ((fun r => MemRow.end_ r - MemRow.start r + 1) <$> MemLayout.rows (lo s)) =
    required_depth mem_data /\
  MemLayout.sum_depth (MemLayout.rows (lo s)) = required_depth mem_data.
Proof.
  unfold main_body. intros Hmain Hfile.
  pose proof (assemble_frame error ram_insts (required_depth mem_data) ram_inst stdin)
    as Hnone.
  destruct (assemble error ram_insts ram_inst (required_depth mem_data) stdin)
    as [s1|e1 s1] eqn:Ea; simpl in Hmain, Hnone.
  2:{ injection Hmain as _ <-. rewrite Hnone in Hfile. destruct Hfile; discriminate. }
  destruct (finish_wrote _ _ _ _ _ _ Hnone Hmain Hfile) as (Hlo & _ & rl & Hlast & Hend).
  apply assemble_contiguous in Ea. apply contiguous_from_sum in Ea.
  unfold next_start in Ea. rewrite Hlast in Ea.
  unfold MemLayout.sum_depth. rewrite foldl_add_sumZ. unfold MemRow.depth.
  rewrite Hlo, Ea. lia.
Qed.

Lemma written_layout_depth_sum_witness :
  exists e s,
    main_body id two_nines (Some "a:b") (replicate 2049 "0") [] true = Abort e s /\
    MemLayout.sum_depth (MemLayout.rows (lo s)) = 2048.
Proof.
  eexists _, _. split; [vm_compute; reflexivity|].
  destruct (written_layout_depth_sum id two_nines (Some "a:b") (replicate 2049 "0") []
              true _ _ eq_refl) as [_ H].
  - eexists. reflexivity.
  - exact H.
Defined.

(** ** Bit lanes of a row *)

Lemma int_widths_lookup (bs : list Bram.t) (ws : list Z) (i : nat) (b : Bram.t) (w : Z) :
  int_widths bs ws -> bs !! i = Some b -> ws !! i = Some w -> Bram.width b = VInt w.
Proof.
  unfold int_widths. intros H Hb Hw.
  assert (H3 : (Bram.width <$> bs) !! i = Some (Bram.width b))
    by (rewrite list_lookup_fmap, Hb; reflexivity).
  rewrite H, list_lookup_fmap, Hw in H3. simpl in H3. congruence.
Qed.

Lemma placed_widths (top : Z) (bs : list Bram.t) (ws : list Z) :
  length bs = length ws ->
  Bram.width <$> placed top bs ws = Bram.width <$> bs.
Proof.
  revert top ws. induction bs as [|b bs IH]; intros top [|w ws] H; simpl in *;
    try discriminate; [reflexivity|].
  rewrite IH by lia. reflexivity.
Qed.

(** X3.  In a row built by [add_bram] the lanes touch: the top bit of
    each block is one below the low bit of the block added before it.
    The low bit of the last block is 18 minus the width of the row, so
    the row is valid for 18 exactly when its last block ends at bit 0. *)
Theorem built_row_lanes (s e d1 : Z) (b1 : Bram.t) (bs : list Bram.t) (ws : list Z) :
  int_widths (b1 :: bs) ws ->
  Bram.depth b1 = VInt d1 ->
  exists r,
    add_brams (MemRow.init s e) (b1 :: bs) = Ok r /\
    (forall i b b',
       MemRow.brams r !! i = Some b -> MemRow.brams r !! S i = Some b' ->
       Bram.msb b' = Ok (Bram.lsb b - 1)) /\
    (exists bl, last (MemRow.brams r) = Some bl /\ Bram.lsb bl = 18 - sumZ ws /\
       (MemRow.valid r 18 = Ok true <-> Bram.lsb bl = 0)).
Proof.
  intros Hw Hd. pose proof (int_widths_length _ _ Hw) as Hlen.
  eexists. split; [apply add_brams_init; eassumption|].
  cbn [MemRow.brams]. split.
  - intros i b b' Hi Hi'.
    destruct (placed_lookup _ _ _ _ _ Hi) as (b0 & w & _ & H2 & ->).
    destruct (placed_lookup _ _ _ _ _ Hi') as (b0' & w' & H1' & H2' & ->).
    unfold Bram.msb. cbn [Bram.width Bram.lsb Bram.set_lsb].
    rewrite (int_widths_lookup _ _ _ _ _ Hw H1' H2'). simpl. f_equal.
    rewrite (take_S_r ws (S i) w' H2'), sumZ_app. simpl. lia.
  - destruct (last (placed 18 (b1 :: bs) ws)) as [bl|] eqn:El.
    2:{ apply last_None in El. apply (f_equal length) in El.
        rewrite placed_length in El by exact Hlen. discriminate. }
    exists bl. split; [reflexivity|].
    assert (Hbl : Bram.lsb bl = 18 - sumZ ws).
    { rewrite last_lookup in El.
      destruct (placed_lookup _ _ _ _ _ El) as (b0 & w & _ & _ & ->).
      cbn [Bram.lsb Bram.set_lsb]. rewrite take_ge; [reflexivity|].
      rewrite placed_length by exact Hlen. rewrite <- Hlen. simpl. lia. }
    split; [exact Hbl|].
    unfold MemRow.valid, MemRow.width, py_sum. cbn [MemRow.brams].
    rewrite placed_widths by exact Hlen. rewrite Hw, py_sum_from_ints. simpl.
    rewrite Hbl. split.
    + intros [= E]. apply Z.eqb_eq in E. lia.
    + intros E. f_equal. apply Z.eqb_eq. lia.
Qed.

Lemma built_row_lanes_witness :
  exists r,
    add_brams (MemRow.init 0 0) [blk "a" 1024 9; blk "b" 1024 9] = Ok r /\
    (forall i b b',
       MemRow.brams r !! i = Some b -> MemRow.brams r !! S i = Some b' ->
       Bram.msb b' = Ok (Bram.lsb b - 1)).
Proof.
  destruct (built_row_lanes 0 0 1024 (blk "a" 1024 9) [blk "b" 1024 9] [9; 9]
              eq_refl eq_refl) as (r & Hr & Hl & _).
  exists r. split; assumption.
Defined.

(** ** The constructor of a row with blocks *)

Lemma stacked_snoc (acc w : Z) (bs : list Bram.t) (ws : list Z) (b : Bram.t) :
  length bs = length ws ->
  stacked acc (bs ++ [b]) (ws ++ [w]) =
  stacked (acc + w) bs ws ++ [Bram.set_lsb b acc].
Proof.
  revert ws. induction bs as [|x bs IH]; intros [|v ws] H; simpl in *;
    try discriminate.
  - f_equal. f_equal. lia.
  - rewrite IH by lia. rewrite sumZ_app. simpl. f_equal. f_equal. lia.
Qed.

Lemma stacked_lookup (acc : Z) (bs : list Bram.t) (ws : list Z) (i : nat) (b : Bram.t) :
  stacked acc bs ws !! i = Some b ->
  exists b0, bs !! i = Some b0 /\ b = Bram.set_lsb b0 (acc + sumZ (drop (S i) ws)).
Proof.
  revert ws i. induction bs as [|b0 bs IH]; intros [|w ws] i H; simpl in H;
    try discriminate.
  destruct i as [|i]; simpl in H.
  - injection H as <-. exists b0. split; reflexivity.
  - destruct (IH _ _ H) as (b0' & H1 & ->). exists b0'. split; [exact H1|reflexivity].
Qed.

Lemma stacked_length (acc : Z) (bs : list Bram.t) (ws : list Z) :
  length bs = length ws -> length (stacked acc bs ws) = length bs.
Proof.
  revert ws. induction bs as [|b bs IH]; intros [|w ws] H; simpl in *;
    try discriminate; [reflexivity|]. f_equal. apply IH. lia.
Qed.

Lemma stack_up_reverse (bs : list Bram.t) (ws : list Z) (acc : Z) :
  int_widths bs ws ->
  MemRow.stack_up (reverse bs) acc = Ok (reverse (stacked acc bs ws)).
Proof.
  revert ws acc. induction bs as [|b bs IH] using rev_ind; intros ws acc Hw.
  - destruct ws; [reflexivity|discriminate].
  - unfold int_widths in Hw. rewrite fmap_app in Hw. symmetry in Hw.
    apply fmap_app_inv in Hw as (ws1 & ws2 & H1 & H2 & ->).
    destruct ws2 as [|w [|w' ws2]]; try discriminate. injection H2 as H2.
    rewrite reverse_snoc. cbn [MemRow.stack_up]. rewrite H2. cbn [int_of].
    rewrite bind_Ok, (IH ws1 (acc + w) H1), bind_Ok.
    rewrite stacked_snoc, reverse_snoc; [reflexivity|].
    apply int_widths_length, H1.
Qed.

(** X4.  [MemRow(start, end, brams)] on blocks of integer widths
    [w1, ..., wn] keeps [start] and [end] as given (the end is not taken
    from a block's depth, as [add_bram] does) and gives block i the low
    bit [(18 - w1) + (w(i+1) + ... + wn)]: the shift is by the width of
    the first block, not by the width of the row. *)
Theorem constructor_stacking (s e w1 : Z) (b1 : Bram.t) (bs : list Bram.t)
    (ws : list Z) :
  int_widths (b1 :: bs) (w1 :: ws) ->
  exists r,
    MemRow.init_with s e (b1 :: bs) = Ok r /\
    MemRow.start r = s /\ MemRow.end_ r = e /\
    length (MemRow.brams r) = length (b1 :: bs) /\
    (forall i b, MemRow.brams r !! i = Some b ->
       exists b0, (b1 :: bs) !! i = Some b0 /\
         b = Bram.set_lsb b0 ((18 - w1) + sumZ (drop (S i) (w1 :: ws)))).
Proof.
  intros Hw. pose proof (int_widths_length _ _ Hw) as Hlen.
  unfold MemRow.init_with. rewrite (stack_up_reverse _ _ 0 Hw). rewrite bind_Ok.
  rewrite reverse_involutive.
  assert (Hw1 : Bram.width b1 = VInt w1) by (injection Hw; auto).
  cbn [stacked]. cbn [length]. rewrite bool_decide_eq_true_2 by lia.
  cbn [andb Z.ltb Z.compare].
  change (Bram.width (Bram.set_lsb b1 (0 + sumZ ws))) with (Bram.width b1).
  rewrite Hw1. cbn [int_of]. rewrite bind_Ok.
  eexists. split; [reflexivity|]. cbn [MemRow.start MemRow.end_ MemRow.brams].
  split; [reflexivity|]. split; [reflexivity|]. split.
  - rewrite length_fmap. cbn [length]. f_equal. apply stacked_length.
    simpl in Hlen. lia.
  - intros i b Hi. rewrite list_lookup_fmap in Hi.
    change (Bram.set_lsb b1 (0 + sumZ ws) :: stacked 0 bs ws)
      with (stacked 0 (b1 :: bs) (w1 :: ws)) in Hi.
    destruct (stacked 0 (b1 :: bs) (w1 :: ws) !! i) as [b'|] eqn:Eb; [|discriminate].
    destruct (stacked_lookup _ _ _ _ _ Eb) as (b0 & H0 & ->).
    injection Hi as <-. exists b0. split; [exact H0|].
    change (drop (S i) (w1 :: ws)) with (drop i ws).
    unfold Bram.set_lsb.
    cbn [Bram.instance Bram.primitive Bram.loc Bram.depth Bram.width Bram.lsb].
    f_equal. lia.
Qed.

Lemma constructor_stacking_witness :
  exists r,
    MemRow.init_with 0 0 [blk "a" 1024 9; blk "b" 1024 9] = Ok r /\
    Bram.lsb <$> MemRow.brams r = [18; 9].
Proof.
  destruct (constructor_stacking 0 0 9 (blk "a" 1024 9) [blk "b" 1024 9] [9] eq_refl)
    as (r & Hr & _).
  exists r. split; [exact Hr|]. vm_compute in Hr. injection Hr as <-. reflexivity.
Defined.

(** ** The summary of a layout *)

Lemma summary_line_raises (indent : Z) (b : Bram.t) :
  match MemRow.summary_line indent b with
  | Ok _ => exists m, Bram.msb b = Ok m
  | Raise e => Bram.msb b = Raise e
  end.
Proof.
  unfold MemRow.summary_line. destruct (Bram.msb b) as [m|e]; simpl;
    [eexists|]; reflexivity.
Qed.

Lemma row_summary_raises (indent : Z) (bs : list Bram.t) :
  match mapM_result (MemRow.summary_line indent) bs with
  | Ok ls => (exists ms, mapM_result Bram.msb bs = Ok ms) /\ length ls = length bs
  | Raise e => mapM_result Bram.msb bs = Raise e
  end.
Proof.
  induction bs as [|b bs IH]; [split; [eexists; reflexivity | reflexivity]|].
  cbn [mapM_result]. pose proof (summary_line_raises indent b) as Hb.
  destruct (MemRow.summary_line indent b) as [y|e].
  2:{ rewrite Hb. reflexivity. }
  destruct Hb as (m & ->). rewrite !bind_Ok.
  destruct (mapM_result (MemRow.summary_line indent) bs) as [ls|e].
  - destruct IH as [(ms & ->) Hlen]. rewrite !bind_Ok.
    split; [eexists; reflexivity | simpl; lia].
  - rewrite IH. reflexivity.
Qed.

Lemma row_map_raises (success error : string -> string) (r : MemRow.t) :
  match MemRow.map success error r with
  | Ok _ => exists w, MemRow.width r = Ok w
  | Raise e => MemRow.width r = Raise e
  end.
Proof.
  unfold MemRow.map. destruct (MemRow.width r) as [w|e]; simpl; [eexists|]; reflexivity.
Qed.

Lemma summary_from_raises (success error : string -> string) (indent : Z)
    (rs : list MemRow.t) (i : nat) :
  match MemLayout.summary_from success error i rs indent with
  | Ok lines =>
      (exists u,
         mapM_result
           (fun r => MemRow.width r ≫= fun _ => mapM_result Bram.msb (MemRow.brams r))
           rs = Ok u) /\
      length lines = (length rs + length (concat (MemRow.brams <$> rs)))%nat
  | Raise e =>
      mapM_result
        (fun r => MemRow.width r ≫= fun _ => mapM_result Bram.msb (MemRow.brams r))
        rs = Raise e
  end.
Proof.
  revert i. induction rs as [|r rs IH]; intros i;
    [split; [eexists; reflexivity | reflexivity]|].
  cbn [MemLayout.summary_from mapM_result].
  pose proof (row_map_raises success error r) as Hm.
  destruct (MemRow.map success error r) as [m|e].
  2:{ rewrite Hm. reflexivity. }
  destruct Hm as (w & ->). rewrite !bind_Ok.
  pose proof (row_summary_raises (indent + 2) (MemRow.brams r)) as Hs.
  unfold MemRow.summary.
  destruct (mapM_result (MemRow.summary_line (indent + 2)) (MemRow.brams r)) as [ls|e].
  2:{ rewrite Hs. reflexivity. }
  destruct Hs as [(ms & ->) Hlen]. rewrite !bind_Ok.
  specialize (IH (S i)).
  destruct (MemLayout.summary_from success error (S i) rs indent) as [rest|e].
  - destruct IH as [(u & ->) Hrest]. rewrite !bind_Ok. split; [eexists; reflexivity|].
    rewrite fmap_cons. cbn [concat length]. rewrite !length_app, Hlen, Hrest. lia.
  - rewrite IH. reflexivity.
Qed.

(** X5.  [lo.summary(indent)], read to its end, raises exactly when the
    width of a row or the top bit of a block cannot be computed, with the
    same exception, whatever the colour functions; when it returns, it
    has one line for each row and one for each block. *)
Theorem summary_lines (success error : string -> string) (l : MemLayout.t) (indent : Z) :
  match MemLayout.summary success error l indent with
  | Ok lines =>
      summary_raises l = Ok () /\
      length lines =
        (length (MemLayout.rows l) +
         length (concat (MemRow.brams <$> MemLayout.rows l)))%nat
  | Raise e => summary_raises l = Raise e
  end.
Proof.
  unfold MemLayout.summary, summary_raises.
  pose proof (summary_from_raises success error indent (MemLayout.rows l) 0) as H.
  destruct (MemLayout.summary_from success error 0 (MemLayout.rows l) indent) as [ls|e].
  - destruct H as [(u & Hu) Hlen]. split; [|exact Hlen].
    change (mapM_result
              (fun r => MemRow.width r ≫= fun _ => mapM_result Bram.msb (MemRow.brams r))
              (MemLayout.rows l) ≫= (fun _ => Ok ()) = Ok ()).
    rewrite Hu. reflexivity.
  - change (mapM_result
              (fun r => MemRow.width r ≫= fun _ => mapM_result Bram.msb (MemRow.brams r))
              (MemLayout.rows l) ≫= (fun _ => Ok ()) = Raise e).
    rewrite H. reflexivity.
Qed.

(** ** With resolved blocks the driver only ends by [sys.exit] *)

Lemma resolved_int_width (b : Bram.t) : resolved b -> int_width b.
Proof. intros (d & w & _ & Hw). exists w. exact Hw. Qed.

Lemma resolved_set_lsb (b : Bram.t) (l : Z) : resolved b -> resolved (Bram.set_lsb b l).
Proof. intros (d & w & Hd & Hw). exists d, w. split; assumption. Qed.

Lemma py_sum_from_ok (vs : list val) (acc : Z) :
  Forall (fun v => exists w, v = VInt w) vs -> exists n, py_sum_from acc vs = Ok n.
Proof.
  revert acc. induction vs as [|v vs IH]; intros acc H; simpl; [eauto|].
  apply Forall_cons in H as [(w & ->) H]. simpl. apply IH, H.
Qed.

Lemma row_width_ok (r : MemRow.t) :
  Forall resolved (MemRow.brams r) -> exists w, MemRow.width r = Ok w.
Proof.
  intros H. unfold MemRow.width, py_sum. apply py_sum_from_ok.
  apply Forall_fmap. eapply Forall_impl; [exact H|].
  intros b Hb. apply resolved_int_width in Hb. exact Hb.
Qed.

Lemma row_valid_ok (r : MemRow.t) (w : Z) :
  Forall resolved (MemRow.brams r) -> exists v, MemRow.valid r w = Ok v.
Proof.
  intros H. unfold MemRow.valid. destruct (row_width_ok r H) as (w0 & ->).
  simpl. eauto.
Qed.

Lemma layout_valid_ok (l : MemLayout.t) (d w : Z) :
  rows_resolved l -> exists v, MemLayout.valid l d w = Ok v.
Proof.
  unfold rows_resolved, MemLayout.valid. intros H.
  assert (Hall : exists v, MemLayout.all_valid (MemLayout.rows l) w = Ok v).
  { induction H as [|r rs Hr _ IH]; simpl; [eauto|].
    destruct (row_valid_ok r w Hr) as (v & ->). simpl.
    destruct v; [exact IH | eauto]. }
  destruct Hall as (v & ->). simpl. eauto.
Qed.

Lemma msbs_ok (bs : list Bram.t) :
  Forall resolved bs -> exists ms, mapM_result Bram.msb bs = Ok ms.
Proof.
  intros H. apply mapM_result_ok. eapply Forall_impl; [exact H|].
  intros b (d & w & _ & Hw). unfold Bram.msb. rewrite Hw. simpl. eauto.
Qed.

Lemma summary_raises_ok (l : MemLayout.t) :
  rows_resolved l -> summary_raises l = Ok ().
Proof.
  unfold rows_resolved, summary_raises. intros H.
  destruct (mapM_result_ok
              (fun r => MemRow.width r ≫= fun _ => mapM_result Bram.msb (MemRow.brams r))
              (MemLayout.rows l)) as (u & Hu).
  - eapply Forall_impl; [exact H|]. intros r Hr.
    destruct (row_width_ok r Hr) as (w & ->). simpl. apply msbs_ok, Hr.
  - change (mapM_result
              (fun r => MemRow.width r ≫= fun _ => mapM_result Bram.msb (MemRow.brams r))
              (MemLayout.rows l) ≫= (fun _ => Ok ()) = Ok ()).
    rewrite Hu. reflexivity.
Qed.

Lemma list_remove_elem (x : string) (l : list string) :
  x ∈ l ->
  exists l', list_remove x l = Ok l' /\ length l = S (length l') /\
    (forall n, n ∈ l' -> n ∈ l).
Proof.
  induction l as [|y l IH]; intros H; [inversion H|]. simpl.
  destruct (decide (x = y)) as [->|Hne].
  - exists l. split; [reflexivity|]. split; [reflexivity|]. intros n Hn. right. exact Hn.
  - apply elem_of_cons in H as [H|H]; [contradiction|].
    destruct (IH H) as (l' & -> & Hlen & Hsub). simpl.
    exists (y :: l'). split; [reflexivity|]. split; [simpl; lia|].
    intros n Hn. apply elem_of_cons in Hn as [->|Hn]; [left | right; apply Hsub, Hn].
Qed.

Lemma add_row_rows_resolved (l : MemLayout.t) :
  rows_resolved l -> rows_resolved (MemLayout.add_row l (MemRow.init 0 0) true).
Proof.
  intros H. destruct (add_row_rows l) as (r0 & Hr & Hb). unfold rows_resolved.
  rewrite Hr. apply Forall_app. split; [exact H|].
  constructor; [rewrite Hb; constructor | constructor].
Qed.

Lemma add_row_rows_nonempty (l : MemLayout.t) :
  MemLayout.rows (MemLayout.add_row l (MemRow.init 0 0) true) <> [].
Proof.
  destruct (add_row_rows l) as (r0 & Hr & _). rewrite Hr.
  intros E. apply app_eq_nil in E as [_ E]. discriminate.
Qed.

Section Sound.
Variable error : string -> string.
Variable ram_insts : gmap string Bram.t.
Variable target_depth : Z.
Hypothesis Hres : all_resolved ram_insts.

Lemma add_named_sound (l : MemLayout.t) (name : string) :
  MemLayout.rows l <> [] -> rows_resolved l -> is_Some (ram_insts !! name) ->
  exists l1, add_named ram_insts l name = Ok l1 /\
    MemLayout.rows l1 <> [] /\ rows_resolved l1 /\
    (exists r, last (MemLayout.rows l1) = Some r /\ MemRow.brams r <> []) /\
    (Forall (fun r => MemRow.brams r <> []) (removelast (MemLayout.rows l)) ->
     Forall (fun r => MemRow.brams r <> []) (MemLayout.rows l1)).
Proof.
  intros Hne Hrr [b Hb].
  destruct (exists_last Hne) as (pre & r & Hl).
  rewrite (add_named_eq ram_insts l pre r name Hl). unfold getitem. rewrite Hb, bind_Ok.
  destruct (add_bram_resolved r b (Hres _ _ Hb)) as (r' & Hr').
  rewrite Hr', bind_Ok. eexists. split; [reflexivity|]. cbn [MemLayout.rows].
  destruct (add_bram_shape _ _ _ Hr') as (l0 & Hbr & _).
  assert (Hr'ne : MemRow.brams r' <> []).
  { rewrite Hbr. intros E. apply app_eq_nil in E as [_ E]. discriminate. }
  split; [intros E; apply app_eq_nil in E as [_ E]; discriminate|].
  unfold rows_resolved in *. cbn [MemLayout.rows]. rewrite Hl in Hrr.
  apply Forall_app in Hrr as [Hpre Hr]. apply Forall_cons in Hr as [Hr _].
  split; [|split].
  - apply Forall_app. split; [exact Hpre|]. constructor; [|constructor].
    rewrite Hbr. apply Forall_app. split; [exact Hr|].
    constructor; [|constructor]. apply resolved_set_lsb, (Hres _ _ Hb).
  - exists r'. split; [apply last_snoc | exact Hr'ne].
  - rewrite Hl, removelast_last. intros Hp. apply Forall_app. split; [exact Hp|].
    constructor; [exact Hr'ne | constructor].
Qed.

Lemma loop_test_sound (s : state) :
  sound ram_insts s -> exists b, loop_test target_depth s = Ok b.
Proof.
  intros (_ & Hrr & _). unfold loop_test. destruct (prompt_user s); [|eauto].
  destruct (layout_valid_ok (lo s) target_depth target_width Hrr) as (v & ->).
  simpl. eauto.
Qed.

Lemma instance_lines_ok (indent : string) (ns : list string) :
  (forall n, n ∈ ns -> is_Some (ram_insts !! n)) ->
  exists ls, mapM_result (instance_line ram_insts indent) ns = Ok ls.
Proof.
  intros H. apply mapM_result_ok, Forall_forall. intros n Hn.
  destruct (H n Hn) as [b Hb]. unfold instance_line, getitem. rewrite Hb. simpl. eauto.
Qed.

Lemma before_prompt_sound (s : state) :
  sound ram_insts s ->
  (before_prompt error ram_insts s = Continue s /\ inames s <> []) \/
  (exists s', before_prompt error ram_insts s = Abort (SystemExit 1) s').
Proof.
  intros (Hne & Hrr & Hin). unfold before_prompt.
  destruct (MemLayout.rows (lo s)) as [|r0 rs] eqn:E; [congruence|].
  assert (Hs : (if bool_decide (0 < length (MemRow.brams r0))%nat
                then summary_raises (lo s) else Ok ()) = Ok ()).
  { destruct (bool_decide _); [apply summary_raises_ok, Hrr | reflexivity]. }
  rewrite Hs. cbn [try].
  destruct (bool_decide (length (inames s) = 0%nat)) eqn:Eb.
  - right. eexists. reflexivity.
  - left. destruct (instance_lines_ok EmptyString (inames s) Hin) as (ls & ->).
    split; [reflexivity|]. apply bool_decide_eq_false in Eb.
    intros E0. apply Eb. rewrite E0. reflexivity.
Qed.

Lemma after_prompt_sound (x : string) (s : state) :
  sound ram_insts s ->
  match after_prompt error ram_insts target_depth x s with
  | Continue s' =>
      sound ram_insts s' /\ length (inames s) = S (length (inames s')) /\
      prompt_user s' = prompt_user s
  | Abort e _ => exit_status e
  end.
Proof.
  intros (Hne & Hrr & Hin). unfold after_prompt, report_error_exit.
  destruct (bool_decide (lower x = "q")); [left; reflexivity|].
  set (sel := match py_int x with Some n => n - 1 | None => -1 end).
  destruct ((sel <? 0) || (sel >=? Z.of_nat (length (inames s)))) eqn:Er;
    [right; reflexivity|].
  apply orb_false_elim in Er as [E1 E2]. apply Z.ltb_ge in E1.
  rewrite Z.geb_leb in E2. apply Z.leb_gt in E2.
  destruct (lookup_lt_is_Some_2 (inames s) (Z.to_nat sel)) as [name Hname]; [lia|].
  rewrite Hname.
  assert (Hmem : name ∈ inames s) by (eapply list_elem_of_lookup_2, Hname).
  destruct (add_named_sound (lo s) name Hne Hrr (Hin _ Hmem))
    as (l1 & Hadd & Hne1 & Hrr1 & (r & Hlast & _) & _).
  rewrite Hadd. cbn [try]. unfold last_row. rewrite Hlast. cbn [try].
  assert (Hr : Forall resolved (MemRow.brams r)).
  { unfold rows_resolved in Hrr1. rewrite Forall_forall in Hrr1. apply Hrr1.
    apply last_Some_elem_of, Hlast. }
  destruct (row_width_ok r Hr) as (w & Hw). rewrite Hw. cbn [try].
  destruct (w >? target_width); [right; reflexivity|].
  destruct (row_valid_ok r target_width Hr) as (rv & Hrv). rewrite Hrv, bind_Ok.
  destruct (layout_valid_ok l1 target_depth target_width Hrr1) as (v & Hv).
  assert (Hopen : exists o, (if rv then MemLayout.valid l1 target_depth target_width
                                         ≫= (fun v => Ok (negb v))
                             else Ok false) = Ok o).
  { destruct rv; [rewrite Hv; simpl|]; eauto. }
  destruct Hopen as (o & ->). cbn [try].
  destruct (list_remove_elem name (inames s) Hmem) as (ns & Hrm & Hlen & Hsub).
  destruct o; cbn [inames set_lo]; rewrite Hrm; cbn [try];
    (split; [|split; [exact Hlen | reflexivity]]);
    (split; [|split]); cbn [lo inames set_lo set_inames].
  - apply add_row_rows_nonempty.
  - apply add_row_rows_resolved, Hrr1.
  - intros n Hn. apply Hin, Hsub, Hn.
  - exact Hne1.
  - exact Hrr1.
  - intros n Hn. apply Hin, Hsub, Hn.
Qed.

Lemma interact_sound (stdin : list string) (s : state) :
  sound ram_insts s ->
  match interact error ram_insts target_depth stdin s with
  | Continue s' =>
      sound ram_insts s' /\ loop_test target_depth s' = Ok false /\
      prompt_user s' = prompt_user s
  | Abort e _ =>
      exit_status e \/ (e = EOFError /\ (length stdin < length (inames s))%nat)
  end.
Proof.
  revert s. induction stdin as [|x stdin IH]; intros s Hs;
    destruct (loop_test_sound s Hs) as (again & Ht); cbn [interact]; rewrite Ht;
    cbn [try]; destruct again; try (split; [exact Hs | split; [exact Ht | reflexivity]]).
  - destruct (before_prompt_sound s Hs) as [[-> Hne] | (s' & ->)]; cbn [and_then].
    + right. split; [reflexivity|]. destruct (inames s); [congruence | simpl; lia].
    + left. right. reflexivity.
  - destruct (before_prompt_sound s Hs) as [[-> Hne] | (s' & ->)]; cbn [and_then].
    2:{ left. right. reflexivity. }
    pose proof (after_prompt_sound x s Hs) as Ha.
    destruct (after_prompt error ram_insts target_depth x s) as [s1|e s1];
      cbn [and_then]; [|left; exact Ha].
    destruct Ha as (Hs1 & Hlen & Hp). specialize (IH s1 Hs1).
    destruct (interact error ram_insts target_depth stdin s1) as [s2|e s2].
    + destruct IH as (H1 & H2 & H3). split; [exact H1|]. split; [exact H2|]. congruence.
    + destruct IH as [IH | [-> IH]]; [left; exact IH|].
      right. split; [reflexivity|]. simpl. lia.
Qed.

End Sound.

Lemma bmm_ok (l : MemLayout.t) : complete l -> exists text, MemLayout.bmm l = Ok text.
Proof.
  intros (Hne & Hrr & Hnb). unfold MemLayout.bmm.
  destruct (MemLayout.rows l) as [|r0 rs] eqn:Er; [congruence|].
  apply Forall_cons in Hnb as [Hnb0 _].
  unfold rows_resolved in Hrr. rewrite Er in Hrr.
  destruct (MemRow.brams r0) as [|b0 bs] eqn:Eb; [congruence|].
  assert (Hb0 : resolved b0).
  { apply Forall_cons in Hrr as [Hr0 _]. rewrite Eb in Hr0.
    apply Forall_cons in Hr0 as [H _]. exact H. }
  destruct Hb0 as (d & w & -> & ->). cbn [py_mul]. rewrite bind_Ok.
  destruct (mapM_result_ok MemRow.bus_block (r0 :: rs)) as (blocks & ->).
  { eapply Forall_impl; [exact Hrr|]. intros r Hr. apply bus_block_ok.
    eapply Forall_impl; [exact Hr|]. apply resolved_int_width. }
  rewrite bind_Ok. destruct (last (r0 :: rs)) eqn:El; [eauto|].
  apply last_None in El. discriminate.
Qed.

Section SoundMain.
Variable error : string -> string.
Variable ram_insts : gmap string Bram.t.
Variable target_depth : Z.
Hypothesis Hres : all_resolved ram_insts.

Lemma block_of_resolved (b : Bram.t) (name : string) :
  block_of ram_insts b name -> resolved b.
Proof. intros (b0 & H0 & ->). apply resolved_set_lsb, (Hres _ _ H0). Qed.

Lemma rows_of_complete (rs : list MemRow.t) (spec : list (list string)) :
  rows_of ram_insts rs spec ->
  Forall (fun ns => ns <> []) spec ->
  Forall (fun r => Forall resolved (MemRow.brams r)) rs /\
  Forall (fun r => MemRow.brams r <> []) rs.
Proof.
  induction 1 as [|r ns rs spec Hr _ IH]; intros Hs; [split; constructor|].
  apply Forall_cons in Hs as [Hns Hs]. destruct (IH Hs) as [IH1 IH2].
  split; constructor; try assumption.
  - clear -Hr Hres. induction Hr as [|b n bs ns Hb _ IHb]; constructor;
      [eapply block_of_resolved, Hb | exact IHb].
  - intros E. rewrite E in Hr. inversion Hr. subst. congruence.
Qed.

Lemma check_names_outcome (l : list string) (s : state) :
  (forall n, n ∈ inames s -> is_Some (ram_insts !! n)) ->
  (check_names error ram_insts l s = Continue s /\ forall i, i ∈ l -> i ∈ inames s) \/
  (exists s', check_names error ram_insts l s = Abort (SystemExit 1) s').
Proof.
  intros Hin. destruct (decide (Forall (fun i => i ∈ inames s) l)) as [H|H].
  - left. rewrite Forall_forall in H. split; [apply check_names_ok, H | exact H].
  - right. apply not_Forall_Exists in H; [|intros i; apply _].
    apply Exists_exists in H as (i & Hi & Hni).
    destruct (check_names_fail error ram_insts l s) as (s' & Hs' & _);
      [exists i; split; assumption | exact Hin | eauto].
Qed.

Lemma select_sound (ram_inst : option string) :
  match select error ram_insts ram_inst (init_state (sorted_keys ram_insts)) with
  | Continue s1 =>
      (s1 = init_state (sorted_keys ram_insts) /\
       (1 < length (sorted_keys ram_insts))%nat \/
       s1 = init_state (sorted_keys ram_insts) /\ sorted_keys ram_insts = []) \/
      (prompt_user s1 = false /\ complete (lo s1))
  | Abort e _ => exit_status e
  end.
Proof.
  assert (Hkeys : forall n, n ∈ sorted_keys ram_insts -> is_Some (ram_insts !! n))
    by (intros n Hn; apply elem_of_sorted_keys, Hn).
  unfold select. cbn [inames init_state lo].
  destruct (bool_decide (length (sorted_keys ram_insts) = 1%nat)) eqn:E1.
  - apply bool_decide_eq_true in E1.
    destruct (sorted_keys ram_insts) as [|n [|n' ns]] eqn:Ek; try discriminate.
    cbn [lookup list_lookup].
    destruct (Hkeys n) as [b Hb]; [left|].
    unfold getitem. rewrite Hb, bind_Ok.
    change (MemLayout.add_row MemLayout.init (MemRow.init 0 0) true)
      with (MemLayout.mk [MemRow.init 0 0]).
    unfold add_bram_at. cbn [MemLayout.rows lookup list_lookup].
    destruct (add_bram_resolved (MemRow.init 0 0) b (Hres _ _ Hb)) as (r' & Hr').
    rewrite Hr', bind_Ok. cbn [try]. right. split; [reflexivity|].
    cbn [lo set_prompt_user set_lo list_insert insert].
    destruct (add_bram_shape _ _ _ Hr') as (l0 & Hbr & _).
    split; [discriminate|]. split.
    + constructor; [|constructor]. rewrite Hbr. constructor; [|constructor].
      apply resolved_set_lsb, (Hres _ _ Hb).
    + constructor; [|constructor]. cbn. rewrite Hbr. discriminate.
  - apply bool_decide_eq_false in E1. destruct ram_inst as [spec|].
    2:{ left. destruct (sorted_keys ram_insts) as [|n [|n' ns]]; simpl in E1;
          [right; split; reflexivity | congruence | left; split; [reflexivity|simpl; lia]]. }
    unfold select_spec.
    destruct (has_duplicates (concat (parse_spec spec))).
    { cbn [and_then].
      destruct (show_instances_exits ram_insts
                  (report_error error "Duplicate instances in BRAM spec"
                     (init_state (sorted_keys ram_insts))) Hkeys)
        as (s' & -> & _). right. reflexivity. }
    cbn [and_then].
    destruct (check_names_outcome (concat (parse_spec spec))
                (init_state (sorted_keys ram_insts)) Hkeys)
      as [[-> Hmem] | (s' & ->)]; cbn [and_then]; [|right; reflexivity].
    destruct (parse_spec_nonempty spec) as [Hne Hrows].
    assert (Hnames : Forall (Forall (names_resolved ram_insts)) (parse_spec spec)).
    { apply Forall_forall. intros ns Hns. apply Forall_forall. intros n Hn.
      destruct (Hkeys n) as [b Hb].
      - apply Hmem, elem_of_concat. exists ns. split; assumption.
      - exists b. split; [exact Hb | apply (Hres _ _ Hb)]. }
    destruct (build_spec_ok ram_insts (parse_spec spec) MemLayout.init Hnames)
      as (l & Hl).
    cbn [lo init_state].
    rewrite Hl. cbn [try]. right. split; [reflexivity|]. cbn [lo set_prompt_user set_lo].
    destruct (build_spec_inv _ _ _ _ Hl) as (rs & Hrs & Hspec).
    cbn [MemLayout.rows MemLayout.init app] in Hrs.
    destruct (rows_of_complete rs _ Hspec Hrows) as [H1 H2].
    unfold complete, rows_resolved. rewrite Hrs. split; [|split; assumption].
    intros E. rewrite E in Hspec. inversion Hspec. congruence.
Qed.

Lemma assemble_sound (ram_inst : option string) (stdin : list string) :
  match assemble error ram_insts ram_inst target_depth stdin with
  | Continue s => complete (lo s)
  | Abort e _ =>
      exit_status e \/
      (e = EOFError /\ (length stdin < length (sorted_keys ram_insts))%nat)
  end.
Proof.
  unfold assemble. cbn [inames init_state].
  destruct (bool_decide (length (sorted_keys ram_insts) = 0%nat)) eqn:E0;
    [left; right; reflexivity|].
  apply bool_decide_eq_false in E0.
  pose proof (select_sound ram_inst) as Hsel.
  destruct (select error ram_insts ram_inst (init_state (sorted_keys ram_insts)))
    as [s1|e s1]; cbn [and_then]; [|left; exact Hsel].
  destruct Hsel as [[[-> Hlen] | [-> Hnil]] | [Hp Hc]].
  - unfold prompt_loop. cbn [prompt_user init_state].
    pose proof (interact_sound error ram_insts target_depth Hres stdin
                  (start_state ram_insts)) as Hi.
    change (set_lo (init_state (sorted_keys ram_insts))
              (MemLayout.add_row (lo (init_state (sorted_keys ram_insts)))
                 (MemRow.init 0 0) true)) with (start_state ram_insts).
    destruct (interact error ram_insts target_depth stdin (start_state ram_insts))
      as [s|e s].
    + destruct Hi as ((Hne & Hrr & _) & Ht & Hp).
      * split; [discriminate|]. split; [repeat constructor|].
        intros n Hn. apply elem_of_sorted_keys, Hn.
      * split; [exact Hne|]. split; [exact Hrr|].
        unfold loop_test in Ht. rewrite Hp in Ht. cbn in Ht.
        inv_bind Ht. destruct a; [|discriminate].
        apply layout_valid_rows in Ha as [Hv _].
        eapply Forall_impl; [exact Hv|]. intros r Hr. apply valid_row_nonempty, Hr.
    + apply Hi. split; [discriminate|]. split; [repeat constructor|].
      intros n Hn. apply elem_of_sorted_keys, Hn.
  - rewrite Hnil in E0. contradiction E0. reflexivity.
  - rewrite prompt_loop_no_prompt by exact Hp. exact Hc.
Qed.

Lemma finish_sound (ok : bool) (s : state) :
  complete (lo s) ->
  exists e s', finish error target_depth ok s = Abort e s' /\ exit_status e.
Proof.
  intros Hc. pose proof Hc as (Hne & Hrr & _).
  unfold finish, report_error_exit. rewrite (summary_raises_ok _ Hrr). cbn [try].
  destruct (same_widths (lo s)); cbn [negb]; [|eexists _, _; split; [reflexivity|right; reflexivity]].
  unfold last_row. destruct (last (MemLayout.rows (lo s))) as [rl|] eqn:El.
  2:{ apply last_None in El. congruence. }
  cbn [try]. destruct (MemRow.end_ rl + 1 =? target_depth); cbn [negb];
    [|eexists _, _; split; [reflexivity|right; reflexivity]].
  destruct (bmm_ok _ Hc) as (text & ->). cbn [try].
  destruct ok; eexists _, _; (split; [reflexivity|]); [left | right]; reflexivity.
Qed.

End SoundMain.

(** X6.  When every block of the mapping has integer dimensions, [main]
    ends by [sys.exit(0)] or [sys.exit(1)], or by the [EOFError] of
    [raw_input] when the input ends at a prompt: no [TypeError],
    [IndexError], [KeyError] or [ValueError] escapes. *)
Theorem main_ends_by_exit error ram_insts ram_inst mem_data stdin ok :
  all_resolved ram_insts ->
  exists e s,
    main_body error ram_insts ram_inst mem_data stdin ok = Abort e s /\
    (e = SystemExit 0 \/ e = SystemExit 1 \/ e = EOFError).
Proof.
  intros Hres. unfold main_body.
  pose proof (assemble_sound error ram_insts (required_depth mem_data) Hres ram_inst stdin)
    as Ha.
  destruct (assemble error ram_insts ram_inst (required_depth mem_data) stdin)
    as [s1|e s1]; cbn [and_then].
  - destruct (finish_sound error (required_depth mem_data) ok s1 Ha)
      as (e & s' & -> & [He | He]); eexists _, _; (split; [reflexivity|]); tauto.
  - exists e, s1. split; [reflexivity|]. destruct Ha as [[He | He] | [He _]]; tauto.
Qed.

(** X7.  With integer dimensions and at least as many answers on the
    input as there are instances, [main] ends by [sys.exit(0)] or
    [sys.exit(1)]: the loop asks at most once for each instance. *)
Theorem main_exits_with_enough_answers error ram_insts ram_inst mem_data stdin ok :
  all_resolved ram_insts ->
  (length (sorted_keys ram_insts) <= length stdin)%nat ->
  exists c s,
    main_body error ram_insts ram_inst mem_data stdin ok = Abort (SystemExit c) s /\
    (c = 0 \/ c = 1).
Proof.
  intros Hres Hlen. unfold main_body.
  pose proof (assemble_sound error ram_insts (required_depth mem_data) Hres ram_inst stdin)
    as Ha.
  destruct (assemble error ram_insts ram_inst (required_depth mem_data) stdin)
    as [s1|e s1]; cbn [and_then].
  - destruct (finish_sound error (required_depth mem_data) ok s1 Ha)
      as (e & s' & -> & [-> | ->]); eexists _, _; (split; [reflexivity|]); tauto.
  - destruct Ha as [[-> | ->] | [_ Hlt]]; [| |lia];
      eexists _, _; (split; [reflexivity|]); tauto.
Qed.

Lemma two_nines_resolved : all_resolved two_nines.
Proof.
  intros k b H. unfold two_nines in H.
  apply lookup_insert_Some in H as [[_ <-]|[_ H]]; [eexists _, _; split; reflexivity|].
  apply lookup_insert_Some in H as [[_ <-]|[_ H]]; [eexists _, _; split; reflexivity|].
  rewrite lookup_empty in H. discriminate.
Defined.

Lemma main_ends_by_exit_witness :
  exists e s,
    main_body id two_nines None mem_1024 ["1"] true = Abort e s /\
    (e = SystemExit 0 \/ e = SystemExit 1 \/ e = EOFError).
Proof. apply main_ends_by_exit, two_nines_resolved. Defined.

Lemma main_exits_with_enough_answers_witness :
  exists c s,
    main_body id two_nines None mem_1024 ["2"; "x"] true = Abort (SystemExit c) s /\
    (c = 0 \/ c = 1).
Proof.
  apply main_exits_with_enough_answers; [apply two_nines_resolved | vm_compute; lia].
Defined.

(** ** What the exit status tells *)

Lemma mapM_result_Raise {A B : Type} (f : A -> result B) (l : list A) (e : exn) :
  mapM_result f l = Raise e -> exists x, x ∈ l /\ f x = Raise e.
Proof.
  induction l as [|x l IH]; simpl; [discriminate|].
  destruct (f x) as [y|e'] eqn:Ex; simpl.
  - destruct (mapM_result f l) as [ys|e'']; simpl; [discriminate|].
    intros [= ->]. destruct (IH eq_refl) as (x' & Hx' & Hf).
    exists x'. split; [right; exact Hx' | exact Hf].
  - intros [= ->]. exists x. split; [left | exact Ex].
Qed.

Lemma int_of_Raise (v : val) (e : exn) : int_of v = Raise e -> e = TypeError.
Proof. destruct v; simpl; congruence. Qed.

Lemma bus_block_Raise (r : MemRow.t) (e : exn) :
  MemRow.bus_block r = Raise e -> e = TypeError.
Proof.
  unfold MemRow.bus_block. intros H.
  destruct (mapM_result MemRow.lane (MemRow.brams r)) as [ls|e'] eqn:E; [discriminate|].
  injection H as <-. apply mapM_result_Raise in E as (b & _ & Hb).
  unfold MemRow.lane, Bram.msb in Hb.
  destruct (int_of (Bram.width b)) as [w|e''] eqn:Ew; [discriminate|].
  injection Hb as <-. eapply int_of_Raise, Ew.
Qed.

Lemma bmm_Raise (l : MemLayout.t) (e : exn) :
  MemLayout.bmm l = Raise e -> e = IndexError \/ e = TypeError.
Proof.
  unfold MemLayout.bmm. intros H.
  destruct (MemLayout.rows l) as [|r0 rs]; [left; congruence|].
  destruct (MemRow.brams r0) as [|b0 bs]; [left; congruence|].
  destruct (py_mul (Bram.depth b0) (Bram.width b0)) as [size|e'] eqn:Em.
  2:{ injection H as <-. right.
      destruct (Bram.depth b0), (Bram.width b0); simpl in Em; congruence. }
  rewrite bind_Ok in H.
  destruct (mapM_result MemRow.bus_block (r0 :: rs)) as [blocks|e'] eqn:Eb.
  - rewrite bind_Ok in H. destruct (last (r0 :: rs)); [discriminate | left; congruence].
  - injection H as <-. right. apply mapM_result_Raise in Eb as (r & _ & Hr).
    eapply bus_block_Raise, Hr.
Qed.

(** X8.  When [main] ends with status 0, either no BMM file exists (the
    user quit at the prompt), or data2mem succeeded and the BMM file
    holds the address map of the layout. *)
Theorem exit_zero_means error ram_insts ram_inst mem_data stdin ok s :
  main_body error ram_insts ram_inst mem_data stdin ok = Abort (SystemExit 0) s ->
  bmm_file s = None \/
  (ok = true /\ exists text, bmm_file s = Some text /\ MemLayout.bmm (lo s) = Ok text).
Proof.
  unfold main_body. intros H.
  pose proof (assemble_frame error ram_insts (required_depth mem_data) ram_inst stdin)
    as Hnone.
  destruct (assemble error ram_insts ram_inst (required_depth mem_data) stdin)
    as [s1|e1 s1]; cbn [and_then state_of] in *.
  2:{ injection H as _ <-. left. exact Hnone. }
  unfold finish, report_error_exit in H.
  destruct (summary_raises (lo s1)); cbn [try] in H;
    [|injection H as _ <-; left; exact Hnone].
  destruct (negb (same_widths (lo s1))); [discriminate|].
  destruct (last_row (lo s1)) as [rl|]; cbn [try] in H;
    [|injection H as _ <-; left; exact Hnone].
  destruct (negb (MemRow.end_ rl + 1 =? required_depth mem_data)); [discriminate|].
  destruct (MemLayout.bmm (lo s1)) as [text|e'] eqn:Eb; cbn [try] in H.
  - destruct ok; [|discriminate]. injection H as <-. right.
    split; [reflexivity|]. exists text. split; [reflexivity | exact Eb].
  - injection H as -> _. apply bmm_Raise in Eb as [Eb | Eb]; discriminate.
Qed.

Lemma exit_zero_means_witness :
  exists s text,
    main_body id two_nines None mem_1024 ["1"; "1"] true = Abort (SystemExit 0) s /\
    bmm_file s = Some text /\ MemLayout.bmm (lo s) = Ok text.
Proof.
  eexists _, _. split; [vm_compute; reflexivity|].
  destruct (exit_zero_means id two_nines None mem_1024 ["1"; "1"] true _ eq_refl)
    as [H | (_ & text & H1 & H2)]; [discriminate H|].
  injection H1 as <-. split; [reflexivity | exact H2].
Defined.

(** ** The end of the input *)

Lemma interact_eof error ram_insts target_depth (s0 s : state) (pre : list string) :
  prompts error ram_insts target_depth s0 pre s ->
  interact error ram_insts target_depth pre s0 = Abort EOFError s.
Proof.
  induction 1 as [s Ht Hb | s0 y s1 pre s Ht Hb Ha _ IH].
  - cbn [interact]. rewrite Ht. cbn [try]. rewrite Hb. reflexivity.
  - rewrite interact_cons by assumption. rewrite Ha. exact IH.
Qed.

(** X9.  When the input ends while the prompt is shown, [main] dies with
    the [EOFError] of [raw_input]: nothing catches it, the layout built
    so far is dropped and no BMM file is written. *)
Theorem input_ends_at_prompt error ram_insts mem_data pre s ok :
  at_prompt error ram_insts mem_data pre s ->
  main_body error ram_insts None mem_data pre ok = Abort EOFError s /\
  bmm_file s = None.
Proof.
  intros [Hlen Hp]. split.
  - unfold main_body. rewrite assemble_interactive by exact Hlen.
    rewrite (interact_eof _ _ _ _ _ _ Hp). reflexivity.
  - rewrite (prompts_bmm_file _ _ _ _ _ _ Hp). reflexivity.
Qed.

Lemma input_ends_at_prompt_witness :
  exists s, main_body id two_nines None mem_1024 ["1"] true = Abort EOFError s /\
    bmm_file s = None.
Proof.
  destruct at_prompt_two_nines_one as (s & Hs & _).
  exists s. apply input_ends_at_prompt, Hs.
Defined.

(** ** Each instance is used once *)

Section Once.
Variable error : string -> string.
Variable ram_insts : gmap string Bram.t.
Variable target_depth : Z.
Hypothesis Hkeyed : keyed_by_instance ram_insts.

Lemma after_prompt_partition (x : string) (s s' : state) :
  after_prompt error ram_insts target_depth x s = Continue s' ->
  concat (names (lo s')) ++ inames s' ≡ₚ concat (names (lo s)) ++ inames s.
Proof.
  intros H.
  destruct (after_prompt_Continue_inv _ _ _ _ _ _ H)
    as (name & l1 & ns & Hadd & Hrm & -> & Hlo).
  destruct (add_named_names _ Hkeyed _ _ _ Hadd) as (np & nr & Hn & Hn1).
  assert (H1 : concat (names l1) ++ ns ≡ₚ concat (names (lo s)) ++ inames s).
  { rewrite Hn1, Hn, !concat_snoc, (list_remove_Permutation _ _ _ Hrm).
    rewrite <- !app_assoc. apply Permutation_app_head.
    apply Permutation_app_head. simpl. reflexivity. }
  destruct Hlo as [-> | ->]; [exact H1|].
  rewrite add_row_names, concat_snoc, app_nil_r. exact H1.
Qed.

Lemma prompts_partition (s0 s : state) (pre : list string) :
  prompts error ram_insts target_depth s0 pre s ->
  concat (names (lo s)) ++ inames s ≡ₚ concat (names (lo s0)) ++ inames s0.
Proof.
  induction 1 as [| s0 y s1 pre s _ _ Ha _ IH]; [reflexivity|].
  rewrite IH. apply (after_prompt_partition y _ _ Ha).
Qed.

Lemma single_replayable (n : string) (l : MemLayout.t) :
  sorted_keys ram_insts = [n] ->
  (b ← getitem ram_insts n; add_bram_at (MemLayout.mk [MemRow.init 0 0]) 0 b) = Ok l ->
  replayable ram_insts l [].
Proof.
  intros Hk H.
  assert (Hb : build_spec ram_insts MemLayout.init [[n]] = Ok l).
  { unfold build_spec, build_row. cbn [foldlM].
    change (MemLayout.add_row MemLayout.init (MemRow.init 0 0) true)
      with (MemLayout.mk [MemRow.init 0 0]).
    rewrite bind_Ok_r. cbn [foldlM]. rewrite bind_Ok_r. exact H. }
  pose proof (build_spec_names _ Hkeyed _ _ Hb) as Hn.
  split; [rewrite Hn; exact Hb|]. rewrite Hn. cbn [concat app].
  split; [repeat constructor; apply not_elem_of_nil|].
  intros k Hk'. apply elem_of_sorted_keys. rewrite Hk. exact Hk'.
Qed.

Lemma assemble_replayable (ram_inst : option string) (stdin : list string) (s : state) :
  assemble error ram_insts ram_inst target_depth stdin = Continue s ->
  exists rest, replayable ram_insts (lo s) rest.
Proof.
  unfold assemble. destruct (bool_decide _); [discriminate|].
  destruct (select error ram_insts ram_inst _) as [s1|e s1] eqn:Es; [|discriminate].
  cbn [and_then]. intros H.
  assert (H1 : replayable ram_insts (lo s1) (if prompt_user s1 then inames s1 else [])).
  { unfold select in Es. cbn [inames init_state lo] in Es.
    destruct (bool_decide (length (sorted_keys ram_insts) = 1%nat)) eqn:E1.
    - apply bool_decide_eq_true in E1.
      destruct (sorted_keys ram_insts) as [|n [|n' ns]] eqn:Ek; try discriminate.
      cbn [lookup list_lookup] in Es.
      change (MemLayout.add_row MemLayout.init (MemRow.init 0 0) true)
        with (MemLayout.mk [MemRow.init 0 0]) in Es.
      destruct (b ← getitem ram_insts n; add_bram_at (MemLayout.mk [MemRow.init 0 0]) 0 b)
        as [l|] eqn:El; [|discriminate].
      cbn [try] in Es. injection Es as <-. cbn [lo prompt_user set_prompt_user set_lo].
      eapply single_replayable; [exact Ek | exact El].
    - destruct ram_inst as [spec|].
      + destruct (select_spec_Continue_inv _ _ _ _ _ Es) as (Hnd & Hmem & l & Hl & ->).
        cbn [lo prompt_user set_prompt_user set_lo init_state] in *.
        pose proof (build_spec_names _ Hkeyed _ _ Hl) as Hn.
        split; [rewrite Hn; exact Hl|]. rewrite Hn, app_nil_r.
        split; [exact Hnd|]. intros k Hk. apply elem_of_sorted_keys, Hmem, Hk.
      + injection Es as <-. cbn [lo prompt_user inames init_state].
        split; [reflexivity|]. cbn. split; [apply NoDup_sorted_keys|].
        intros k Hk. apply elem_of_sorted_keys, Hk. }
  unfold prompt_loop in H. destruct (prompt_user s1) eqn:Ep.
  - exists (inames s). revert H.
    apply (interact_invariant error ram_insts target_depth
             (fun s => replayable ram_insts (lo s) (inames s))).
    + intros x s0 s2 H0 H2. eapply after_prompt_replayable; eassumption.
    + cbn [lo inames set_lo]. apply replayable_add_row; assumption.
  - rewrite interact_no_prompt in H by exact Ep. injection H as <-.
    exists []. exact H1.
Qed.

End Once.

(** X10.  At every prompt of an interactive run, the names placed in the
    layout together with the names offered in the menu are the discovered
    instances, each one once: an instance is offered until it is placed,
    and never again. *)
Theorem prompt_partitions_instances error ram_insts mem_data pre s :
  keyed_by_instance ram_insts ->
  at_prompt error ram_insts mem_data pre s ->
  concat (names (lo s)) ++ inames s ≡ₚ sorted_keys ram_insts.
Proof.
  intros Hkeyed [_ Hp].
  rewrite (prompts_partition _ _ _ Hkeyed _ _ _ Hp). reflexivity.
Qed.

Lemma prompt_partitions_instances_witness :
  exists s, at_prompt id two_nines mem_1024 ["1"] s /\
    concat (names (lo s)) ++ inames s ≡ₚ sorted_keys two_nines.
Proof.
  destruct at_prompt_two_nines_one as (s & Hs & _).
  exists s. split; [exact Hs|].
  apply (prompt_partitions_instances id two_nines mem_1024 ["1"] s);
    [exact two_nines_keyed | exact Hs].
Defined.

(** X11.  In the layout the driver puts together, by any path, no
    instance occurs twice, and every block is the mapping's block of that
    name, changed at most in its [lsb]. *)
Theorem assembled_blocks_distinct error ram_insts ram_inst target_depth stdin s :
  keyed_by_instance ram_insts ->
  assemble error ram_insts ram_inst target_depth stdin = Continue s ->
  NoDup (concat (names (lo s))) /\
  rows_of ram_insts (MemLayout.rows (lo s)) (names (lo s)).
Proof.
  intros Hkeyed H.
  destruct (assemble_replayable _ _ _ Hkeyed _ _ _ H) as (rest & Hb & Hnd & _).
  split; [apply NoDup_app in Hnd as [Hnd _]; exact Hnd|].
  destruct (build_spec_inv _ _ _ _ Hb) as (rs & Hrs & Hspec).
  rewrite Hrs. exact Hspec.
Qed.

Lemma assembled_blocks_distinct_witness :
  exists s, assemble id two_nines None 1024 ["2"; "1"] = Continue s /\
    NoDup (concat (names (lo s))) /\
    rows_of two_nines (MemLayout.rows (lo s)) (names (lo s)).
Proof.
  eexists. split; [vm_compute; reflexivity|].
  apply (assembled_blocks_distinct id two_nines None 1024 ["2"; "1"]);
    [exact two_nines_keyed | vm_compute; reflexivity].
Defined.

(** ** The checks before the BMM file *)

Lemma same_widths_true (l : MemLayout.t) (r r' : MemRow.t) (b b' : Bram.t) :
  same_widths l = true ->
  r ∈ MemLayout.rows l -> b ∈ MemRow.brams r ->
  r' ∈ MemLayout.rows l -> b' ∈ MemRow.brams r' ->
  Bram.width b = Bram.width b'.
Proof.
  unfold same_widths. intros H Hr Hb Hr' Hb'.
  assert (Hin : forall r b, r ∈ MemLayout.rows l -> b ∈ MemRow.brams r ->
            Bram.width b ∈ (r ← MemLayout.rows l; Bram.width <$> MemRow.brams r)).
  { intros r0 b0 H1 H2. apply list_elem_of_bind. exists r0.
    split; [apply list_elem_of_fmap; exists b0; split; [reflexivity | exact H2] | exact H1]. }
  pose proof (Hin _ _ Hr Hb) as H1. pose proof (Hin _ _ Hr' Hb') as H2.
  destruct (r ← MemLayout.rows l; Bram.width <$> MemRow.brams r) as [|w0 ws];
    [inversion H1|].
  assert (Hw0 : forall w, w ∈ w0 :: ws -> w = w0).
  { intros w Hw. apply elem_of_cons in Hw as [-> | Hw]; [reflexivity|].
    rewrite forallb_forall in H. symmetry.
    eapply bool_decide_eq_true, H, list_elem_of_In, Hw. }
  rewrite (Hw0 _ H1), (Hw0 _ H2). reflexivity.
Qed.

(** X12.  When every block of the mapping has integer dimensions and the
    assembled layout holds two blocks of different widths, [main] ends
    with status 1 after the diagnostic on mixed widths, and no BMM file
    is written. *)
Theorem mixed_widths_rejected error ram_insts ram_inst mem_data stdin ok s1
    (i j i' j' : nat) (r r' : MemRow.t) (b b' : Bram.t) :
  all_resolved ram_insts ->
  assemble error ram_insts ram_inst (required_depth mem_data) stdin = Continue s1 ->
  MemLayout.rows (lo s1) !! i = Some r -> MemRow.brams r !! j = Some b ->
  MemLayout.rows (lo s1) !! i' = Some r' -> MemRow.brams r' !! j' = Some b' ->
  Bram.width b <> Bram.width b' ->
  main_body error ram_insts ram_inst mem_data stdin ok =
    Abort (SystemExit 1)
      (eprint s1 (error "ERROR:" +:+ " Mixed width BRAMs not supported in memory layout")) /\
  bmm_file s1 = None.
Proof.
  intros Hres Ha Hr Hb Hr' Hb' Hne.
  pose proof (assemble_sound error ram_insts (required_depth mem_data) Hres ram_inst stdin)
    as Hc.
  pose proof (assemble_frame error ram_insts (required_depth mem_data) ram_inst stdin)
    as Hnone.
  unfold main_body. rewrite Ha in *. cbn [and_then state_of] in *.
  split; [|exact Hnone].
  destruct Hc as (_ & Hrr & _).
  unfold finish. rewrite (summary_raises_ok _ Hrr). cbn [try].
  destruct (same_widths (lo s1)) eqn:Es; [|reflexivity].
  exfalso. apply Hne.
  eapply (same_widths_true _ r r' b b' Es); eapply list_elem_of_lookup_2; eassumption.
Qed.

Lemma nine_and_eighteen_resolved : all_resolved nine_and_eighteen.
Proof.
  intros k b H. unfold nine_and_eighteen in H.
  apply lookup_insert_Some in H as [[_ <-]|[_ H]]; [eexists _, _; split; reflexivity|].
  apply lookup_insert_Some in H as [[_ <-]|[_ H]]; [eexists _, _; split; reflexivity|].
  rewrite lookup_empty in H. discriminate.
Defined.

Lemma mixed_widths_rejected_witness :
  exists s,
    main_body id nine_and_eighteen (Some "b:a") (replicate 2049 "0") [] true =
      Abort (SystemExit 1) s /\
    stderr s <> [] /\ bmm_file s = None.
Proof.
  eexists. split; [|split].
  - eapply (mixed_widths_rejected id nine_and_eighteen (Some "b:a") (replicate 2049 "0")
              [] true _ 0 0 1 0);
      [exact nine_and_eighteen_resolved | vm_compute; reflexivity
      | reflexivity | reflexivity | reflexivity | reflexivity | discriminate].
  - discriminate.
  - reflexivity.
Defined.

(** X13.  When every block of the mapping has integer dimensions, all
    blocks of the assembled layout have one width, and the depths of the
    rows do not add up to the required depth, [main] ends with status 1
    after the diagnostic that names the required depth, and no BMM file
    is written. *)
Theorem depth_mismatch_rejected error ram_insts ram_inst mem_data stdin ok s1 :
  all_resolved ram_insts ->
  assemble error ram_insts ram_inst (required_depth mem_data) stdin = Continue s1 ->
  same_widths (lo s1) = true ->
  MemLayout.sum_depth (MemLayout.rows (lo s1)) <> required_depth mem_data ->
  main_body error ram_insts ram_inst mem_data stdin ok =
    Abort (SystemExit 1)
      (eprint s1 (error "ERROR:" +:+ " Memory layout depth does not match required " +:+
                  str_of_Z (required_depth mem_data) +:+ " words")) /\
  bmm_file s1 = None.
Proof.
  intros Hres Ha Hs Hne.
  pose proof (assemble_sound error ram_insts (required_depth mem_data) Hres ram_inst stdin)
    as Hc.
  pose proof (assemble_frame error ram_insts (required_depth mem_data) ram_inst stdin)
    as Hnone.
  pose proof (assemble_contiguous _ _ _ _ _ _ Ha) as Hcont.
  unfold main_body. rewrite Ha in *. cbn [and_then state_of] in *.
  split; [|exact Hnone].
  destruct Hc as (Hnil & Hrr & _).
  unfold finish. rewrite (summary_raises_ok _ Hrr), Hs. cbn [try negb].
  unfold last_row. destruct (last (MemLayout.rows (lo s1))) as [rl|] eqn:El.
  2:{ apply last_None in El. congruence. }
  cbn [try].
  apply contiguous_from_sum in Hcont. unfold next_start in Hcont. rewrite El in Hcont.
  unfold MemLayout.sum_depth in Hne. rewrite foldl_add_sumZ in Hne.
  unfold MemRow.depth in Hne.
  destruct (MemRow.end_ rl + 1 =? required_depth mem_data) eqn:E; [|reflexivity].
  apply Z.eqb_eq in E. lia.
Qed.

Lemma depth_mismatch_rejected_witness :
  exists s,
    main_body id two_nines (Some "a,b") (replicate 2049 "0") [] true =
      Abort (SystemExit 1) s /\
    bmm_file s = None.
Proof.
  eexists. split.
  - eapply (depth_mismatch_rejected id two_nines (Some "a,b") (replicate 2049 "0") []
              true);
      [exact two_nines_resolved | vm_compute; reflexivity | reflexivity
      | vm_compute; discriminate].
  - reflexivity.
Defined.

(** ** What the patterns capture *)

Lemma lit_inv (p s s' : string) : Regex.lit p s = Some s' -> s = p +:+ s'.
Proof.
  revert s. induction p as [|a p IH]; intros s H; simpl in H.
  - injection H as <-. reflexivity.
  - destruct s as [|b s]; [discriminate|].
    destruct (Ascii.eqb a b) eqn:E; [|discriminate].
    apply Ascii.eqb_eq in E. subst b.
    change (String a s = String a (p +:+ s')). f_equal. apply IH, H.
Qed.

Lemma rep_inv {R : Type} (cls : ascii -> bool) (least : nat) (s : string)
    (k : string -> option R) (r : R) :
  Regex.rep cls least s k = Some r ->
  exists pre s', s = pre +:+ s' /\ all_of cls pre = true /\
    (least <= String.length pre)%nat /\ k s' = Some r.
Proof.
  revert least. induction s as [|c s IH]; intros least H.
  - simpl in H. destruct least; [|discriminate].
    exists EmptyString, EmptyString. repeat split; [simpl; lia | exact H].
  - cbn [Regex.rep] in H.
    assert (Hstop : match least with O => k (String c s) | S _ => None end = Some r ->
              exists pre s', String c s = pre +:+ s' /\ all_of cls pre = true /\
                (least <= String.length pre)%nat /\ k s' = Some r).
    { intros Hs. destruct least; [|discriminate].
      exists EmptyString, (String c s). repeat split; [simpl; lia | exact Hs]. }
    destruct (cls c) eqn:Ec; [|exact (Hstop H)].
    destruct (Regex.rep cls (Nat.pred least) s k) as [r0|] eqn:E; [|exact (Hstop H)].
    injection H as ->.
    destruct (IH _ E) as (pre & s' & -> & Hall & Hlen & Hk).
    exists (String c pre), s'. simpl. rewrite Ec, Hall.
    repeat split; [lia | exact Hk].
Qed.

Lemma string_length_app (a b : string) :
  String.length (a +:+ b) = (String.length a + String.length b)%nat.
Proof. induction a as [|c a IH]; simpl; [reflexivity | rewrite IH; reflexivity]. Qed.

Lemma substring_prefix (a b : string) :
  String.substring 0 (String.length a) (a +:+ b) = a.
Proof.
  induction a as [|c a IH]; simpl; [destruct b; reflexivity | rewrite IH; reflexivity].
Qed.

Lemma consumed_app (pre rest : string) : Regex.consumed (pre +:+ rest) rest = pre.
Proof.
  unfold Regex.consumed. rewrite string_length_app.
  replace (String.length pre + String.length rest - String.length rest)%nat
    with (String.length pre) by lia.
  apply substring_prefix.
Qed.

Lemma rep_number (pre : string) :
  all_of Regex.digit pre = true -> (1 <= String.length pre)%nat -> number pre.
Proof.
  intros Hall Hlen. split; [|exact Hall].
  intros ->. simpl in Hlen. lia.
Qed.

(** The patterns [NAME::(\d+)] *)
Lemma width_re_match (p s : string) (gs : list string) :
  Regex.re_match (Regex.seq [Regex.Lit p; Regex.Grp (Regex.Rep 1 Regex.digit)]) s = Some gs ->
  exists g, gs = [g] /\ number g.
Proof.
  unfold Regex.re_match. cbn [Regex.seq Regex.run]. intros H.
  destruct (Regex.lit p s) as [s1|]; [|discriminate].
  apply rep_inv in H as (pre & s' & -> & Hall & Hlen & H).
  rewrite consumed_app in H. injection H as <-.
  exists pre. split; [reflexivity | apply rep_number; assumption].
Qed.

Lemma width_re_search (p s : string) (gs : list string) :
  Regex.re_search (Regex.seq [Regex.Lit p; Regex.Grp (Regex.Rep 1 Regex.digit)]) s = Some gs ->
  exists g, gs = [g] /\ number g.
Proof.
  induction s as [|c s IH]; cbn [Regex.re_search]; intros H.
  - destruct (Regex.re_match _ EmptyString) as [g|] eqn:E; [|discriminate].
    injection H as ->. eapply width_re_match, E.
  - destruct (Regex.re_match _ (String c s)) as [g|] eqn:E.
    + injection H as ->. eapply width_re_match, E.
    + apply IH, H.
Qed.

(** The pattern [PORTA_ATTR::(\d+)X(\d+)] *)
Lemma s3_re_match (s : string) (gs : list string) :
  Regex.re_match Discovery.cfg_s3_re s = Some gs ->
  exists g1 g2, gs = [g1; g2] /\ number g1 /\ number g2.
Proof.
  unfold Regex.re_match, Discovery.cfg_s3_re. cbn [Regex.seq Regex.run]. intros H.
  destruct (Regex.lit "PORTA_ATTR::" s) as [s1|]; [|discriminate].
  apply rep_inv in H as (pre1 & s' & -> & Hall1 & Hlen1 & H).
  destruct (Regex.lit "X" s') as [s2|]; [|discriminate].
  apply rep_inv in H as (pre2 & s'' & -> & Hall2 & Hlen2 & H).
  rewrite !consumed_app in H. injection H as <-.
  exists pre1, pre2. split; [reflexivity|]. split; apply rep_number; assumption.
Qed.

Lemma s3_re_search (s : string) (gs : list string) :
  Regex.re_search Discovery.cfg_s3_re s = Some gs ->
  exists g1 g2, gs = [g1; g2] /\ number g1 /\ number g2.
Proof.
  induction s as [|c s IH]; cbn [Regex.re_search]; intros H.
  - destruct (Regex.re_match _ EmptyString) as [g|] eqn:E; [|discriminate].
    injection H as ->. eapply s3_re_match, E.
  - destruct (Regex.re_match _ (String c s)) as [g|] eqn:E.
    + injection H as ->. eapply s3_re_match, E.
    + apply IH, H.
Qed.

(** ** [int] on what [\d+] captured *)

Lemma digit_not_space (c : ascii) : is_digit c = true -> is_space c = false.
Proof.
  unfold is_digit, is_space. intros H.
  apply andb_true_iff in H as [H1 H2]. apply N.leb_le in H1. apply N.leb_le in H2.
  apply orb_false_iff. split.
  - apply N.eqb_neq. lia.
  - apply andb_false_iff. right. apply N.leb_gt. lia.
Qed.

Lemma rstrip_digits (s : string) : all_of is_digit s = true -> rstrip s = s.
Proof.
  induction s as [|c s IH]; [reflexivity|]. simpl. intros H.
  apply andb_true_iff in H as [Hc Hs]. rewrite (IH Hs).
  destruct s; [rewrite (digit_not_space _ Hc)|]; reflexivity.
Qed.

Lemma digits_val_ok (s : string) (acc : Z) :
  all_of is_digit s = true -> 0 <= acc ->
  exists n, digits_val acc s = Some n /\ acc <= n.
Proof.
  revert acc. induction s as [|c s IH]; intros acc H Hacc; simpl.
  - exists acc. split; [reflexivity | lia].
  - simpl in H. apply andb_true_iff in H as [Hc Hs]. rewrite Hc.
    assert (Hd : 48 <= Z.of_N (N_of_ascii c)).
    { unfold is_digit in Hc. apply andb_true_iff in Hc as [H1 _].
      apply N.leb_le in H1. lia. }
    destruct (IH (acc * 10 + (Z.of_N (N_of_ascii c) - 48)) Hs) as (n & Hn & Hle); [lia|].
    exists n. split; [exact Hn | lia].
Qed.

Lemma sign_match_digit (c : ascii) (d : string) :
  is_digit c = true ->
  match String c d with
  | String "+"%char d' => digits_val1 d'
  | String "-"%char d' => Z.opp <$> digits_val1 d'
  | t => digits_val1 t
  end = digits_val1 (String c d).
Proof.
  destruct c as [[|] [|] [|] [|] [|] [|] [|] [|]]; intros H;
    try discriminate H; reflexivity.
Qed.

Lemma py_int_number (g : string) :
  number g -> exists n, py_int g = Some n /\ 0 <= n.
Proof.
  intros [Hne Hall]. destruct g as [|c g]; [congruence|].
  unfold py_int.
  assert (Hc : is_digit c = true) by (simpl in Hall; apply andb_true_iff in Hall; tauto).
  assert (Hl : lstrip (String c g) = String c g)
    by (simpl; rewrite (digit_not_space _ Hc); reflexivity).
  rewrite Hl, (rstrip_digits _ Hall), (sign_match_digit c g Hc).
  apply (digits_val_ok (String c g) 0 Hall). lia.
Qed.

(** ** What the scan of the netlist keeps *)

Lemma foldlM_Raise_inv {A B : Type} (f : A -> B -> result A) (l : list B) (a : A)
    (e : exn) :
  foldlM f a l = Raise e ->
  exists pre x post a', l = pre ++ x :: post /\ foldlM f a pre = Ok a' /\
    f a' x = Raise e.
Proof.
  revert a. induction l as [|x l IH]; intros a H; simpl in H; [discriminate|].
  destruct (f a x) as [a1|e1] eqn:E; simpl in H.
  - destruct (IH _ H) as (pre & y & post & a' & -> & Hpre & Hy).
    exists (x :: pre), y, post, a'. split; [reflexivity|].
    split; [simpl; rewrite E; exact Hpre | exact Hy].
  - injection H as ->. exists [], x, l, a. repeat split. exact E.
Qed.

Section Scanned.
Variable int_log2 : Z -> Z.

Lemma set_dims_scanned (st : Discovery.state) (m : gmap string Bram.t) (d w : val) :
  scanned st ->
  Discovery.set_dims st.1 st.2 d w = Ok m ->
  (forall b, discovered (Bram.instance b) (Bram.set_dims b VNone VNone) ->
     discovered (Bram.instance b) (Bram.set_dims b d w)) ->
  scanned (m, None).
Proof.
  intros [Hm _] H Hdw. unfold Discovery.set_dims in H.
  destruct st.2 as [k|]; [|discriminate].
  inv_bind H. injection H as <-. unfold getitem in Ha.
  destruct (st.1 !! k) as [b|] eqn:Eb; [|discriminate]. injection Ha as <-.
  split; [|discriminate]. intros k' b' Hk'. cbn [fst] in Hk'.
  apply lookup_insert_Some in Hk' as [[<- <-]|[_ Hk']]; [|apply Hm, Hk'].
  destruct (Hm _ _ Eb) as (Hi & Hl & _). rewrite <- Hi. apply Hdw.
  split; [reflexivity|]. split; [exact Hl|]. left. split; reflexivity.
Qed.

Lemma resolve_inv (big small : string) (cap_big cap_small : Z) (primitive g : string)
    (d w : val) :
  Discovery.resolve int_log2 big small cap_big cap_small primitive g = Ok (d, w) ->
  exists n, w = VInt n /\ 0 < n /\ (d = VNone \/ exists k, d = VInt k).
Proof.
  unfold Discovery.resolve. intros H. inv_bind H.
  destruct (a <=? 0) eqn:E; [discriminate|]. apply Z.leb_gt in E.
  injection H as <- <-. exists a. split; [reflexivity|]. split; [exact E|].
  destruct (Discovery.contains big primitive); [right; eexists; reflexivity|].
  destruct (Discovery.contains small primitive); [right; eexists; reflexivity|].
  left. reflexivity.
Qed.

Lemma cfg_rule_scanned (p big small : string) (cap_big cap_small : Z)
    (primitive l : string) (st st' : Discovery.state) :
  scanned st ->
  Discovery.cfg_rule int_log2 (Regex.seq [Regex.Lit p; Regex.Grp (Regex.Rep 1 Regex.digit)])
    big small cap_big cap_small primitive l st = Ok st' ->
  scanned st'.
Proof.
  intros Hst H. unfold Discovery.cfg_rule in H.
  destruct (Regex.re_search _ l) as [[|g [|g' gs]]|]; try (injection H as <-; exact Hst).
  inv_bind H. destruct a as [d w]. inv_bind H. injection H as <-.
  destruct (resolve_inv _ _ _ _ _ _ _ _ Ha) as (n & -> & Hn & Hd).
  eapply set_dims_scanned; [exact Hst | exact Ha0 |].
  intros b (Hi & Hl & _). split; [exact Hi|]. split; [exact Hl|].
  right. right. exists n. split; [reflexivity|]. split; [exact Hn | exact Hd].
Qed.

Lemma scan_line_scanned (st st' : Discovery.state) (l : string) :
  scanned st ->
  Discovery.scan_line int_log2 st l = Ok st' ->
  scanned st'.
Proof.
  intros Hst H. unfold Discovery.scan_line in H. inv_bind H.
  assert (Ha' : scanned a).
  { destruct st.2 as [last_bram|] eqn:E2; [|injection Ha as <-; exact Hst].
    inv_bind Ha. inv_bind Ha. inv_bind Ha.
    eapply (cfg_rule_scanned "READ_WIDTH_A::"); [|exact Ha].
    eapply (cfg_rule_scanned "DATA_WIDTH_A::"); [|exact Ha2].
    destruct (Regex.re_search Discovery.cfg_s3_re l) as [gs|] eqn:E3;
      [|injection Ha1 as <-; exact Hst].
    destruct (s3_re_search _ _ E3) as (g1 & g2 & -> & Hg1 & Hg2).
    inv_bind Ha1. injection Ha1 as <-.
    eapply set_dims_scanned; [exact Hst | rewrite E2; exact Ha3 |].
    intros b (Hi & Hl & _). split; [exact Hi|]. split; [exact Hl|].
    right. left. exists g1, g2. repeat split; solve [apply Hg1 | apply Hg2]. }
  destruct (Regex.re_match Discovery.inst_re l) as [[|g1 [|g2 [|g3 [|g4 gs]]]]|];
    try (injection H as <-; exact Ha').
  injection H as <-. destruct Ha' as [Hm Hl]. split.
  - intros k b Hk. cbn [fst] in Hk.
    apply lookup_insert_Some in Hk as [[<- <-]|[_ Hk]]; [|apply Hm, Hk].
    split; [reflexivity|]. split; [reflexivity|]. left. split; reflexivity.
  - intros k [= <-]. cbn [fst]. rewrite lookup_insert_eq. eexists. reflexivity.
Qed.

Lemma scanned_start : scanned (∅, None).
Proof.
  split; [|discriminate]. intros k b Hk. cbn [fst] in Hk.
  rewrite lookup_empty in Hk. discriminate.
Qed.

Lemma foldlM_scanned (lines : list string) (st : Discovery.state) :
  foldlM (Discovery.scan_line int_log2) (∅, None) lines = Ok st -> scanned st.
Proof.
  apply (foldlM_invariant scanned (Discovery.scan_line int_log2));
    [intros a x a' Ha Hx; exact (scan_line_scanned a a' x Ha Hx) | exact scanned_start].
Qed.

End Scanned.

(** X14.  Every block that [find_ram_instances] returns is stored under
    its own instance name with [lsb] 0, and its dimensions are both
    unset, or both the text of a number, or a positive integer width with
    an integer or unset depth: never an integer beside a string. *)
Theorem discovered_blocks (int_log2 : Z -> Z) (lines : list string)
    (m : gmap string Bram.t) (k : string) (b : Bram.t) :
  Discovery.find_ram_instances int_log2 lines = Ok m ->
  m !! k = Some b ->
  discovered k b.
Proof.
  unfold Discovery.find_ram_instances. intros H Hk. inv_bind H. injection H as <-.
  apply (foldlM_scanned int_log2 lines a Ha), Hk.
Qed.

Lemma discovered_blocks_witness :
  exists b, discovered "rom/ram_1024_x_18" b /\ Bram.width b = VInt 18.
Proof.
  destruct spartan6_dimensions_are_integers as (m & Hm & Hb).
  eexists. split.
  - exact (discovered_blocks Z.log2 xdl_spartan6 m _ _ Hm Hb).
  - reflexivity.
Defined.

(** ** How the scan fails *)

Section ScanErrors.
Variable int_log2 : Z -> Z.

Lemma cfg_rule_cases (p big small : string) (cap_big cap_small : Z)
    (primitive l : string) (st : Discovery.state) :
  let r := Regex.seq [Regex.Lit p; Regex.Grp (Regex.Rep 1 Regex.digit)] in
  (~ found r l /\
   Discovery.cfg_rule int_log2 r big small cap_big cap_small primitive l st = Ok st) \/
  (zero_width r l /\
   Discovery.cfg_rule int_log2 r big small cap_big cap_small primitive l st =
     Raise ValueError) \/
  (found r l /\ ~ zero_width r l /\
   exists d w,
     Discovery.cfg_rule int_log2 r big small cap_big cap_small primitive l st =
     (m ← Discovery.set_dims st.1 st.2 d w; Ok (m, None))).
Proof.
  intros r. unfold Discovery.cfg_rule, found, zero_width.
  destruct (Regex.re_search r l) as [gs|] eqn:E.
  2:{ left. split; [intros [x Hx]; discriminate | reflexivity]. }
  right. destruct (width_re_search _ _ _ E) as (g & -> & Hg).
  destruct (py_int_number g Hg) as (n & Hn & Hpos).
  unfold Discovery.resolve, Discovery.int_group. rewrite Hn, bind_Ok.
  destruct (n <=? 0) eqn:En.
  - left. apply Z.leb_le in En. assert (n = 0) by lia. subst n.
    split; [exists g; split; [reflexivity | exact Hn] | reflexivity].
  - right. apply Z.leb_gt in En. split; [eexists; reflexivity|]. split.
    + intros (g' & [= <-] & Hg'). rewrite Hn in Hg'. injection Hg' as ->. lia.
    + eexists _, _. rewrite bind_Ok. reflexivity.
Qed.

Lemma s6_rule_cases (primitive l : string) (st : Discovery.state) :
  (~ found Discovery.cfg_s6_re l /\
   Discovery.cfg_rule int_log2 Discovery.cfg_s6_re "16" "8" 16384 8192 primitive l st =
     Ok st) \/
  (zero_width Discovery.cfg_s6_re l /\
   Discovery.cfg_rule int_log2 Discovery.cfg_s6_re "16" "8" 16384 8192 primitive l st =
     Raise ValueError) \/
  (found Discovery.cfg_s6_re l /\ ~ zero_width Discovery.cfg_s6_re l /\
   exists d w,
     Discovery.cfg_rule int_log2 Discovery.cfg_s6_re "16" "8" 16384 8192 primitive l st =
     (m ← Discovery.set_dims st.1 st.2 d w; Ok (m, None))).
Proof. exact (cfg_rule_cases "DATA_WIDTH_A::" "16" "8" 16384 8192 primitive l st). Qed.

Lemma v7_rule_cases (primitive l : string) (st : Discovery.state) :
  (~ found Discovery.cfg_v7_re l /\
   Discovery.cfg_rule int_log2 Discovery.cfg_v7_re "36" "18" 32768 16384 primitive l st =
     Ok st) \/
  (zero_width Discovery.cfg_v7_re l /\
   Discovery.cfg_rule int_log2 Discovery.cfg_v7_re "36" "18" 32768 16384 primitive l st =
     Raise ValueError) \/
  (found Discovery.cfg_v7_re l /\ ~ zero_width Discovery.cfg_v7_re l /\
   exists d w,
     Discovery.cfg_rule int_log2 Discovery.cfg_v7_re "36" "18" 32768 16384 primitive l st =
     (m ← Discovery.set_dims st.1 st.2 d w; Ok (m, None))).
Proof. exact (cfg_rule_cases "READ_WIDTH_A::" "36" "18" 32768 16384 primitive l st). Qed.

Lemma set_dims_closed (m : gmap string Bram.t) (d w : val) :
  Discovery.set_dims m None d w = Raise KeyError.
Proof. reflexivity. Qed.

Lemma set_dims_open (m : gmap string Bram.t) (k : string) (b : Bram.t) (d w : val) :
  m !! k = Some b ->
  Discovery.set_dims m (Some k) d w = Ok (<[k := Bram.set_dims b d w]> m).
Proof. intros H. unfold Discovery.set_dims, getitem. rewrite H. reflexivity. Qed.

(** A line read while the attributes of an instance are awaited. *)
Lemma scan_line_open (m : gmap string Bram.t) (k : string) (b : Bram.t) (l : string) :
  m !! k = Some b ->
  match Discovery.scan_line int_log2 (m, Some k) l with
  | Raise e =>
      (e = KeyError /\ two_attributes l) \/
      (e = ValueError /\
       (zero_width Discovery.cfg_s6_re l \/ zero_width Discovery.cfg_v7_re l))
  | Ok _ =>
      ~ two_attributes l /\
      ~ zero_width Discovery.cfg_s6_re l /\ ~ zero_width Discovery.cfg_v7_re l
  end.
Proof.
  intros Hb. unfold Discovery.scan_line. cbn [fst snd].
  unfold getitem at 1. rewrite Hb, bind_Ok.
  assert (Hnz : forall r, ~ found r l -> ~ zero_width r l).
  { intros r Hn (g & Hg & _). apply Hn. unfold found. rewrite Hg. eexists. reflexivity. }
  unfold two_attributes.
  destruct (Regex.re_search Discovery.cfg_s3_re l) as [gs|] eqn:E3.
  - assert (H3 : found Discovery.cfg_s3_re l)
      by (unfold found; rewrite E3; eexists; reflexivity).
    destruct (s3_re_search _ _ E3) as (g1 & g2 & -> & _ & _).
    rewrite (set_dims_open _ _ _ _ _ Hb), !bind_Ok.
    destruct (s6_rule_cases (Bram.primitive b) l
                (<[k := Bram.set_dims b (VStr g1) (VStr g2)]> m, None))
      as [[Hn6 ->] | [[Hz6 ->] | (Hf6 & Hnz6 & d6 & w6 & ->)]].
    + rewrite bind_Ok.
      destruct (v7_rule_cases (Bram.primitive b) l
                  (<[k := Bram.set_dims b (VStr g1) (VStr g2)]> m, None))
        as [[Hn7 ->] | [[Hz7 ->] | (Hf7 & Hnz7 & d7 & w7 & ->)]].
      * rewrite bind_Ok.
        destruct (Regex.re_match Discovery.inst_re l) as [[|? [|? [|? [|? ?]]]]|];
          (split; [intros [[_ H] | [[_ H] | [H _]]]; contradiction|]);
          (split; apply Hnz; assumption).
      * right. split; [reflexivity | right; exact Hz7].
      * left. split; [reflexivity | right; left; split; assumption].
    + right. split; [reflexivity | left; exact Hz6].
    + left. split; [reflexivity | left; split; assumption].
  - assert (H3 : ~ found Discovery.cfg_s3_re l)
      by (unfold found; rewrite E3; intros [x Hx]; discriminate).
    rewrite bind_Ok.
    destruct (s6_rule_cases (Bram.primitive b) l (m, Some k))
      as [[Hn6 ->] | [[Hz6 ->] | (Hf6 & Hnz6 & d6 & w6 & ->)]].
    + rewrite bind_Ok.
      destruct (v7_rule_cases (Bram.primitive b) l (m, Some k))
        as [[Hn7 ->] | [[Hz7 ->] | (Hf7 & Hnz7 & d7 & w7 & ->)]].
      * rewrite bind_Ok.
        destruct (Regex.re_match Discovery.inst_re l) as [[|? [|? [|? [|? ?]]]]|];
          (split; [intros [[H _] | [[H _] | [H _]]]; contradiction|]);
          (split; apply Hnz; assumption).
      * right. split; [reflexivity | right; exact Hz7].
      * cbn [fst snd]. rewrite (set_dims_open _ _ _ _ _ Hb), !bind_Ok.
        destruct (Regex.re_match Discovery.inst_re l) as [[|? [|? [|? [|? ?]]]]|];
          (split; [intros [[H _] | [[H _] | [H _]]]; contradiction|]);
          (split; [apply Hnz; assumption | exact Hnz7]).
    + right. split; [reflexivity | left; exact Hz6].
    + cbn [fst snd]. rewrite (set_dims_open _ _ _ _ _ Hb), !bind_Ok.
      destruct (v7_rule_cases (Bram.primitive b) l (<[k := Bram.set_dims b d6 w6]> m, None))
        as [[Hn7 ->] | [[Hz7 ->] | (Hf7 & Hnz7 & d7 & w7 & ->)]].
      * rewrite bind_Ok.
        destruct (Regex.re_match Discovery.inst_re l) as [[|? [|? [|? [|? ?]]]]|];
          (split; [intros [[H _] | [[H _] | [_ H]]]; contradiction|]);
          (split; [exact Hnz6 | apply Hnz; assumption]).
      * right. split; [reflexivity | right; exact Hz7].
      * left. split; [reflexivity | right; right; split; assumption].
Qed.

(** A line read while no attributes are awaited. *)
Lemma scan_line_closed (m : gmap string Bram.t) (l : string) :
  exists st, Discovery.scan_line int_log2 (m, None) l = Ok st.
Proof.
  unfold Discovery.scan_line. cbn [fst snd]. rewrite bind_Ok.
  destruct (Regex.re_match Discovery.inst_re l) as [[|g1 [|g2 [|g3 [|g4 gs]]]]|];
    eexists; reflexivity.
Qed.

Lemma scan_line_nothing (m : gmap string Bram.t) (l : string) :
  Regex.re_match Discovery.inst_re l = None ->
  Discovery.scan_line int_log2 (m, None) l = Ok (m, None).
Proof.
  intros Hl. unfold Discovery.scan_line. cbn [fst snd]. rewrite bind_Ok, Hl. reflexivity.
Qed.

Lemma scan_line_inst (st st' : Discovery.state) (l n p loc : string) :
  Regex.re_match Discovery.inst_re l = Some [n; p; loc] ->
  Discovery.scan_line int_log2 st l = Ok st' ->
  st'.2 = Some n /\ st'.1 !! n = Some (Bram.init n p loc).
Proof.
  intros Hi H. unfold Discovery.scan_line in H. inv_bind H. rewrite Hi in H.
  injection H as <-. cbn [fst snd]. rewrite lookup_insert_eq. split; reflexivity.
Qed.

(** The state after an instance line, at the end of a scan that went
    well. *)
Lemma scan_after_inst (pre : list string) (li n p loc : string) (m : gmap string Bram.t) :
  Discovery.find_ram_instances int_log2 (pre ++ [li]) = Ok m ->
  Regex.re_match Discovery.inst_re li = Some [n; p; loc] ->
  foldlM (Discovery.scan_line int_log2) (∅, None) (pre ++ [li]) = Ok (m, Some n) /\
  m !! n = Some (Bram.init n p loc).
Proof.
  unfold Discovery.find_ram_instances. intros H Hi. inv_bind H. injection H as <-.
  pose proof Ha as Ha'. rewrite foldlM_snoc in Ha'. inv_bind Ha'.
  destruct (scan_line_inst _ _ _ _ _ _ Hi Ha') as [H2 H1].
  destruct a as [m lb]. cbn [fst snd] in *. subst lb. split; [exact Ha | exact H1].
Qed.

Lemma find_raises (pre post : list string) (l : string) (st : Discovery.state) (e : exn) :
  foldlM (Discovery.scan_line int_log2) (∅, None) pre = Ok st ->
  Discovery.scan_line int_log2 st l = Raise e ->
  Discovery.find_ram_instances int_log2 (pre ++ l :: post) = Raise e.
Proof.
  intros Hpre Hl. unfold Discovery.find_ram_instances.
  rewrite foldlM_app, Hpre, bind_Ok. cbn [foldlM]. rewrite Hl. reflexivity.
Qed.

End ScanErrors.

(** X15.  When no line of the netlist opens a block RAM instance,
    whatever attributes the lines hold, [find_ram_instances] returns the
    empty mapping and [main] ends with status 1 after the diagnostic that
    no RAM instances were found. *)
Theorem no_instance_lines int_log2 error lines ram_inst mem_data stdin ok :
  Forall (fun l => Regex.re_match Discovery.inst_re l = None) lines ->
  Discovery.find_ram_instances int_log2 lines = Ok ∅ /\
  Discovery.main int_log2 error lines ram_inst mem_data stdin ok =
    Abort (SystemExit 1)
      (eprint (init_state []) (error "ERROR:" +:+ " No RAM instances found")).
Proof.
  intros H.
  assert (Hf : foldlM (Discovery.scan_line int_log2) (∅, None) lines = Ok (∅, None)).
  { induction H as [|l lines Hl _ IH]; [reflexivity|].
    cbn [foldlM]. rewrite (scan_line_nothing int_log2 ∅ l Hl), bind_Ok. exact IH. }
  assert (Hm : Discovery.find_ram_instances int_log2 lines = Ok ∅)
    by (unfold Discovery.find_ram_instances; rewrite Hf; reflexivity).
  split; [exact Hm|]. unfold Discovery.main. rewrite Hm. reflexivity.
Qed.

Lemma no_instance_lines_witness :
  Discovery.find_ram_instances Z.log2 [xdl_cfg "DATA_WIDTH_A::18"; "design top;"] = Ok ∅ /\
  Discovery.main Z.log2 id [xdl_cfg "DATA_WIDTH_A::18"; "design top;"] None mem_1024
    [] true =
    Abort (SystemExit 1) (eprint (init_state []) (id "ERROR:" +:+ " No RAM instances found")).
Proof.
  apply no_instance_lines. repeat constructor.
Defined.

(** X16.  A line after an instance line in which both [DATA_WIDTH_A] and
    [READ_WIDTH_A] are found, neither with 0, makes [find_ram_instances]
    raise [KeyError]: the first rule that applies sets [last_bram] to
    [None], the next one looks [None] up in the mapping. *)
Theorem second_attribute_raises int_log2 pre li l post n p loc m :
  Discovery.find_ram_instances int_log2 (pre ++ [li]) = Ok m ->
  Regex.re_match Discovery.inst_re li = Some [n; p; loc] ->
  found Discovery.cfg_s6_re l -> found Discovery.cfg_v7_re l ->
  ~ zero_width Discovery.cfg_s6_re l -> ~ zero_width Discovery.cfg_v7_re l ->
  Discovery.find_ram_instances int_log2 (pre ++ li :: l :: post) = Raise KeyError.
Proof.
  intros Hm Hi H6 H7 Hz6 Hz7.
  destruct (scan_after_inst int_log2 _ _ _ _ _ _ Hm Hi) as [Hf Hb].
  change (pre ++ li :: l :: post) with (pre ++ [li] ++ l :: post).
  rewrite app_assoc. eapply find_raises; [exact Hf|].
  pose proof (scan_line_open int_log2 m n _ l Hb) as H.
  destruct (Discovery.scan_line int_log2 (m, Some n) l) as [st|e].
  - exfalso. destruct H as [H _]. apply H. right. right. split; assumption.
  - destruct H as [[-> _] | [_ [Hz | Hz]]]; [reflexivity | contradiction | contradiction].
Qed.

Lemma second_attribute_raises_witness :
  Discovery.find_ram_instances Z.log2 xdl_two_families = Raise KeyError.
Proof.
  apply (second_attribute_raises Z.log2 [] (xdl_inst "a" "RAMB16BWER" "RAMB16_X0Y0")
           (xdl_cfg "DATA_WIDTH_A::18 READ_WIDTH_A::18") [] "a" "RAMB16BWER" "X0Y0"
           {[ "a" := Bram.init "a" "RAMB16BWER" "X0Y0" ]}).
  - vm_compute. reflexivity.
  - vm_compute. reflexivity.
  - vm_compute. eexists. reflexivity.
  - vm_compute. eexists. reflexivity.
  - intros (g & Hg & H0). vm_compute in Hg. injection Hg as <-. vm_compute in H0.
    discriminate.
  - intros (g & Hg & H0). vm_compute in Hg. injection Hg as <-. vm_compute in H0.
    discriminate.
Defined.



(** X18.  [find_ram_instances] fails in two ways only: with [ValueError],
    on a line that gives [DATA_WIDTH_A] or [READ_WIDTH_A] as 0, and with
    [KeyError], on a line in which two of the three attribute patterns
    are found.  [int] never fails on what the patterns captured, and the
    instance whose attributes are awaited is always in the mapping. *)
Theorem discovery_errors int_log2 lines e :
  Discovery.find_ram_instances int_log2 lines = Raise e ->
  exists l, l ∈ lines /\
    ((e = ValueError /\
      (zero_width Discovery.cfg_s6_re l \/ zero_width Discovery.cfg_v7_re l)) \/
     (e = KeyError /\ two_attributes l)).
Proof.
  unfold Discovery.find_ram_instances. intros H.
  destruct (foldlM (Discovery.scan_line int_log2) (∅, None) lines) as [st|e'] eqn:E;
    [discriminate|].
  injection H as ->.
  apply foldlM_Raise_inv in E as (pre & l & post & st & -> & Hpre & Hl).
  exists l. split; [apply elem_of_app; right; left|].
  pose proof (foldlM_scanned int_log2 pre st Hpre) as [_ Hopen].
  destruct st as [m [k|]]; cbn [fst snd] in Hopen.
  - destruct (Hopen k eq_refl) as [b Hb].
    pose proof (scan_line_open int_log2 m k b l Hb) as H. rewrite Hl in H.
    destruct H as [[-> H2] | [-> Hz]]; [right | left]; (split; [reflexivity | assumption]).
  - destruct (scan_line_closed int_log2 m l) as (st' & H). rewrite H in Hl. discriminate.
Qed.

Lemma discovery_errors_witness :
  exists l, l ∈ xdl_unused_port /\
    ((ValueError = ValueError /\
      (zero_width Discovery.cfg_s6_re l \/ zero_width Discovery.cfg_v7_re l)) \/
     (ValueError = KeyError /\ two_attributes l)).
Proof.
  apply (discovery_errors Z.log2 xdl_unused_port ValueError).
  vm_compute. reflexivity.
Defined.

(** ** The menu of the prompt *)

Section Menu.
Variable error : string -> string.
Variable ram_insts : gmap string Bram.t.
Variable target_depth : Z.

Lemma after_prompt_menu (x : string) (s s' : state) :
  after_prompt error ram_insts target_depth x s = Continue s' ->
  S (length (inames s')) = length (inames s).
Proof.
  intros H.
  destruct (after_prompt_Continue_inv _ _ _ _ _ _ H) as (name & l1 & ns & _ & Hrm & -> & _).
  apply list_remove_Permutation in Hrm. rewrite Hrm. reflexivity.
Qed.

Lemma before_prompt_menu (s s' : state) :
  before_prompt error ram_insts s = Continue s' -> inames s <> [].
Proof.
  unfold before_prompt, report_error_exit. intros H E.
  destruct (MemLayout.rows (lo s)); [discriminate|].
  destruct (if bool_decide _ then _ else _); cbn [try] in H; [|discriminate].
  rewrite E in H. discriminate.
Qed.

Lemma prompts_menu (s0 s : state) (pre : list string) :
  prompts error ram_insts target_depth s0 pre s ->
  (length (inames s) + length pre = length (inames s0))%nat /\ inames s <> [].
Proof.
  induction 1 as [s _ Hb | s0 y s1 pre s _ _ Ha _ [IH1 IH2]].
  - split; [simpl; lia | eapply before_prompt_menu, Hb].
  - split; [|exact IH2]. apply after_prompt_menu in Ha. simpl. lia.
Qed.

End Menu.

(** X19.  When the prompt is shown after [k] answers, the menu holds the
    number of discovered instances minus [k] names, and at least one: an
    answer that the loop accepts takes one name off the menu, and the
    prompt is never shown with an empty menu. *)
Theorem menu_shrinks error ram_insts mem_data pre s :
  at_prompt error ram_insts mem_data pre s ->
  (length (inames s) + length pre = length (sorted_keys ram_insts))%nat /\
  inames s <> [].
Proof. intros [_ Hp]. apply (prompts_menu _ _ _ _ _ _ Hp). Qed.

Lemma menu_shrinks_witness :
  exists s, at_prompt id two_nines mem_1024 ["1"] s /\
    (length (inames s) + 1 = length (sorted_keys two_nines))%nat.
Proof.
  destruct at_prompt_two_nines_one as (s & Hs & _).
  exists s. split; [exact Hs|].
  apply (menu_shrinks id two_nines mem_1024 ["1"] s Hs).
Defined.

(** ** Runs without a prompt *)

Lemma assemble_no_prompt error ram_insts ram_inst target_depth stdin :
  ram_inst <> None \/ (length (sorted_keys ram_insts) <= 1)%nat ->
  assemble error ram_insts ram_inst target_depth stdin =
  assemble error ram_insts ram_inst target_depth [].
Proof.
  intros Hc. unfold assemble. cbn [inames init_state].
  destruct (bool_decide (length (sorted_keys ram_insts) = 0%nat)) eqn:E0; [reflexivity|].
  apply bool_decide_eq_false in E0.
  destruct (select error ram_insts ram_inst (init_state (sorted_keys ram_insts)))
    as [s1|e s1] eqn:Es; [|reflexivity].
  cbn [and_then].
  assert (Hp : prompt_user s1 = false).
  { unfold select in Es. cbn [inames init_state] in Es.
    destruct (bool_decide (length (sorted_keys ram_insts) = 1%nat)) eqn:E1.
    - destruct (sorted_keys ram_insts !! 0%nat); [|discriminate].
      destruct (_ ≫= _); cbn [try] in Es; [|discriminate].
      injection Es as <-. reflexivity.
    - apply bool_decide_eq_false in E1. destruct ram_inst as [spec|].
      + destruct (select_spec_Continue_inv _ _ _ _ _ Es) as (_ & _ & l & _ & ->).
        reflexivity.
      + destruct Hc as [Hc | Hc]; [congruence | lia]. }
  rewrite !prompt_loop_no_prompt by exact Hp. reflexivity.
Qed.

(** X20.  With the [-r] option, or with at most one instance in the
    netlist, [main] reads no line of input: it ends the same way
    whatever is typed. *)
Theorem no_input_read error ram_insts ram_inst mem_data stdin ok :
  ram_inst <> None \/ (length (sorted_keys ram_insts) <= 1)%nat ->
  main_body error ram_insts ram_inst mem_data stdin ok =
  main_body error ram_insts ram_inst mem_data [] ok.
Proof.
  intros Hc. unfold main_body.
  rewrite (assemble_no_prompt _ _ _ _ stdin Hc). reflexivity.
Qed.

Lemma no_input_read_witness :
  main_body id two_nines (Some "a,b") mem_1024 ["q"] true =
  main_body id two_nines (Some "a,b") mem_1024 [] true.
Proof. apply no_input_read. left. discriminate. Defined.

(** ** data2mem *)

(** X21.  A run that ends with status 0 and a BMM file ends, when
    data2mem fails instead, with status 1 after the diagnostic on
    data2mem; the BMM file is written all the same. *)
Theorem data2mem_failure_keeps_file error ram_insts ram_inst mem_data stdin s :
  main_body error ram_insts ram_inst mem_data stdin true = Abort (SystemExit 0) s ->
  is_Some (bmm_file s) ->
  main_body error ram_insts ram_inst mem_data stdin false =
    Abort (SystemExit 1) (eprint s (error "ERROR:" +:+ " data2mem failure")).
Proof.
  unfold main_body. intros H Hfile.
  pose proof (assemble_frame error ram_insts (required_depth mem_data) ram_inst stdin)
    as Hnone.
  destruct (assemble error ram_insts ram_inst (required_depth mem_data) stdin)
    as [s1|e1 s1]; cbn [and_then state_of] in *.
  2:{ injection H as _ <-. rewrite Hnone in Hfile. destruct Hfile; discriminate. }
  assert (Hno : forall s', bmm_file s' = None -> s' = s -> False)
    by (intros s' H1 ->; rewrite H1 in Hfile; destruct Hfile; discriminate).
  unfold finish, report_error_exit in *.
  destruct (summary_raises (lo s1)); cbn [try] in *;
    [|injection H as _ H; exfalso; exact (Hno _ Hnone H)].
  destruct (negb (same_widths (lo s1))); [discriminate|].
  destruct (last_row (lo s1)) as [rl|]; cbn [try] in *;
    [|injection H as _ H; exfalso; exact (Hno _ Hnone H)].
  destruct (negb (MemRow.end_ rl + 1 =? required_depth mem_data)); [discriminate|].
  destruct (MemLayout.bmm (lo s1)) as [text|e'] eqn:Eb; cbn [try] in *.
  - injection H as <-. reflexivity.
  - injection H as -> _. apply bmm_Raise in Eb as [Eb | Eb]; discriminate.
Qed.

Lemma data2mem_failure_keeps_file_witness :
  exists s text,
    main_body id two_nines None mem_1024 ["1"; "1"] false = Abort (SystemExit 1) s /\
    bmm_file s = Some text.
Proof.
  eexists _, _. split.
  - apply (data2mem_failure_keeps_file id two_nines None mem_1024 ["1"; "1"]);
      [vm_compute; reflexivity | eexists; reflexivity].
  - reflexivity.
Defined.

(** ** Adding a row *)

(** X22.  [add_row] appends the row with its blocks and its depth
    unchanged, whether it moves the row or not: the sum of the depths of
    the layout grows by the depth of the row. *)
Theorem add_row_keeps_depth (l : MemLayout.t) (r : MemRow.t) (relative_start : bool) :
  exists r',
    MemLayout.rows (MemLayout.add_row l r relative_start) = MemLayout.rows l ++ [r'] /\
    MemRow.brams r' = MemRow.brams r /\
    MemRow.depth r' = MemRow.depth r /\
    MemLayout.sum_depth (MemLayout.rows (MemLayout.add_row l r relative_start)) =
      MemLayout.sum_depth (MemLayout.rows l) + MemRow.depth r.
Proof.
  assert (Hsum : forall r', MemRow.depth r' = MemRow.depth r ->
            MemLayout.sum_depth (MemLayout.rows l ++ [r']) =
            MemLayout.sum_depth (MemLayout.rows l) + MemRow.depth r).
  { intros r' Hd. unfold MemLayout.sum_depth.
    rewrite !foldl_add_sumZ, fmap_app, sumZ_app. simpl. lia. }
  unfold MemLayout.add_row.
  destruct relative_start; [destruct (last (MemLayout.rows l)) as [rl|]|];
    eexists; cbn [MemLayout.rows];
    (split; [reflexivity|]); (split; [reflexivity|]);
    (split; [|apply Hsum]); unfold MemRow.depth; cbn [MemRow.start MemRow.end_]; lia.
Qed.

(** ** The constructor and [add_bram] *)

Lemma init_with_eq (s e w1 : Z) (b1 : Bram.t) (bs : list Bram.t) (ws : list Z) :
  int_widths (b1 :: bs) (w1 :: ws) ->
  MemRow.init_with s e (b1 :: bs) =
  Ok (MemRow.mk s e
        ((fun b => Bram.set_lsb b (Bram.lsb b + (18 - w1))) <$>
           stacked 0 (b1 :: bs) (w1 :: ws)) 18).
Proof.
  intros Hw.
  unfold MemRow.init_with. rewrite (stack_up_reverse _ _ 0 Hw). rewrite bind_Ok.
  rewrite reverse_involutive.
  assert (Hw1 : Bram.width b1 = VInt w1) by (injection Hw; auto).
  cbn [stacked]. cbn [length]. rewrite bool_decide_eq_true_2 by lia.
  cbn [andb Z.ltb Z.compare].
  change (Bram.width (Bram.set_lsb b1 (0 + sumZ ws))) with (Bram.width b1).
  rewrite Hw1. cbn [int_of]. rewrite bind_Ok. reflexivity.
Qed.

(** X23.  The constructor and [add_bram] do not place the blocks alike:
    for blocks of integer widths [w1, ..., wn], [MemRow(start, end,
    brams)] puts every block [w2 + ... + wn] bits higher than adding the
    blocks one by one to [MemRow(start, end)] does. *)
Theorem constructor_above_add_bram (s e d1 w1 : Z) (b1 : Bram.t) (bs : list Bram.t)
    (ws : list Z) :
  int_widths (b1 :: bs) (w1 :: ws) ->
  Bram.depth b1 = VInt d1 ->
  exists r r',
    add_brams (MemRow.init s e) (b1 :: bs) = Ok r /\
    MemRow.init_with s e (b1 :: bs) = Ok r' /\
    length (MemRow.brams r) = length (MemRow.brams r') /\
    forall i b b',
      MemRow.brams r !! i = Some b -> MemRow.brams r' !! i = Some b' ->
      b' = Bram.set_lsb b (Bram.lsb b + sumZ ws).
Proof.
  intros Hw Hd. pose proof (int_widths_length _ _ Hw) as Hlen.
  eexists _, _. split; [apply add_brams_init; eassumption|].
  split; [apply init_with_eq; exact Hw|].
  cbn [MemRow.brams]. split.
  - rewrite length_fmap, placed_length, stacked_length by exact Hlen. reflexivity.
  - intros i b b' Hi Hi'. rewrite list_lookup_fmap in Hi'.
    destruct (stacked 0 (b1 :: bs) (w1 :: ws) !! i) as [b2|] eqn:Eb; [|discriminate].
    destruct (stacked_lookup _ _ _ _ _ Eb) as (b0 & H0 & ->).
    destruct (placed_lookup _ _ _ _ _ Hi) as (b0' & w & H0' & Hwi & ->).
    rewrite H0 in H0'. injection H0' as <-. injection Hi' as <-.
    unfold Bram.set_lsb.
    cbn [Bram.instance Bram.primitive Bram.loc Bram.depth Bram.width Bram.lsb].
    f_equal.
    assert (Hsplit : sumZ (w1 :: ws) =
              sumZ (take (S i) (w1 :: ws)) + sumZ (drop (S i) (w1 :: ws))).
    { rewrite <- sumZ_app, take_drop. reflexivity. }
    simpl in Hsplit. change (sumZ (w1 :: ws)) with (w1 + sumZ ws) in Hsplit.
    cbn [take drop] in *. simpl. lia.
Qed.

Lemma constructor_above_add_bram_witness :
  exists r r',
    add_brams (MemRow.init 0 0) [blk "a" 1024 9; blk "b" 1024 9] = Ok r /\
    MemRow.init_with 0 0 [blk "a" 1024 9; blk "b" 1024 9] = Ok r' /\
    Bram.lsb <$> MemRow.brams r = [9; 0] /\
    Bram.lsb <$> MemRow.brams r' = [18; 9].
Proof.
  destruct (constructor_above_add_bram 0 0 1024 9 (blk "a" 1024 9) [blk "b" 1024 9] [9]
              eq_refl eq_refl) as (r & r' & Hr & Hr' & _).
  exists r, r'. split; [exact Hr|]. split; [exact Hr'|].
  vm_compute in Hr. injection Hr as <-. vm_compute in Hr'. injection Hr' as <-.
  split; reflexivity.
Defined.
